(** * Sourcify: validation service and chain monitor

    A shallow embedding of
      - [services/validation/src/ValidationService.ts] (module [Validation]),
      - the chain monitor (module [Monitor]),
    followed by the properties proved about them.

    Conventions of the embedding.
      - A JavaScript string is the sequence of bytes of its UTF-8 encoding
        (a Rocq [string]).
      - A value produced by [JSON.parse] is a [json]; [undefined] is the
        [None] of an [option json].  Objects used as dictionaries are finite
        maps keyed by strings ([gmap string _]) that hold the own
        properties; an assignment [o[k] = v] to the property name
        [__proto__] creates no own property ([assign]), while [JSON.parse]
        does create one for a key [__proto__] of the text; the enumeration
        order of [for .. in] is the order of [map_to_list], and no theorem
        depends on it.
      - A JSON number is an integer ([Z]); the validation code only ever
        tests numbers for truthiness.  The numbers the chain monitor
        computes with are IEEE 754 doubles ([spec_float]), with their
        rounding, their infinities and NaN.
      - A field of a manifest has the type the TypeScript code declares
        for it: the [content] and the [keccak256] of a source are strings
        or absent.  Where a value of another type would reach
        [Web3.utils.keccak256] or a comparison with a digest, the model
        stops with the error [IllTyped].
      - The libraries the code calls but does not define ([JSON.parse],
        [Web3.utils.keccak256], [JSZip], [Buffer.toString], the web3
        provider, the verification service) are the fields of a class of
        runtimes; every theorem holds for every runtime.
      - Exceptions are the [Throw] of an error monad; in the chain
        monitor, where a promise chain catches them, they are an outcome of
        the handling of a block.  Logging is not modelled.
      - The calls of [fs] and [Path], and the decoding of a bytecode, are
        the fields of classes as well.  The recursion over the directories
        is bounded by a depth; what it does is proved for every depth that
        covers the nesting of the directories. *)

From Stdlib Require Import String Ascii ZArith Lia Floats.SpecFloat.
From stdpp Require Import gmap strings list fin_maps pretty sorting.

Set Default Proof Using "Type".
#[local] Set Warnings "-register-all".

(* ================================================================== *)
(** * Part I: definitions *)
(* ================================================================== *)

(** ** The error monad *)

Inductive error : Type :=
  | MetadataNotFound
      (* "Metadata file not found. Did you include "metadata.json"?" *)
  | MalformedMetadata (responsibleFiles : string)
      (* "Couldn't parse metadata files or they are malformed. ..." *)
  | UnzipError (zipPath : string)
      (* "Error while unzipping <path>: ..." *)
  | SizeAssertion
      (* thrown by assertObjectSize *)
  | TypeError
      (* a property read on null or undefined *)
  | SyntaxError
      (* JSON.parse outside a try block *)
  | IllTyped.
      (* a value whose type is not the one the TypeScript code declares
         for it (a digest that is not a string, ...): not modelled *)

Inductive result (A : Type) : Type :=
  | Ok (a : A)
  | Throw (e : error).
Arguments Ok {A} a.
Arguments Throw {A} e.

#[export] Instance result_ret : MRet result := fun A a => Ok a.
#[export] Instance result_bind : MBind result := fun A B f m =>
  match m with
  | Ok a => f a
  | Throw e => Throw e
  end.

(** [try { body } catch { handler }] *)
Definition try_catch {A} (body : result A) (handler : A) : A :=
  match body with
  | Ok a => a
  | Throw _ => handler
  end.

(** The errors of the runtime, as opposed to those [splitFiles] throws. *)
Definition runtimeError (e : error) : Prop := e = TypeError \/ e = IllTyped.

(** ** The fragment of JavaScript values the code manipulates *)

Module Js.

Inductive json : Type :=
  | JNull
  | JBool (b : bool)
  | JNum (n : Z)
  | JStr (s : string)
  | JArr (l : list json)
  | JObj (m : gmap string json).

(** ToBoolean: [!!v], and the test of [if (v)]. *)
Definition truthy (v : json) : bool :=
  match v with
  | JNull => false
  | JBool b => b
  | JNum n => negb (n =? 0)%Z
  | JStr s => negb (String.eqb s EmptyString)
  | JArr _ => true
  | JObj _ => true
  end.

(** The same on a possibly undefined value. *)
Definition truthy_opt (o : option json) : bool :=
  match o with
  | Some v => truthy v
  | None => false
  end.

(** [v.k] for a property name [k] that is neither an index nor a member
    of a built-in prototype (every name the code reads is such a name):
    only objects own such a property.  On [null] the read throws, see
    [member]; under optional chaining it is [undefined]. *)
Definition field (v : json) (k : string) : option json :=
  match v with
  | JObj m => m !! k
  | _ => None
  end.

(** [o?.k] *)
Definition opt_field (o : option json) (k : string) : option json :=
  o ≫= fun v => field v k.

(** [o.k], which throws on [null] and [undefined]. *)
Definition member (o : option json) (k : string) : result (option json) :=
  match o with
  | None => Throw TypeError
  | Some JNull => Throw TypeError
  | Some v => Ok (field v k)
  end.

(** [o[k] = v] on an object made by [{}]: an ordinary property is created
    or overwritten.  For the property name [__proto__] the assignment goes
    to the accessor of [Object.prototype]: it creates no own property (it
    sets the prototype of [o] when [v] is an object, and does nothing when
    [v] is a string).  The map holds the own properties of [o]. *)
Definition assign {V} (k : string) (v : V) (o : gmap string V) : gmap string V :=
  if String.eqb k "__proto__" then o else <[k := v]> o.

(** [o === s] for a string literal [s] *)
Definition strict_eq_string (o : option json) (s : string) : bool :=
  match o with
  | Some (JStr t) => String.eqb t s
  | _ => false
  end.

(** ToString, used when [JSON.parse] is given a value that is not a
    string. *)
Fixpoint to_string (v : json) : string :=
  match v with
  | JNull => "null"
  | JBool true => "true"
  | JBool false => "false"
  | JNum n => pretty n
  | JStr s => s
  | JArr l =>
      String.concat ","
        ((fix elements (l : list json) : list string :=
            match l with
            | [] => []
            | JNull :: r => EmptyString :: elements r
            | x :: r => to_string x :: elements r
            end) l)
  | JObj _ => "[object Object]"
  end.

(** Number of UTF-16 code units of a string given by its UTF-8 bytes:
    one per byte that is not a continuation byte, and one more for each
    lead byte of a four-byte sequence. *)
Fixpoint utf16_length (s : string) : nat :=
  match s with
  | EmptyString => 0
  | String c r =>
      let n := nat_of_ascii c in
      ((if (128 <=? n) && (n <? 192) then 0 else 1)
       + (if 240 <=? n then 1 else 0)
       + utf16_length r)%nat
  end.

(** [Object.keys(v).length] for a truthy [v]. *)
Definition keys_length (v : json) : nat :=
  match v with
  | JObj m => size m
  | JArr l => length l
  | JStr s => utf16_length s
  | _ => 0%nat
  end.

End Js.
Export Js.

(** ** String operations *)

Module Text.

Definition LF : ascii := "010"%char.
Definition CR : ascii := "013"%char.
Definition QUOTE : ascii := "034"%char.
Definition BACKSLASH : ascii := "092"%char.

Definition str (l : list ascii) : string := string_of_list_ascii l.

(** [hay.includes(needle)] *)
Fixpoint includes (needle hay : string) : bool :=
  String.prefix needle hay ||
  match hay with
  | EmptyString => false
  | String _ r => includes needle r
  end.

(** [content.replace(/\r?\n/g, "\r\n")] *)
Fixpoint replace_opt_cr_lf (s : string) : string :=
  match s with
  | EmptyString => EmptyString
  | String c r =>
      if Ascii.eqb c LF then String CR (String LF (replace_opt_cr_lf r))
      else
        match r with
        | String d r' =>
            if Ascii.eqb c CR && Ascii.eqb d LF
            then String CR (String LF (replace_opt_cr_lf r'))
            else String c (replace_opt_cr_lf r)
        | EmptyString => String c EmptyString
        end
  end.

(** [content.replace(/\r\n/g, "\n")] *)
Fixpoint replace_cr_lf (s : string) : string :=
  match s with
  | EmptyString => EmptyString
  | String c r =>
      match r with
      | String d r' =>
          if Ascii.eqb c CR && Ascii.eqb d LF
          then String LF (replace_cr_lf r')
          else String c (replace_cr_lf r)
      | EmptyString => String c EmptyString
      end
  end.

(** White space and line terminators of ECMAScript, as UTF-8 byte
    sequences: the one-byte ones; U+00A0; and the three-byte ones U+1680,
    U+2000..U+200A, U+2028, U+2029, U+202F, U+205F, U+3000, U+FEFF. *)
Definition space1 (c : ascii) : bool :=
  let n := nat_of_ascii c in
  ((9 <=? n) && (n <=? 13)) || (n =? 32).

Definition space2 (a b : ascii) : bool :=
  (nat_of_ascii a =? 194) && (nat_of_ascii b =? 160).

Definition space3 (a b c : ascii) : bool :=
  let '(x, y, z) := (nat_of_ascii a, nat_of_ascii b, nat_of_ascii c) in
  ((x =? 225) && (y =? 154) && (z =? 128))
  || ((x =? 226) && (y =? 128)
      && (((128 <=? z) && (z <=? 138)) || (z =? 168) || (z =? 169) || (z =? 175)))
  || ((x =? 226) && (y =? 129) && (z =? 159))
  || ((x =? 227) && (y =? 128) && (z =? 128))
  || ((x =? 239) && (y =? 187) && (z =? 191)).

(** Strips the white space at the head of a reversed string. *)
Fixpoint strip_rev (l : list ascii) : list ascii :=
  match l with
  | [] => []
  | c :: r =>
      if space1 c then strip_rev r
      else
        match r with
        | [] => l
        | b :: r' =>
            if space2 b c then strip_rev r'
            else
              match r' with
              | [] => l
              | a :: r'' => if space3 a b c then strip_rev r'' else l
              end
        end
  end.

(** [content.trimEnd()] *)
Definition trimEnd (s : string) : string :=
  str (rev (strip_rev (rev (list_ascii_of_string s)))).

(** A reversed text from which [strip_rev] strips nothing. *)
Definition Stuck (l : list ascii) : Prop :=
  match l with
  | [] => True
  | c :: r =>
      space1 c = false
      /\ match r with
         | [] => True
         | b :: r' =>
             space2 b c = false
             /\ match r' with
                | [] => True
                | a :: _ => space3 a b c = false
                end
         end
  end.

(** [.] of a regular expression: anything but a line terminator
    (U+000A, U+000D, U+2028, U+2029); [s] is the text at the position. *)
Definition line_terminator_at (s : string) : bool :=
  match s with
  | String c r =>
      Ascii.eqb c LF || Ascii.eqb c CR ||
      String.prefix (str ["226"; "128"; "168"]%char) s ||
      String.prefix (str ["226"; "128"; "169"]%char) s
  | EmptyString => false
  end.

(** A lazy [.*?] followed by the literal [stop]: the shortest run of
    characters other than line terminators after which [stop] occurs;
    the result is the run with [stop]. *)
Fixpoint lazy_until (stop s : string) : option string :=
  if String.prefix stop s then Some stop
  else
    match s with
    | EmptyString => None
    | String c r =>
        if line_terminator_at s then None
        else String c <$> lazy_until stop r
    end.

Fixpoint drop_string (n : nat) (s : string) : string :=
  match n, s with
  | S n', String _ r => drop_string n' r
  | _, _ => s
  end.

(** [s.match(/start.*?stop/)] for literal [start] and [stop]: the match
    at the leftmost position where one exists. *)
Fixpoint match_between (start stop s : string) : option string :=
  match
    (if String.prefix start s
     then lazy_until stop (drop_string (String.length start) s)
     else None)
  with
  | Some t => Some (start +:+ t)
  | None =>
      match s with
      | EmptyString => None
      | String _ r => match_between start stop r
      end
  end.

End Text.

(** ** ValidationService.ts *)

Module Validation.
Import Text.

(** [PathBuffer] and [PathContent] of [@ethereum-sourcify/core]. *)
Record PathBuffer : Type :=
  { bpath : string; buffer : list Byte.byte }.

Record PathContent : Type :=
  { path : string; content : string }.

Record MissingSource : Type :=
  { missing_keccak256 : option string; missing_urls : option json }.

Record InvalidSource : Type :=
  { expectedHash : option string; calculatedHash : string; msg : string }.

(** Modelled from the spec: the class [CheckedContract] of
    [@ethereum-sourcify/core], a manifest bound to the mappings of its
    found, missing and invalid sources; the constructor stores its four
    arguments in the fields [useAllSources] reads back, [solidity] being
    the found sources. *)
Record CheckedContract : Type :=
  { metadata : option json;
    solidity : gmap string string;
    missing : gmap string MissingSource;
    invalid : gmap string InvalidSource }.

(** The libraries the service calls. *)
Class Runtime : Type :=
  { (* JSON.parse; None when it throws a SyntaxError *)
    JSON_parse : string -> option json;
    (* Web3.utils.keccak256, declared string -> string *)
    keccak256 : string -> string;
    (* JSZip: loadAsync and the enumeration of the members;
       None when a promise rejects *)
    JSZip_members : list Byte.byte -> option (list PathBuffer);
    (* Buffer.prototype.toString *)
    Buffer_toString : list Byte.byte -> string }.

(** "hh-sol-build-info-1", quotes included *)
Definition HARDHAT_OUTPUT_FORMAT : string :=
  String QUOTE ("hh-sol-build-info-1" +:+ String QUOTE EmptyString).

(** The two literal ends of NESTED_METADATA_REGEX:
    ["{\"compiler\":{\"version\"] and [},\"version\":1}"]. *)
Definition NESTED_METADATA_START : string :=
  str ([QUOTE; "{"; BACKSLASH; QUOTE]%char
       ++ list_ascii_of_string "compiler" ++ [BACKSLASH; QUOTE; ":"; "{"; BACKSLASH; QUOTE]%char
       ++ list_ascii_of_string "version" ++ [BACKSLASH; QUOTE]%char).

Definition NESTED_METADATA_STOP : string :=
  str (["}"; ","; BACKSLASH; QUOTE]%char
       ++ list_ascii_of_string "version" ++ [BACKSLASH; QUOTE; ":"; "1"; "}"; QUOTE]%char).

Definition CONTENT_VARIATORS : list (string -> string) :=
  [ (fun content => content);
    (fun content => replace_opt_cr_lf content);
    (fun content => replace_cr_lf content) ].

Definition ENDING_VARIATORS : list (string -> string) :=
  [ (fun content => content);
    (fun content => trimEnd content);
    (fun content => trimEnd content +:+ String LF EmptyString);
    (fun content => trimEnd content +:+ String CR (String LF EmptyString));
    (fun content => content +:+ String LF EmptyString);
    (fun content => content +:+ String CR (String LF EmptyString)) ].

Definition isByte (file : list Byte.byte) (i : nat) (b : Byte.byte) : bool :=
  match file !! i with
  | Some c => Byte.eqb c b
  | None => false
  end.

Definition isZip (file : list Byte.byte) : bool :=
  isByte file 0 Byte.x50 && isByte file 1 Byte.x4b
  && (isByte file 2 Byte.x03 || isByte file 2 Byte.x05 || isByte file 2 Byte.x07)
  && (isByte file 3 Byte.x04 || isByte file 3 Byte.x06 || isByte file 3 Byte.x08).

Definition isMetadata (obj : option json) : bool :=
  strict_eq_string (opt_field obj "language") "Solidity"
  && truthy_opt (opt_field (opt_field obj "settings") "compilationTarget")
  && truthy_opt (opt_field obj "version")
  && truthy_opt (opt_field (opt_field obj "output") "abi")
  && truthy_opt (opt_field (opt_field obj "output") "userdoc")
  && truthy_opt (opt_field (opt_field obj "output") "devdoc")
  && truthy_opt (opt_field obj "sources").

(** A value that is there and is none of [null], [false], [0] and the
    empty string; an empty array and an empty object are such values. *)
Definition Truthy (o : option json) : Prop :=
  exists v, o = Some v /\ v <> JNull /\ v <> JBool false /\ v <> JNum 0
            /\ v <> JStr EmptyString.

(** The recognition predicate in words. *)
Definition Recognizable (obj : json) : Prop :=
  field obj "language" = Some (JStr "Solidity")
  /\ Truthy (opt_field (field obj "settings") "compilationTarget")
  /\ Truthy (field obj "version")
  /\ Truthy (opt_field (field obj "output") "abi")
  /\ Truthy (opt_field (field obj "output") "userdoc")
  /\ Truthy (opt_field (field obj "output") "devdoc")
  /\ Truthy (field obj "sources").

Definition assertObjectSize (object : option json) (expectedSize : nat) : result unit :=
  match object with
  | Some v =>
      if truthy v
      then if Nat.eqb (keys_length v) expectedSize then Ok () else Throw SizeAssertion
      else Throw SizeAssertion
  | None => Throw SizeAssertion
  end.

Definition pathContentArrayToStringMap (pathContentArr : list PathContent)
  : gmap string string :=
  foldl (fun stringMapResult '(i, elem) =>
           if negb (String.eqb (path elem) EmptyString)
           then assign (path elem) (content elem) stringMapResult
           else assign ("path-" +:+ pretty i) (content elem) stringMapResult)
        ∅ (imap (fun i elem => (i, elem)) pathContentArr).

Definition extractUnused (inputFiles : list PathContent) (usedFiles unused : list string)
  : list string :=
  let tmpUnused :=
    filter (fun file => file ∉ usedFiles) (path <$> inputFiles) in
  unused ++ tmpUnused.

(** [Object.assign(target, source)] on dictionaries *)
Definition Object_assign {V} (target source : gmap string V) : gmap string V :=
  map_fold (fun k v target => assign k v target) target source.

(** [for (const k in o)], with the value [o[k]] of each key.  Nothing
    is enumerated for [undefined], [null], a number or a boolean.  The
    enumeration of the indices of a string is not modelled. *)
Definition for_in (o : option json) : result (list (string * json)) :=
  match o with
  | Some (JObj m) => Ok (map_to_list m)
  | Some (JArr l) => Ok (imap (fun i x => (pretty i, x)) l)
  | Some (JStr _) => Throw IllTyped
  | _ => Ok []
  end.

(** A loop whose body may throw. *)
Fixpoint foldlM {A B} (f : A -> B -> result A) (a : A) (l : list B) : result A :=
  match l with
  | [] => Ok a
  | x :: l' => a' ← f a x; foldlM f a' l'
  end.

(** An entry of [metadata.sources] as [rearrangeSources] reads it:
    [content] (a string, or absent), [keccak256] (declared [string], or
    absent) and [urls]. *)
Record SourceInfo : Type :=
  { info_content : option string;
    info_keccak256 : option string;
    info_urls : option json }.

(** Reading the three fields.  On [null] the read throws.  A falsy
    [content] that is not a string is only ever tested for truthiness,
    like an absent one.  A truthy [content] or a [keccak256] that is not
    a string is outside the declared types. *)
Definition sourceInfo (v : json) : result SourceInfo :=
  c ← member (Some v) "content";
  h ← member (Some v) "keccak256";
  u ← member (Some v) "urls";
  c' ← match c with
       | None => Ok None
       | Some (JStr s) => Ok (Some s)
       | Some w => if truthy w then Throw IllTyped else Ok None
       end;
  h' ← match h with
       | None => Ok None
       | Some (JStr s) => Ok (Some s)
       | Some _ => Throw IllTyped
       end;
  Ok {| info_content := c'; info_keccak256 := h'; info_urls := u |}.

Definition HASH_MISMATCH_MSG : string :=
  "The keccak256 given in the metadata and the calculated keccak256 of the source content in metadata don't match".

(** The four objects [rearrangeSources] fills. *)
Record Rearranged : Type :=
  { foundSources : gmap string string;
    missingSources : gmap string MissingSource;
    invalidSources : gmap string InvalidSource;
    metadata2provided : gmap string string }.

(** The partition an entry of [metadata.sources] ends in, with the value
    stored under its key. *)
Inductive Placement : Type :=
  | Found (text : string)
  | Missing (m : MissingSource)
  | Invalid (i : InvalidSource).

(** [r] holds the key [k] in the partition [p] says, with the value [p]
    says, and in no other partition. *)
Definition Placed (k : string) (p : Placement) (r : Rearranged) : Prop :=
  match p with
  | Found text =>
      foundSources r !! k = Some text /\ missingSources r !! k = None
      /\ invalidSources r !! k = None
  | Missing m =>
      foundSources r !! k = None /\ missingSources r !! k = Some m
      /\ invalidSources r !! k = None
  | Invalid i =>
      foundSources r !! k = None /\ missingSources r !! k = None
      /\ invalidSources r !! k = Some i
  end.

(** [r] holds the key [k] in no partition. *)
Definition Unplaced (k : string) (r : Rearranged) : Prop :=
  foundSources r !! k = None /\ missingSources r !! k = None
  /\ invalidSources r !! k = None.

(** [r] and [r'] agree on the key [k]. *)
Definition SameAt (k : string) (r r' : Rearranged) : Prop :=
  foundSources r !! k = foundSources r' !! k
  /\ missingSources r !! k = missingSources r' !! k
  /\ invalidSources r !! k = invalidSources r' !! k.

(** The three arrays [splitFiles] fills. *)
Record SplitAcc : Type :=
  { metadataFiles : list (option json);
    sourceFiles : list PathContent;
    malformedMetadataFiles : list string }.

(** The arrays before the loop of [splitFiles]. *)
Definition emptyAcc : SplitAcc :=
  {| metadataFiles := []; sourceFiles := []; malformedMetadataFiles := [] |}.

(** [settings.compilationTarget] is there, truthy, and has one key: the
    check [assertObjectSize(metadata.settings.compilationTarget, 1)]
    passes. *)
Definition singleTarget (metadata : json) : bool :=
  match opt_field (field metadata "settings") "compilationTarget" with
  | Some t => truthy t && Nat.eqb (keys_length t) 1
  | None => false
  end.

(** A file that is no Hardhat build output. *)
Definition plain (file : PathContent) : Prop :=
  includes HARDHAT_OUTPUT_FORMAT (content file) = false.

(** The key [pathContentArrayToStringMap] stores the element of index
    [i] under. *)
Definition keyOf (i : nat) (elem : PathContent) : string :=
  if negb (String.eqb (path elem) EmptyString) then path elem
  else "path-" +:+ pretty i.

(** The entries of [metadata.sources] as the loop of [rearrangeSources]
    enumerates them. *)
Definition declaredSources (metadata : option json) : result (list (string * json)) :=
  sources ← member metadata "sources";
  for_in sources.

Section WithRuntime.
Context {rt : Runtime}.

Definition generateVariations (pathContent : PathContent) : list PathContent :=
  let original := content pathContent in
  let variations :=
    foldl (fun variations contentVariator =>
             let variatedContent := contentVariator original in
             foldl (fun variations endingVariator =>
                      let variation := endingVariator variatedContent in
                      variations ++ [variation])
                   variations ENDING_VARIATORS)
          [] CONTENT_VARIATORS in
  (fun content => {| content := content; path := path pathContent |}) <$> variations.

Definition storeByHash (files : list PathContent) : gmap string PathContent :=
  foldl (fun byHash pathContent =>
           foldl (fun byHash variation =>
                    let calculatedHash := keccak256 (content variation) in
                    <[calculatedHash := variation]> byHash)
                 byHash (generateVariations pathContent))
        ∅ files.

(** The first parse is of the text; the second is of the value the
    first one returned, converted to a string.  The [try] turns every
    exception into [null]. *)
Definition extractMetadataFromString (file : string) : option json :=
  match JSON_parse file with
  | None => None
  | Some obj =>
      if isMetadata (Some obj) then Some obj
      else
        match JSON_parse (to_string obj) with
        | None => None
        | Some obj' => if isMetadata (Some obj') then Some obj' else None
        end
  end.

Definition unzip (zippedFile : PathBuffer) : result (list PathBuffer) :=
  match JSZip_members (buffer zippedFile) with
  | Some unzipped => Ok unzipped
  | None => Throw (UnzipError (bpath zippedFile))
  end.

(** The loop of [unzipFiles] at index [i]: [kept] is [files[0..i)],
    already scanned and holding no archive, [rest] is [files[i..]].
    An archive at [i] is spliced out and [i] stays; any other file
    advances [i].  When [unzip] throws the array is left as it is at
    that point.  Returns the outcome and the array. *)
Fixpoint unzipLoop (kept rest allUnzipped : list PathBuffer)
  : result unit * list PathBuffer :=
  match rest with
  | [] => (Ok (), kept ++ allUnzipped)
  | file :: rest' =>
      if isZip (buffer file) then
        match unzip file with
        | Ok unzipped => unzipLoop kept rest' (allUnzipped ++ unzipped)
        | Throw e => (Throw e, kept ++ rest)
        end
      else unzipLoop (kept ++ [file]) rest' allUnzipped
  end.

Definition unzipFiles (files : list PathBuffer) : result unit * list PathBuffer :=
  unzipLoop [] files [].

(** The recognition of a text by the loop of [splitFiles]: the text
    itself, or else the first match of NESTED_METADATA_REGEX in it. *)
Definition recognize (text : string) : option json :=
  match extractMetadataFromString text with
  | Some metadata => Some metadata
  | None =>
      match match_between NESTED_METADATA_START NESTED_METADATA_STOP text with
      | Some matchRes => extractMetadataFromString matchRes
      | None => None
      end
  end.

(** The manifests, the sources and the malformed paths the loop of
    [splitFiles] adds for a list of plain files. *)
Definition classified (acc : SplitAcc) (files : list PathContent) : SplitAcc :=
  {| metadataFiles :=
       metadataFiles acc
       ++ omap (fun file => match recognize (content file) with
                            | Some m => if singleTarget m then Some (Some m) else None
                            | None => None
                            end) files;
     sourceFiles :=
       sourceFiles acc
       ++ filter (fun file => recognize (content file) = None) files;
     malformedMetadataFiles :=
       malformedMetadataFiles acc
       ++ omap (fun file => match recognize (content file) with
                            | Some m => if singleTarget m then None else Some (path file)
                            | None => None
                            end) files |}.

(** The files of an array that are not archives, then the members of
    those that are, in order. *)
Definition expanded (files : list PathBuffer) : list PathBuffer :=
  filter (fun file => isZip (buffer file) = false) files
  ++ (file ← filter (fun file => isZip (buffer file) = true) files;
      default [] (JSZip_members (buffer file))).

(** Hardhat build output: the sources with a truthy [content], and
    the result of [extractMetadataFromString] (possibly [null]) for
    every contract with a truthy [metadata]. *)
Definition extractHardhatMetadataAndSources (hardhatFile : PathContent)
  : result (list (option json) * list PathContent) :=
  match JSON_parse (content hardhatFile) with
  | None => Throw SyntaxError
  | Some hardhatJson =>
      input ← member (Some hardhatJson) "input";
      hardhatSourceFilesObject ← member input "sources";
      sourceEntries ← for_in hardhatSourceFilesObject;
      hardhatSourceFiles ←
        foldlM (fun hardhatSourceFiles '(path, entry) =>
                  c ← member (Some entry) "content";
                  match c with
                  | Some (JStr s) =>
                      if truthy (JStr s)
                      then Ok (hardhatSourceFiles ++ [{| path := path; content := s |}])
                      else Ok hardhatSourceFiles
                  | Some v => if truthy v then Throw IllTyped else Ok hardhatSourceFiles
                  | None => Ok hardhatSourceFiles
                  end)
               [] sourceEntries;
      output ← member (Some hardhatJson) "output";
      contractsObject ← member output "contracts";
      contractEntries ← for_in contractsObject;
      hardhatMetadataFiles ←
        foldlM (fun hardhatMetadataFiles '(_, contracts) =>
                  named ← for_in (Some contracts);
                  foldlM (fun hardhatMetadataFiles '(_, contract) =>
                            m ← member (Some contract) "metadata";
                            match m with
                            | Some v =>
                                if truthy v
                                then
                                  let metadataObj := extractMetadataFromString (to_string v) in
                                  Ok (hardhatMetadataFiles ++ [metadataObj])
                                else Ok hardhatMetadataFiles
                            | None => Ok hardhatMetadataFiles
                            end)
                         hardhatMetadataFiles named)
               [] contractEntries;
      Ok (hardhatMetadataFiles, hardhatSourceFiles)
  end.

(** The body of the loop of [splitFiles]. *)
Definition splitStep (acc : SplitAcc) (file : PathContent) : result SplitAcc :=
  if includes HARDHAT_OUTPUT_FORMAT (content file) then
    '(hardhatMetadataFiles, hardhatSourceFiles) ← extractHardhatMetadataAndSources file;
    Ok {| metadataFiles := metadataFiles acc ++ hardhatMetadataFiles;
          sourceFiles := sourceFiles acc ++ hardhatSourceFiles;
          malformedMetadataFiles := malformedMetadataFiles acc |}
  else
    let metadata :=
      match extractMetadataFromString (content file) with
      | Some metadata => Some metadata
      | None =>
          match match_between NESTED_METADATA_START NESTED_METADATA_STOP (content file) with
          | Some matchRes => extractMetadataFromString matchRes
          | None => None
          end
      end in
    match metadata with
    | Some m =>
        try_catch
          (settings ← member (Some m) "settings";
           compilationTarget ← member settings "compilationTarget";
           _ ← assertObjectSize compilationTarget 1;
           Ok (Ok {| metadataFiles := metadataFiles acc ++ [Some m];
                     sourceFiles := sourceFiles acc;
                     malformedMetadataFiles := malformedMetadataFiles acc |}))
          (Ok {| metadataFiles := metadataFiles acc;
                 sourceFiles := sourceFiles acc;
                 malformedMetadataFiles := malformedMetadataFiles acc ++ [path file] |})
    | None =>
        Ok {| metadataFiles := metadataFiles acc;
              sourceFiles := sourceFiles acc ++ [file];
              malformedMetadataFiles := malformedMetadataFiles acc |}
    end.

Definition splitFiles (files : list PathContent)
  : result (list (option json) * list PathContent) :=
  acc ← foldlM splitStep emptyAcc files;
  match malformedMetadataFiles acc with
  | _ :: _ =>
      let responsibleFiles :=
        if forallb (fun p => negb (String.eqb p EmptyString)) (malformedMetadataFiles acc)
        then String.concat ", " (malformedMetadataFiles acc)
        else pretty (length (malformedMetadataFiles acc)) +:+ " metadata files" in
      Throw (MalformedMetadata responsibleFiles)
  | [] =>
      match metadataFiles acc with
      | [] => Throw MetadataNotFound
      | _ :: _ => Ok (metadataFiles acc, sourceFiles acc)
      end
  end.

(** The body of the loop of [rearrangeSources] for one entry of
    [metadata.sources].  [file_content] is [file.content]. *)
Definition rearrangeStep (byHash : gmap string PathContent)
    (acc : Rearranged) (entry : string * json) : result Rearranged :=
  let '(sourcePath, sourceInfoFromMetadata) := entry in
  info ← sourceInfo sourceInfoFromMetadata;
  let file_content := info_content info in
  let expectedHash := info_keccak256 info in
  match file_content with
  | Some (String c r) =>
      (* source content already in metadata *)
      let contentHash := keccak256 (String c r) in
      if negb (bool_decide (Some contentHash = expectedHash)) then
        Ok {| foundSources := foundSources acc;
              missingSources := missingSources acc;
              invalidSources :=
                assign sourcePath {| expectedHash := expectedHash;
                                     calculatedHash := contentHash;
                                     msg := HASH_MISMATCH_MSG |} (invalidSources acc);
              metadata2provided := metadata2provided acc |}
      else
        Ok {| foundSources := assign sourcePath (String c r) (foundSources acc);
              missingSources := missingSources acc;
              invalidSources := invalidSources acc;
              metadata2provided := metadata2provided acc |}
  | _ =>
      (* get source from input files by hash *)
      let '(file_content, acc) :=
        match expectedHash ≫= (fun h => byHash !! h) with
        | Some pathContent =>
            (Some (content pathContent),
             {| foundSources := foundSources acc;
                missingSources := missingSources acc;
                invalidSources := invalidSources acc;
                metadata2provided :=
                  assign sourcePath (path pathContent) (metadata2provided acc) |})
        | None => (file_content, acc)
        end in
      match file_content with
      | Some (String c r) =>
          Ok {| foundSources := assign sourcePath (String c r) (foundSources acc);
                missingSources := missingSources acc;
                invalidSources := invalidSources acc;
                metadata2provided := metadata2provided acc |}
      | _ =>
          Ok {| foundSources := foundSources acc;
                missingSources :=
                  assign sourcePath {| missing_keccak256 := expectedHash;
                                       missing_urls := info_urls info |}
                         (missingSources acc);
                invalidSources := invalidSources acc;
                metadata2provided := metadata2provided acc |}
      end
  end.

(** Where the loop puts an entry: the partition and the value stored. *)
Definition place (byHash : gmap string PathContent) (info : SourceInfo) : Placement :=
  match info_content info with
  | Some (String c r) =>
      if bool_decide (Some (keccak256 (String c r)) = info_keccak256 info)
      then Found (String c r)
      else Invalid {| expectedHash := info_keccak256 info;
                      calculatedHash := keccak256 (String c r);
                      msg := HASH_MISMATCH_MSG |}
  | _ =>
      let absent := Missing {| missing_keccak256 := info_keccak256 info;
                               missing_urls := info_urls info |} in
      match info_keccak256 info ≫= (fun h => byHash !! h) with
      | Some pathContent =>
          match content pathContent with
          | String c r => Found (String c r)
          | EmptyString => absent
          end
      | None => absent
      end
  end.

Definition rearrangeSources (metadata : option json) (byHash : gmap string PathContent)
  : result Rearranged :=
  sources ← member metadata "sources";
  entries ← for_in sources;
  foldlM (rearrangeStep byHash)
         {| foundSources := ∅; missingSources := ∅; invalidSources := ∅;
            metadata2provided := ∅ |}
         entries.

Definition parseFiles (files : list PathBuffer) : list PathContent :=
  (fun pathBuffer => {| content := Buffer_toString (buffer pathBuffer);
                        path := bpath pathBuffer |}) <$> files.

(** [c] is the checked contract built from the manifest [metadata]
    against the hash index [byHash]. *)
Definition Checked (byHash : gmap string PathContent) (metadata : option json)
    (c : CheckedContract) : Prop :=
  exists r, rearrangeSources metadata byHash = Ok r
    /\ c = {| metadata := metadata;
              solidity := foundSources r;
              missing := missingSources r;
              invalid := invalidSources r |}.

(** [checkFiles(files, unused)]: the outcome (the checked contracts and
    the [unused] array after the call, when one was passed), and the
    caller's [files] array after the call. *)
Definition checkFiles (files : list PathBuffer) (unused : option (list string))
  : result (list CheckedContract * option (list string)) * list PathBuffer :=
  let '(unzipped, files) := unzipFiles files in
  (_ ← unzipped;
   let parsedFiles := parseFiles files in
   '(metadataFiles, sourceFiles) ← splitFiles parsedFiles;
   let byHash := storeByHash sourceFiles in
   '(checkedContracts, usedFiles) ←
     foldlM (fun '(checkedContracts, usedFiles) metadata =>
               r ← rearrangeSources metadata byHash;
               let currentUsedFiles := (map_to_list (metadata2provided r)).*2 in
               let checkedContract :=
                 {| metadata := metadata;
                    solidity := foundSources r;
                    missing := missingSources r;
                    invalid := invalidSources r |} in
               Ok (checkedContracts ++ [checkedContract],
                   usedFiles ++ currentUsedFiles))
            ([], []) metadataFiles;
   Ok (checkedContracts, extractUnused sourceFiles usedFiles <$> unused),
   files).

(** [useAllSources(contract, files)]: the outcome and the caller's
    [files] array after the call. *)
Definition useAllSources (contract : CheckedContract) (files : list PathBuffer)
  : result CheckedContract * list PathBuffer :=
  let '(unzipped, files) := unzipFiles files in
  (_ ← unzipped;
   let parsedFiles := parseFiles files in
   '(_, sourceFiles) ← splitFiles parsedFiles;
   let stringMapSourceFiles := pathContentArrayToStringMap sourceFiles in
   let stringMapSourceFiles := Object_assign stringMapSourceFiles (solidity contract) in
   Ok {| metadata := metadata contract;
         solidity := stringMapSourceFiles;
         missing := missing contract;
         invalid := invalid contract |},
   files).

End WithRuntime.

(** *** Data for the examples *)

(** The text of a value, as [JSON.stringify] writes it (for strings
    without characters to escape). *)
Fixpoint stringify (v : json) : string :=
  match v with
  | JNull => "null"
  | JBool true => "true"
  | JBool false => "false"
  | JNum n => pretty n
  | JStr s => String QUOTE (s +:+ String QUOTE EmptyString)
  | JArr l => "[" +:+ String.concat "," (map stringify l) +:+ "]"
  | JObj m =>
      "{" +:+ String.concat ","
                (map_fold (fun k x acc =>
                             (String QUOTE (k +:+ String QUOTE EmptyString)
                              +:+ ":" +:+ stringify x) :: acc)
                          [] m)
      +:+ "}"
  end.

(** A runtime for the examples.  [JSON.parse] reads the texts of the
    values of [known] and throws on any other text; the digest of a text
    is the text after "0x"; the archives are those of [archives], with
    their members; a buffer holds the bytes of its text. *)
Definition example_runtime (known : list json)
    (archives : list (PathBuffer * list PathBuffer)) : Runtime :=
  {| JSON_parse := fun text =>
       snd <$> list_find (fun v => String.eqb (stringify v) text = true) known;
     keccak256 := fun text => "0x" +:+ text;
     JSZip_members := fun bytes =>
       (fun p => snd (snd p))
         <$> list_find (fun p => String.eqb (string_of_list_byte (buffer (fst p)))
                                            (string_of_list_byte bytes) = true) archives;
     Buffer_toString := string_of_list_byte |}.

Definition blob (path text : string) : PathBuffer :=
  {| bpath := path; buffer := list_byte_of_string text |}.

Definition manifest_with (compilationTarget sources : gmap string json) : json :=
  JObj {[ "language" := JStr "Solidity";
          "settings" := JObj {[ "compilationTarget" := JObj compilationTarget ]};
          "version" := JNum 1;
          "output" := JObj {[ "abi" := JArr []; "userdoc" := JObj ∅; "devdoc" := JObj ∅ ]};
          "sources" := JObj sources ]}.

(** A manifest with a source to find by its digest (A), an inline source
    (B), a source nobody supplies (C), an inline source with another
    digest (D) and a source with an empty inline content (E). *)
Definition example_sources : gmap string json :=
  {[ "A.sol" := JObj {[ "keccak256" := JStr "0xcontract A {}"; "urls" := JArr [] ]};
     "B.sol" := JObj {[ "content" := JStr "contract B {}";
                        "keccak256" := JStr "0xcontract B {}" ]};
     "C.sol" := JObj {[ "keccak256" := JStr "0xcontract C {}";
                        "urls" := JArr [JStr "bzz-raw://c"] ]};
     "D.sol" := JObj {[ "content" := JStr "contract D {}";
                        "keccak256" := JStr "0xcontract d {}" ]};
     "E.sol" := JObj {[ "content" := JStr EmptyString;
                        "keccak256" := JStr "0xcontract E {}";
                        "urls" := JArr [JStr "bzz-raw://e"] ]} ]}.

Definition example_manifest : json :=
  manifest_with {[ "A.sol" := JStr "A" ]} example_sources.

(** A manifest with two compilation targets. *)
Definition two_target_manifest : json :=
  manifest_with {[ "A.sol" := JStr "A"; "B.sol" := JStr "B" ]} example_sources.

(** A manifest with an empty [abi] and no sources at all. *)
Definition bare_manifest : json :=
  manifest_with {[ "A.sol" := JStr "A" ]} ∅.

(** The source of A as a checkout with CR LF line ends has it. *)
Definition example_A : PathBuffer :=
  blob "src/A.sol" ("contract A {}" +:+ String CR (String LF EmptyString)).

(** A ZIP archive whose one member, stored without compression, is the
    source of A under the path src/A.sol. *)
Definition example_zip_bytes : list Byte.byte :=
   [Byte.x50; Byte.x4b; Byte.x03; Byte.x04; Byte.x14; Byte.x00; Byte.x00;
    Byte.x00; Byte.x00; Byte.x00; Byte.x00; Byte.x00; Byte.x21; Byte.x50;
    Byte.x2c; Byte.x59; Byte.x0b; Byte.x27; Byte.x0f; Byte.x00; Byte.x00;
    Byte.x00; Byte.x0f; Byte.x00; Byte.x00; Byte.x00; Byte.x09; Byte.x00;
    Byte.x00; Byte.x00; Byte.x73; Byte.x72; Byte.x63; Byte.x2f; Byte.x41;
    Byte.x2e; Byte.x73; Byte.x6f; Byte.x6c; Byte.x63; Byte.x6f; Byte.x6e;
    Byte.x74; Byte.x72; Byte.x61; Byte.x63; Byte.x74; Byte.x20; Byte.x41;
    Byte.x20; Byte.x7b; Byte.x7d; Byte.x0d; Byte.x0a; Byte.x50; Byte.x4b;
    Byte.x01; Byte.x02; Byte.x14; Byte.x03; Byte.x14; Byte.x00; Byte.x00;
    Byte.x00; Byte.x00; Byte.x00; Byte.x00; Byte.x00; Byte.x21; Byte.x50;
    Byte.x2c; Byte.x59; Byte.x0b; Byte.x27; Byte.x0f; Byte.x00; Byte.x00;
    Byte.x00; Byte.x0f; Byte.x00; Byte.x00; Byte.x00; Byte.x09; Byte.x00;
    Byte.x00; Byte.x00; Byte.x00; Byte.x00; Byte.x00; Byte.x00; Byte.x00;
    Byte.x00; Byte.x00; Byte.x00; Byte.x80; Byte.x01; Byte.x00; Byte.x00;
    Byte.x00; Byte.x00; Byte.x73; Byte.x72; Byte.x63; Byte.x2f; Byte.x41;
    Byte.x2e; Byte.x73; Byte.x6f; Byte.x6c; Byte.x50; Byte.x4b; Byte.x05;
    Byte.x06; Byte.x00; Byte.x00; Byte.x00; Byte.x00; Byte.x01; Byte.x00;
    Byte.x01; Byte.x00; Byte.x37; Byte.x00; Byte.x00; Byte.x00; Byte.x36;
    Byte.x00; Byte.x00; Byte.x00; Byte.x00; Byte.x00].

Definition example_zip : PathBuffer :=
  {| bpath := "sources.zip"; buffer := example_zip_bytes |}.

Definition example_rt : Runtime :=
  example_runtime [example_manifest; two_target_manifest; bare_manifest]
                  [(example_zip, [example_A])].

Definition example_files : list PathBuffer :=
  [blob "metadata.json" (stringify example_manifest); example_A].

Definition example_files_zip : list PathBuffer :=
  [blob "metadata.json" (stringify example_manifest); example_zip].

Definition example_files_two : list PathBuffer :=
  [blob "metadata.json" (stringify example_manifest);
   blob "two.json" (stringify two_target_manifest)].

(** A manifest that declares, besides the source A, a source under the
    name [__proto__] with an empty inline content and a digest that no
    file has. *)
Definition proto_sources : gmap string json :=
  {[ "A.sol" := JObj {[ "keccak256" := JStr "0xcontract A {}"; "urls" := JArr [] ]};
     "__proto__" := JObj {[ "content" := JStr EmptyString;
                            "keccak256" := JStr "0xcontract P {}";
                            "urls" := JArr [JStr "bzz-raw://p"] ]} ]}.

Definition proto_manifest : json :=
  manifest_with {[ "A.sol" := JStr "A" ]} proto_sources.

Definition proto_rt : Runtime := example_runtime [proto_manifest] [].

(** The manifest, the source of A, and a source supplied under the name
    [__proto__]. *)
Definition proto_files : list PathBuffer :=
  [blob "metadata.json" (stringify proto_manifest); example_A;
   blob "__proto__" "contract Q {}"].

Definition example_index : gmap string PathContent :=
  storeByHash (rt := example_rt) (parseFiles (rt := example_rt) [example_A]).

(** What [rearrangeSources] makes of the example manifest. *)
Definition example_rearranged : Rearranged :=
  Eval vm_compute in
    match rearrangeSources (rt := example_rt) (Some example_manifest) example_index with
    | Ok r => r
    | Throw _ =>
        {| foundSources := ∅; missingSources := ∅; invalidSources := ∅;
           metadata2provided := ∅ |}
    end.

(** The checked contract of the example manifest. *)
Definition example_contract : CheckedContract :=
  {| metadata := Some example_manifest;
     solidity := foundSources example_rearranged;
     missing := missingSources example_rearranged;
     invalid := invalidSources example_rearranged |}.

(** The entry of E in the example manifest, and what [sourceInfo] reads
    in it. *)
Definition example_E : json :=
  JObj {[ "content" := JStr EmptyString;
          "keccak256" := JStr "0xcontract E {}";
          "urls" := JArr [JStr "bzz-raw://e"] ]}.

Definition example_E_info : SourceInfo :=
  {| info_content := Some EmptyString;
     info_keccak256 := Some "0xcontract E {}";
     info_urls := Some (JArr [JStr "bzz-raw://e"]) |}.

(** *** Vocabulary of the further properties *)

(** The variators in the words of the specification.  [parts] are the
    pieces of [text] between the occurrences of [sep]: joined by [sep]
    they give [text], and [sep] occurs in none of them. *)
Definition SplitAt (sep text : string) (parts : list string) : Prop :=
  text = String.concat sep parts
  /\ Forall (fun part => forall pre post, part <> pre +:+ sep +:+ post) parts.

(** [line'] is [line] without the carriage return it ends with, if it
    ends with one. *)
Definition Chomped (line line' : string) : Prop :=
  line = line' +:+ String CR EmptyString
  \/ (line = line' /\ forall pre, line <> pre +:+ String CR EmptyString).

(** The white space and the line terminators of ECMAScript, which a
    right-trim removes: U+0009 to U+000D, U+0020, U+00A0, U+1680, U+2000
    to U+200A, U+2028, U+2029, U+202F, U+205F, U+3000 and U+FEFF, each in
    UTF-8. *)
Definition whiteSpace : list string :=
  str <$> [ ["009"]; ["010"]; ["011"]; ["012"]; ["013"]; ["032"]; ["194"; "160"];
            ["225"; "154"; "128"];
            ["226"; "128"; "128"]; ["226"; "128"; "129"]; ["226"; "128"; "130"];
            ["226"; "128"; "131"]; ["226"; "128"; "132"]; ["226"; "128"; "133"];
            ["226"; "128"; "134"]; ["226"; "128"; "135"]; ["226"; "128"; "136"];
            ["226"; "128"; "137"]; ["226"; "128"; "138"];
            ["226"; "128"; "168"]; ["226"; "128"; "169"]; ["226"; "128"; "175"];
            ["226"; "129"; "159"]; ["227"; "128"; "128"]; ["239"; "187"; "191"] ]%char.

(** A text without carriage return. *)
Definition noCR (text : string) : Prop := CR ∉ list_ascii_of_string text.

(** An inline content the loop of [rearrangeSources] takes as absent. *)
Definition falsyContent (info : SourceInfo) : Prop :=
  info_content info = None \/ info_content info = Some EmptyString.

(** A run of one-byte white space: spaces, tabs and line ends. *)
Definition asciiSpace (w : string) : Prop :=
  Forall (fun c => space1 c = true) (list_ascii_of_string w).

(** The path of the supplied file the loop of [rearrangeSources]
    records for an entry in [metadata2provided], if it records one. *)
Definition provided (byHash : gmap string PathContent)
    (info : SourceInfo) : option string :=
  match info_content info with
  | Some (String _ _) => None
  | _ => path <$> (info_keccak256 info ≫= (fun h => byHash !! h))
  end.

(** An entry with an inline content that is not empty. *)
Definition inlineEntry (v : json) : Prop :=
  exists info c s, sourceInfo v = Ok info /\ info_content info = Some (String c s).

(** The inline content of an entry has the digest the entry declares. *)
Definition digestMatches {rt : Runtime} (v : json) : Prop :=
  exists info text, sourceInfo v = Ok info /\ info_content info = Some text
                    /\ info_keccak256 info = Some (keccak256 text).


(** *** The paths of a file system *)

(** What [fs.lstatSync(path)] tells: [isFile()], [isDirectory()], or
    neither (a link, a socket, ...). *)
Inductive Stat : Type := IsFile | IsDirectory | IsOther.

(** The calls of [fs] and [Path], on a file system that does not change
    during the call and lets itself be read. *)
Class FileSystem : Type :=
  { existsSync : string -> bool;
    (* on a path that exists *)
    lstatSync : string -> Stat;
    (* on a directory: the names in it *)
    readdirSync : string -> list string;
    (* on a file *)
    readFileSync : string -> list Byte.byte;
    Path_join : string -> string -> string;
    Path_resolve : string -> string }.

(** The calls [traversePathRecursively] makes of its two callbacks. *)
Inductive Visit : Type :=
  | Worker (filePath : string)
  | AfterDirectory (filePath : string).

(** The outcome of a traversal: the path that does not exist, of the
    error thrown, or what was gathered. *)
Definition traversal (A : Type) : Type := (string + A)%type.

(** [names.forEach(name => visit(name))], which stops at the first
    exception; [None] is a traversal that is not done within the depth
    allowed. *)
Fixpoint forEach_visit (visit : string -> option (traversal (list Visit)))
    (names : list string) : option (traversal (list Visit)) :=
  match names with
  | [] => Some (inr [])
  | name :: rest =>
      match visit name with
      | Some (inr visits) =>
          match forEach_visit visit rest with
          | Some (inr visits') => Some (inr (visits ++ visits'))
          | other => other
          end
      | other => other
      end
  end.

(** The paths the worker is called with, in order. *)
Definition workerPaths (visits : list Visit) : list string :=
  omap (fun visit => match visit with
                     | Worker filePath => Some filePath
                     | AfterDirectory _ => None
                     end) visits.

Section WithFileSystem.
Context {rt : Runtime} {fs : FileSystem}.

(** [traversePathRecursively(path, worker, afterDirectory)]: the calls
    of the callbacks, in order; [afterDirectory] tells whether the third
    argument is given.  [depth] bounds the depth of the recursion. *)
Fixpoint traversePathRecursively (depth : nat) (afterDirectory : bool) (path : string)
  : option (traversal (list Visit)) :=
  match depth with
  | O => None
  | S depth =>
      if negb (existsSync path) then Some (inl path)
      else
        match lstatSync path with
        | IsFile => Some (inr [Worker path])
        | IsDirectory =>
            match forEach_visit
                    (fun nestedName =>
                       let nestedPath := Path_join path nestedName in
                       traversePathRecursively depth afterDirectory nestedPath)
                    (readdirSync path) with
            | Some (inr visits) =>
                Some (inr (visits ++ if afterDirectory then [AfterDirectory path] else []))
            | other => other
            end
        | IsOther => Some (inr [])
        end
  end.

(** The loop of [checkPaths]: the files read, or the path of the error
    thrown, and the [ignoring] array. *)
Fixpoint checkPaths_loop (depth : nat) (paths : list string) (files : list PathBuffer)
    (ignoring : option (list string))
  : option (traversal (list PathBuffer) * option (list string)) :=
  match paths with
  | [] => Some (inr files, ignoring)
  | path :: rest =>
      if existsSync path then
        match traversePathRecursively depth false path with
        | Some (inr visits) =>
            let read :=
              (fun filePath =>
                 let fullPath := Path_resolve filePath in
                 {| buffer := readFileSync filePath; bpath := fullPath |})
                <$> workerPaths visits in
            checkPaths_loop depth rest (files ++ read) ignoring
        | Some (inl nonexistent) => Some (inl nonexistent, ignoring)
        | None => None
        end
      else
        checkPaths_loop depth rest files ((fun ignoring => ignoring ++ [path]) <$> ignoring)
  end.

(** [checkPaths(paths, ignoring)]: the path of the error thrown during
    the traversal, or the outcome of [checkFiles] on the files read; and
    the [ignoring] array after the call. *)
Definition checkPaths (depth : nat) (paths : list string) (ignoring : option (list string))
  : option (traversal (result (list CheckedContract)) * option (list string)) :=
  match checkPaths_loop depth paths [] ignoring with
  | Some (inr files, ignoring) =>
      Some (inr (match (checkFiles files None).1 with
                 | Ok (checkedContracts, _) => Ok checkedContracts
                 | Throw e => Throw e
                 end), ignoring)
  | Some (inl nonexistent, ignoring) => Some (inl nonexistent, ignoring)
  | None => None
  end.

(** The paths a traversal from [root] comes to: [root], and every name
    of a directory it comes to. *)
Inductive Reaches (root : string) : string -> Prop :=
  | Reaches_root : Reaches root root
  | Reaches_nested (path nestedName : string) :
      Reaches root path ->
      existsSync path = true ->
      lstatSync path = IsDirectory ->
      nestedName ∈ readdirSync path ->
      Reaches root (Path_join path nestedName).

(** The directories under [path] are nested at most [depth] deep. *)
Inductive Nested : nat -> string -> Prop :=
  | Nested_leaf (depth : nat) (path : string) :
      (existsSync path = false \/ lstatSync path <> IsDirectory) ->
      Nested depth path
  | Nested_directory (depth : nat) (path : string) :
      (forall nestedName, nestedName ∈ readdirSync path ->
                          Nested depth (Path_join path nestedName)) ->
      Nested (S depth) path.

(** What a traversal from [root] does: it throws at a path it comes to
    that does not exist; or every path it comes to exists, the worker is
    called with the files among them, and [afterDirectory], when given,
    with the directories. *)
Definition traversed (afterDirectory : bool) (root : string)
    (outcome : traversal (list Visit)) : Prop :=
  match outcome with
  | inl nonexistent => Reaches root nonexistent /\ existsSync nonexistent = false
  | inr visits =>
      (forall p, Reaches root p -> existsSync p = true)
      /\ (forall p, Worker p ∈ visits <-> Reaches root p /\ lstatSync p = IsFile)
      /\ (forall p, AfterDirectory p ∈ visits
                    <-> afterDirectory = true /\ Reaches root p
                        /\ lstatSync p = IsDirectory)
  end.

(** The files under [path], in the order of a depth-first walk that
    follows [readdirSync]: a file is walked as itself, a directory as its
    names one after the other, anything else yields nothing. *)
Inductive Walk : string -> list string -> Prop :=
  | Walk_file (path : string) :
      existsSync path = true -> lstatSync path = IsFile -> Walk path [path]
  | Walk_other (path : string) :
      existsSync path = true -> lstatSync path = IsOther -> Walk path []
  | Walk_directory (path : string) (found : list string) :
      existsSync path = true -> lstatSync path = IsDirectory ->
      WalkEach path (readdirSync path) found -> Walk path found
with WalkEach : string -> list string -> list string -> Prop :=
  | WalkEach_nil (path : string) : WalkEach path [] []
  | WalkEach_cons (path nestedName : string) (names here rest : list string) :
      Walk (Path_join path nestedName) here ->
      WalkEach path names rest ->
      WalkEach path (nestedName :: names) (here ++ rest).

Scheme Walk_mut := Minimality for Walk Sort Prop
  with WalkEach_mut := Minimality for WalkEach Sort Prop.

(** The file [checkPaths] makes of a path the worker is called with. *)
Definition readFile (filePath : string) : PathBuffer :=
  {| buffer := readFileSync filePath; bpath := Path_resolve filePath |}.

End WithFileSystem.

(** *** Data for the further examples *)

(** A manifest whose one source is inline. *)
Definition inline_manifest : json :=
  manifest_with {[ "B.sol" := JStr "B" ]}
    {[ "B.sol" := JObj {[ "content" := JStr "contract B {}";
                          "keccak256" := JStr "0xcontract B {}" ]} ]}.

(** The first four bytes of an archive and nothing more. *)
Definition broken_zip : PathBuffer :=
  {| bpath := "broken.zip"; buffer := [Byte.x50; Byte.x4b; Byte.x03; Byte.x04] |}.

(** A source that holds the marker of the Hardhat build outputs. *)
Definition marked_source : PathBuffer :=
  blob "Build.sol" ("string constant FORMAT = " +:+ HARDHAT_OUTPUT_FORMAT +:+ ";").

(** A string as [JSON.stringify] writes it between the quotes: a
    backslash before each quote and each backslash. *)
Definition escape (s : string) : string :=
  str (c ← list_ascii_of_string s;
       if Ascii.eqb c QUOTE || Ascii.eqb c BACKSLASH then [BACKSLASH; c] else [c]).

(** The text of a value, as [JSON.stringify] writes it (for strings
    without control characters). *)
Fixpoint stringify_escaped (v : json) : string :=
  match v with
  | JNull => "null"
  | JBool true => "true"
  | JBool false => "false"
  | JNum n => pretty n
  | JStr s => String QUOTE (escape s +:+ String QUOTE EmptyString)
  | JArr l => "[" +:+ String.concat "," (map stringify_escaped l) +:+ "]"
  | JObj m =>
      "{" +:+ String.concat ","
                (map_fold (fun k x acc =>
                             (String QUOTE (escape k +:+ String QUOTE EmptyString)
                              +:+ ":" +:+ stringify_escaped x) :: acc)
                          [] m)
      +:+ "}"
  end.

(** A manifest whose one source is to be found by its digest. *)
Definition hardhat_manifest : json :=
  manifest_with {[ "A.sol" := JStr "A" ]}
    {[ "A.sol" := JObj {[ "keccak256" := JStr "0xcontract A {}" ]} ]}.

(** A Hardhat build output with the source of A, an interface without
    content, and the contracts given. *)
Definition hardhat_output (contracts : gmap string json) : json :=
  JObj {[ "_format" := JStr "hh-sol-build-info-1";
          "input" :=
            JObj {[ "sources" :=
                      JObj {[ "A.sol" := JObj {[ "content" := JStr "contract A {}" ]};
                              "I.sol" := JObj {[ "content" := JStr EmptyString ]} ]} ]};
          "output" := JObj {[ "contracts" := JObj contracts ]} ]}.

(** The build output of A, with its manifest as a text. *)
Definition hardhat_build : json :=
  hardhat_output
    {[ "A.sol" :=
         JObj {[ "A" := JObj {[ "metadata" := JStr (stringify_escaped hardhat_manifest) ]} ]} ]}.

(** A build output whose contract has a text that is no manifest as its
    metadata. *)
Definition hardhat_build_null : json :=
  hardhat_output
    {[ "A.sol" := JObj {[ "A" := JObj {[ "metadata" := JStr "{}" ]} ]} ]}.

(** A runtime for these examples: [JSON.parse] reads the texts of the
    two build outputs, of the manifest, of the manifest encoded twice and
    of the empty object, and throws on any other text; the rest is as in
    [example_runtime]. *)
Definition hardhat_rt : Runtime :=
  {| JSON_parse := fun text =>
       snd <$> list_find (fun v => String.eqb (stringify_escaped v) text = true)
                         [hardhat_build; hardhat_build_null; hardhat_manifest;
                          JStr (stringify_escaped hardhat_manifest); JObj ∅];
     keccak256 := fun text => "0x" +:+ text;
     JSZip_members := fun _ => None;
     Buffer_toString := string_of_list_byte |}.

Definition hardhat_files : list PathBuffer :=
  [blob "build-info.json" (stringify_escaped hardhat_build)].

Definition hardhat_files_null : list PathBuffer :=
  [blob "build-info.json" (stringify_escaped hardhat_build_null)].

(** A file system for the examples: a directory [contracts] with the
    source of A and a link that leads nowhere, a manifest beside it, and
    a path that does not exist. *)
Definition example_fs : FileSystem :=
  {| existsSync := fun path =>
       bool_decide (path ∈ ["contracts"; "contracts/A.sol"; "metadata.json"]);
     lstatSync := fun path =>
       if String.eqb path "contracts" then IsDirectory
       else if String.eqb path "contracts/dangling" then IsOther
       else IsFile;
     readdirSync := fun path =>
       if String.eqb path "contracts" then ["A.sol"; "dangling"] else [];
     readFileSync := fun path =>
       if String.eqb path "metadata.json"
       then list_byte_of_string (stringify example_manifest)
       else buffer example_A;
     Path_join := fun path name => path +:+ "/" +:+ name;
     Path_resolve := fun path => "/home/user/" +:+ path |}.

End Validation.

(** ** The chain monitor *)

Module Monitor.

(** Numbers are IEEE 754 doubles ([spec_float] with a mantissa of 53
    bits): products and quotients are rounded to the nearest double,
    [Math.min] and [Math.max] give NaN when an argument is NaN, and NaN
    and the two zeros are falsy.  Block numbers and numbers of tries are
    integers, below the range where [++] and [--] stop being exact. *)
Definition number : Type := spec_float.
Definition prec : Z := 53.
Definition emax : Z := 1024.

(** The double nearest to an integer; an integer literal of the code. *)
Definition of_Z (z : Z) : number := binary_normalize prec emax z 0 false.
Definition mul : number -> number -> number := SFmul prec emax.
Definition div : number -> number -> number := SFdiv prec emax.
(** [x < y] and [x <= y], false when an argument is NaN *)
Definition ltb : number -> number -> bool := SFltb.
Definition leb : number -> number -> bool := SFleb.

Definition isNaN (x : number) : bool :=
  match x with
  | S754_nan => true
  | _ => false
  end.

Definition truthy (x : number) : bool :=
  match x with
  | S754_nan | S754_zero _ => false
  | _ => true
  end.

(** [Math.min(x, y)]: of the two zeros the negative one is the smaller. *)
Definition Math_min (x y : number) : number :=
  match SFcompare x y with
  | None => S754_nan
  | Some Lt => x
  | Some Gt => y
  | Some Eq =>
      match x with
      | S754_zero true => x
      | _ => y
      end
  end.

(** [Math.max(x, y)] *)
Definition Math_max (x y : number) : number :=
  match SFcompare x y with
  | None => S754_nan
  | Some Gt => x
  | Some Lt => y
  | Some Eq =>
      match x with
      | S754_zero false => x
      | _ => y
      end
  end.

(** The literals [1.1] and [0.5]: the doubles nearest to them. *)
Definition literal_1_1 : number := S754_finite false 4953959590107546 (-52).
Definition literal_0_5 : number := S754_finite false 4503599627370496 (-53).

(** A double that is neither NaN, nor infinite, nor a zero. *)
Definition finite (x : number) : Prop :=
  match x with
  | S754_finite _ _ _ => True
  | _ => False
  end.

(** A double that is finite and greater than zero. *)
Definition positiveFinite (x : number) : Prop :=
  match x with
  | S754_finite false _ _ => True
  | _ => False
  end.

(** [process.env], each variable already through [parseInt]: a double,
    NaN when the variable is unset or does not start with a number.  The
    number of tries is an integer, [None] for NaN. *)
Record ProcessEnv : Type :=
  { env_BLOCK_PAUSE_FACTOR : number;
    env_BLOCK_PAUSE_UPPER_LIMIT : number;
    env_BLOCK_PAUSE_LOWER_LIMIT : number;
    env_GET_BLOCK_PAUSE : number;
    env_INITIAL_GET_BYTECODE_TRIES : option Z }.

(** [parseInt(..) || default]: NaN and 0 are falsy. *)
Definition or_default (parsed default : number) : number :=
  if truthy parsed then parsed else default.

(** The constants of the module. *)
Record Constants : Type :=
  { BLOCK_PAUSE_FACTOR : number;
    BLOCK_PAUSE_UPPER_LIMIT : number;
    BLOCK_PAUSE_LOWER_LIMIT : number }.

(** Loading the module: the constants, or [None] when
    [assert(BLOCK_PAUSE_FACTOR > 1)] throws. *)
Definition load (env : ProcessEnv) : option Constants :=
  let factor := or_default (env_BLOCK_PAUSE_FACTOR env) literal_1_1 in
  if ltb (of_Z 1) factor then
    Some {| BLOCK_PAUSE_FACTOR := factor;
            BLOCK_PAUSE_UPPER_LIMIT :=
              or_default (env_BLOCK_PAUSE_UPPER_LIMIT env) (mul (of_Z 30) (of_Z 1000));
            BLOCK_PAUSE_LOWER_LIMIT :=
              or_default (env_BLOCK_PAUSE_LOWER_LIMIT env)
                         (mul literal_0_5 (of_Z 1000)) |}
  else None.

Record Transaction : Type :=
  { to : option string; input : string; from : string; nonce : Z }.

Record Block : Type :=
  { transactions : list Transaction }.

(** How the promise of [web3provider.eth.getBlock] settles. *)
Inductive Fetched : Type :=
  | Rejected
  | Resolved (block : option Block).

(** The collaborators the handling of a block calls; each of them may
    throw. *)
Class Services : Type :=
  { (* ethers.utils.getContractAddress; None when it throws *)
    getContractAddress : Transaction -> option string;
    (* verificationService.findByAddress(address, chainId).length; None
       when reading it throws *)
    findByAddress_length : string -> string -> option nat;
    (* whether the call web3provider.eth.getCode(address) throws instead
       of returning a promise *)
    getCode_throws : string -> bool }.

Record ChainMonitor : Type :=
  { chainId : string;
    running : bool;
    getBlockPause : number;
    initialGetBytecodeTries : Z }.

(** The constructor's pauses and tries. *)
Definition new_ChainMonitor (env : ProcessEnv) (chainId : string) : ChainMonitor :=
  {| chainId := chainId;
     running := false;
     getBlockPause := or_default (env_GET_BLOCK_PAUSE env) (mul (of_Z 10) (of_Z 1000));
     initialGetBytecodeTries :=
       match env_INITIAL_GET_BYTECODE_TRIES env with
       | Some z => if (z =? 0)%Z then 3%Z else z
       | None => 3%Z
       end |}.

Inductive Operation : Type := increase | decrease.

Definition createsContract (tx : Transaction) : bool :=
  match to tx with
  | Some a => String.eqb a EmptyString
  | None => true
  end.

(** A call [processBytecode(creationData, address, retriesLeft)]. *)
Record Launch : Type :=
  { creationData : string; address : string; retriesLeft : Z }.

Section WithConstants.
Context (k : Constants) {sv : Services}.

Definition adaptBlockPause (operation : Operation) (m : ChainMonitor) : ChainMonitor :=
  let factor :=
    match operation with
    | increase => BLOCK_PAUSE_FACTOR k
    | decrease => div (of_Z 1) (BLOCK_PAUSE_FACTOR k)
    end in
  let getBlockPause := mul (getBlockPause m) factor in
  let getBlockPause := Math_min getBlockPause (BLOCK_PAUSE_UPPER_LIMIT k) in
  let getBlockPause := Math_max getBlockPause (BLOCK_PAUSE_LOWER_LIMIT k) in
  {| chainId := chainId m; running := running m;
     getBlockPause := getBlockPause;
     initialGetBytecodeTries := initialGetBytecodeTries m |}.

(** [isVerified(address)], [None] when [findByAddress] throws. *)
Definition isVerified (m : ChainMonitor) (address : string) : option bool :=
  (fun length => negb (Nat.eqb length 0)) <$> findByAddress_length address (chainId m).

(** Whether a call of [processBytecode] from the loop throws: it does
    when it has a try left and [getCode] throws at the call. *)
Definition processBytecode_throws (l : Launch) : bool :=
  (0 <? retriesLeft l)%Z && getCode_throws (address l).

(** The loop over [block.transactions]: the calls of [processBytecode]
    that it has made and that have returned, and whether the loop came
    to its end; it does not when a call in its body throws. *)
Fixpoint processTransactions (m : ChainMonitor) (txs : list Transaction)
  : list Launch * bool :=
  match txs with
  | [] => ([], true)
  | tx :: rest =>
      if createsContract tx then
        match getContractAddress tx with
        | None => ([], false)
        | Some address =>
            match isVerified m address with
            | None => ([], false)
            | Some true => processTransactions m rest
            | Some false =>
                let l := {| creationData := input tx; address := address;
                            retriesLeft := initialGetBytecodeTries m |} in
                if processBytecode_throws l then ([], false)
                else
                  let '(launched, completed) := processTransactions m rest in
                  (l :: launched, completed)
            end
        end
      else processTransactions m rest
  end.

(** [mySetTimeout(handler, timeout, arg)]: the timer armed, if any. *)
Definition mySetTimeout (m : ChainMonitor) (timeout : number) (arg : Z)
  : option (number * Z) :=
  if running m then Some (timeout, arg) else None.

(** What one call [processBlock(blockNumber)] has done once the
    promise chain has run: [blockNumber] is the local variable, which
    [finally] hands to the next call. *)
Record Processed : Type :=
  { monitor : ChainMonitor;
    launched : list Launch;
    handled : bool;               (* the block was there and was handled *)
    timer : option (number * Z) }.

(** The callback of [then] returns early for a block that is [null];
    what it throws while it goes through the transactions is caught by
    [catch], so that [blockNumber++] is not reached; [finally] arms the
    timer in every case. *)
Definition processBlock (blockNumber : Z) (fetched : Fetched) (m : ChainMonitor)
  : Processed :=
  let '(m, launched, handled, blockNumber) :=
    match fetched with
    | Resolved None =>
        (adaptBlockPause increase m, [], false, blockNumber)
    | Resolved (Some block) =>
        let m := adaptBlockPause decrease m in
        let '(launched, completed) := processTransactions m (transactions block) in
        (m, launched, completed, if completed then (blockNumber + 1)%Z else blockNumber)
    | Rejected =>
        (m, [], false, blockNumber)
    end in
  {| monitor := m; launched := launched; handled := handled;
     timer := mySetTimeout m (getBlockPause m) blockNumber |}.

(** Whether the body of the loop throws at a transaction. *)
Definition throws (m : ChainMonitor) (tx : Transaction) : bool :=
  createsContract tx
  && match getContractAddress tx with
     | None => true
     | Some address =>
         match findByAddress_length address (chainId m) with
         | None => true
         | Some O => (0 <? initialGetBytecodeTries m)%Z && getCode_throws address
         | Some (S _) => false
         end
     end.

(** The call of [processBytecode] the body of the loop makes at a
    transaction, if it makes one. *)
Definition launchOf (m : ChainMonitor) (tx : Transaction) : option Launch :=
  if createsContract tx then
    match getContractAddress tx with
    | Some address =>
        match findByAddress_length address (chainId m) with
        | Some O => Some {| creationData := input tx; address := address;
                            retriesLeft := initialGetBytecodeTries m |}
        | _ => None
        end
    | None => None
    end
  else None.

(** The handling of a block comes to its end. *)
Definition completes (m : ChainMonitor) (block : Block) : bool :=
  forallb (fun tx => negb (throws m tx)) (transactions block).

(** The argument [finally] hands to the next call. *)
Definition next_blockNumber (m : ChainMonitor) (blockNumber : Z) (fetched : Fetched) : Z :=
  match fetched with
  | Resolved (Some block) =>
      if completes m block then (blockNumber + 1)%Z else blockNumber
  | _ => blockNumber
  end.


(** What happens to a monitor: a pending call of [processBlock]
    settles, or [stop] is called. *)
Inductive Event : Type :=
  | Settle (fetched : Fetched)
  | Stop.

(** A monitor with the argument of the call of [processBlock] that is
    pending, if one is, and the numbers of the blocks handled so far. *)
Record Run : Type :=
  { state : ChainMonitor;
    pending : option Z;
    log : list Z }.

Definition stop (m : ChainMonitor) : ChainMonitor :=
  {| chainId := chainId m; running := false;
     getBlockPause := getBlockPause m;
     initialGetBytecodeTries := initialGetBytecodeTries m |}.

Definition step (r : Run) (e : Event) : Run :=
  match e with
  | Stop => {| state := stop (state r); pending := pending r; log := log r |}
  | Settle fetched =>
      match pending r with
      | None => r
      | Some blockNumber =>
          let p := processBlock blockNumber fetched (state r) in
          {| state := monitor p;
             pending := snd <$> timer p;
             log := if handled p then log r ++ [blockNumber] else log r |}
      end
  end.

(** [start] with a working provider: [running] is set and
    [processBlock(startBlock)] is called. *)
Definition start (m : ChainMonitor) (startBlock : Z) : Run :=
  {| state := {| chainId := chainId m; running := true;
                 getBlockPause := getBlockPause m;
                 initialGetBytecodeTries := initialGetBytecodeTries m |};
     pending := Some startBlock;
     log := [] |}.

Definition run (r : Run) (events : list Event) : Run :=
  foldl step r events.

End WithConstants.


(** Services for the examples: the address of a created contract is the
    sender's, and nothing is verified yet; the address of a transaction
    without a sender cannot be computed. *)
Definition example_services : Services :=
  {| getContractAddress := fun tx =>
       if String.eqb (from tx) EmptyString then None else Some (from tx);
     findByAddress_length := fun _ _ => Some 0%nat;
     getCode_throws := fun _ => false |}.

Definition default_env : ProcessEnv :=
  {| env_BLOCK_PAUSE_FACTOR := S754_nan;
     env_BLOCK_PAUSE_UPPER_LIMIT := S754_nan;
     env_BLOCK_PAUSE_LOWER_LIMIT := S754_nan;
     env_GET_BLOCK_PAUSE := S754_nan;
     env_INITIAL_GET_BYTECODE_TRIES := None |}.

(** BLOCK_PAUSE_LOWER_LIMIT=60000 and nothing else set. *)
Definition high_lower_env : ProcessEnv :=
  {| env_BLOCK_PAUSE_FACTOR := S754_nan;
     env_BLOCK_PAUSE_UPPER_LIMIT := S754_nan;
     env_BLOCK_PAUSE_LOWER_LIMIT := of_Z 60000;
     env_GET_BLOCK_PAUSE := S754_nan;
     env_INITIAL_GET_BYTECODE_TRIES := None |}.

(** GET_BLOCK_PAUSE=13310 and nothing else set. *)
Definition pause_13310_env : ProcessEnv :=
  {| env_BLOCK_PAUSE_FACTOR := S754_nan;
     env_BLOCK_PAUSE_UPPER_LIMIT := S754_nan;
     env_BLOCK_PAUSE_LOWER_LIMIT := S754_nan;
     env_GET_BLOCK_PAUSE := of_Z 13310;
     env_INITIAL_GET_BYTECODE_TRIES := None |}.

(** A block of two transactions that create a contract; the address of
    the second one cannot be computed. *)
Definition faulty_block : Block :=
  {| transactions :=
       [{| to := None; input := "0x6001"; from := "0xabc"; nonce := 0 |};
        {| to := None; input := "0x6002"; from := EmptyString; nonce := 1 |}] |}.


(** *** Connecting *)



(** *** Reading the bytecode of a new contract *)

(** How the promise of [web3provider.eth.getCode] settles. *)
Inductive Code : Type :=
  | CodeRejected
  | CodeResolved (bytecode : string).

(** The decoding of a bytecode. *)
Class Decoder : Type :=
  { (* the class SourceAddress *)
    SourceAddress : Type;
    (* Web3.utils.hexToBytes; None when it throws *)
    hexToBytes : string -> option (list Byte.byte);
    (* cborDecode, then SourceAddress.fromCborData; None when one of
       them throws *)
    fromCborData : list Byte.byte -> option SourceAddress }.

(** What the callbacks of [getCode] do. *)
Inductive BytecodeOutcome {dc : Decoder} : Type :=
  | Retry (timer : option (number * Launch))
      (* mySetTimeout(this.processBytecode, this.getBytecodeRetryPause, ...) *)
  | Assembled (metadataAddress : SourceAddress) (bytecode : string)
      (* sourceFetcher.assemble(metadataAddress, ...) for this bytecode *)
  | Unreadable.
      (* the metadata cannot be read: logged, and nothing more *)

Section WithDecoder.
Context {dc : Decoder} (getBytecodeRetryPause : number).

(** [processBytecode(creationData, address, retriesLeft)] up to the call
    of [getCode]: [None] when it returns at once, else the arguments as
    the callbacks see them, [retriesLeft] decremented. *)
Definition processBytecode (l : Launch) : option Launch :=
  if (retriesLeft l <=? 0)%Z then None
  else Some {| creationData := creationData l; address := address l;
               retriesLeft := (retriesLeft l - 1)%Z |}.

(** The callbacks of [getCode]: [then] for a bytecode, where what
    [hexToBytes] throws goes to [catch], and [catch]. *)
Definition processBytecode_settled (m : ChainMonitor) (l : Launch) (code : Code)
  : BytecodeOutcome :=
  let retry :=
    Retry (if running m then Some (getBytecodeRetryPause, l) else None) in
  match code with
  | CodeResolved bytecode =>
      if String.eqb bytecode "0x" then retry
      else
        match hexToBytes bytecode with
        | Some numericBytecode =>
            match fromCborData numericBytecode with
            | Some metadataAddress => Assembled metadataAddress bytecode
            | None => Unreadable
            end
        | None => retry
        end
  | CodeRejected => retry
  end.

(** What happens to a launch: the call of [processBytecode] that is
    due is made, by [processBlock] at first and by a timer afterwards; the
    pending [getCode] settles; or [stop] is called. *)
Inductive BytecodeEvent : Type :=
  | Fire
  | CodeSettle (code : Code)
  | BytecodeStop.

(** A launch under way: the call of [processBytecode] that is due, if
    one is; the call of [getCode] that is pending, if one is; the number
    of calls of [getCode] so far; and what was handed over for
    assembling. *)
Record BytecodeRun : Type :=
  { bstate : ChainMonitor;
    scheduled : option Launch;
    inflight : option Launch;
    getCodeCalls : nat;
    assembled : list (SourceAddress * string) }.

(** [processBlock] calls [processBytecode] for a new contract. *)
Definition launch (m : ChainMonitor) (l : Launch) : BytecodeRun :=
  {| bstate := m; scheduled := Some l; inflight := None; getCodeCalls := 0;
     assembled := [] |}.

Definition bytecode_step (r : BytecodeRun) (e : BytecodeEvent) : BytecodeRun :=
  match e with
  | BytecodeStop =>
      {| bstate := stop (bstate r); scheduled := scheduled r; inflight := inflight r;
         getCodeCalls := getCodeCalls r; assembled := assembled r |}
  | Fire =>
      match scheduled r with
      | None => r
      | Some l =>
          match processBytecode l with
          | None =>
              {| bstate := bstate r; scheduled := None; inflight := inflight r;
                 getCodeCalls := getCodeCalls r; assembled := assembled r |}
          | Some l' =>
              {| bstate := bstate r; scheduled := None; inflight := Some l';
                 getCodeCalls := S (getCodeCalls r); assembled := assembled r |}
          end
      end
  | CodeSettle code =>
      match inflight r with
      | None => r
      | Some l =>
          match processBytecode_settled (bstate r) l code with
          | Retry timer =>
              {| bstate := bstate r; scheduled := snd <$> timer; inflight := None;
                 getCodeCalls := getCodeCalls r; assembled := assembled r |}
          | Assembled metadataAddress bytecode =>
              {| bstate := bstate r; scheduled := None; inflight := None;
                 getCodeCalls := getCodeCalls r;
                 assembled := assembled r ++ [(metadataAddress, bytecode)] |}
          | Unreadable =>
              {| bstate := bstate r; scheduled := None; inflight := None;
                 getCodeCalls := getCodeCalls r; assembled := assembled r |}
          end
      end
  end.

Definition bytecode_run (r : BytecodeRun) (events : list BytecodeEvent) : BytecodeRun :=
  foldl bytecode_step r events.

End WithDecoder.

(** A decoder for the examples: a bytecode has no bytes, and no
    metadata is found in them. *)
Definition example_decoder : Decoder :=
  {| SourceAddress := string;
     hexToBytes := fun _ => Some [];
     fromCborData := fun _ => None |}.
End Monitor.


(* ================================================================== *)
(** * Part II: properties *)
(* ================================================================== *)

(** ** Loops and exceptions *)

Section Loops.
Import Validation.

Lemma bind_Ok {A B} (m : result A) (f : A -> result B) (b : B) :
  m ≫= f = Ok b -> exists a, m = Ok a /\ f a = Ok b.
Proof. destruct m as [a|e]; [by exists a|discriminate]. Qed.

Lemma bind_Throw {A B} (m : result A) (f : A -> result B) (e : error) :
  m ≫= f = Throw e -> m = Throw e \/ exists a, m = Ok a /\ f a = Throw e.
Proof.
  destruct m as [a|e']; intros H; [right; by exists a|left].
  injection H as ->. reflexivity.
Qed.

Lemma foldl_step {A B} (f : A -> B -> A) (a : A) (x : B) (l : list B) :
  foldl f a (x :: l) = foldl f (f a x) l.
Proof. reflexivity. Qed.

Lemma foldlM_cons {A B} (f : A -> B -> result A) (a : A) (x : B) (l : list B) :
  foldlM f a (x :: l) = (a' ← f a x; foldlM f a' l).
Proof. reflexivity. Qed.

Lemma foldlM_Throw {A B} (P : error -> Prop) (f : A -> B -> result A) (l : list B) :
  (forall a x e, f a x = Throw e -> P e) ->
  forall a e, foldlM f a l = Throw e -> P e.
Proof.
  intros Hf. induction l as [|x l IH]; intros a e H; [discriminate|].
  rewrite foldlM_cons in H. apply bind_Throw in H as [H|(a' & _ & H)]; eauto.
Qed.

Lemma lookup_assign_eq {V} (k : string) (v : V) (o : gmap string V) :
  k <> "__proto__" -> assign k v o !! k = Some v.
Proof.
  intros Hk. unfold assign. destruct (String.eqb_spec k "__proto__"); [done|].
  apply lookup_insert_eq.
Qed.

Lemma lookup_assign_ne {V} (k k' : string) (v : V) (o : gmap string V) :
  k' <> k -> assign k v o !! k' = o !! k'.
Proof.
  intros Hk. unfold assign. destruct (String.eqb k "__proto__"); [done|].
  by apply lookup_insert_ne.
Qed.

Lemma lookup_assign_proto {V} (k : string) (v : V) (o : gmap string V) :
  assign k v o !! "__proto__" = o !! "__proto__".
Proof.
  unfold assign. destruct (String.eqb_spec k "__proto__") as [->|Hk]; [done|].
  by apply lookup_insert_ne.
Qed.

End Loops.

(** ** The variations of a source *)

Section Variations.
Import Validation Text.

Example replace_opt_cr_lf_mixed :
  replace_opt_cr_lf (str ["a"; LF; "b"; CR; LF; CR; "c"]%char)
  = str ["a"; CR; LF; "b"; CR; LF; CR; "c"]%char.
Proof. reflexivity. Qed.

Example replace_cr_lf_mixed :
  replace_cr_lf (str ["a"; LF; "b"; CR; LF; CR; CR; LF]%char)
  = str ["a"; LF; "b"; LF; CR; LF]%char.
Proof. reflexivity. Qed.

Example trimEnd_mixed :
  trimEnd (str [" "; "a"; " "; "b"; " "; LF; "009"; "194"; "160"; "226"; "128"; "168"; CR]%char)
  = " a b".
Proof. reflexivity. Qed.

Lemma append_cons (c : ascii) (s t : string) : String c s +:+ t = String c (s +:+ t).
Proof. reflexivity. Qed.

Lemma append_nil_l (t : string) : EmptyString +:+ t = t.
Proof. reflexivity. Qed.

Lemma append_nil_r (s : string) : s +:+ EmptyString = s.
Proof. induction s as [|c s IH]; [done|]. by rewrite append_cons, IH. Qed.

Lemma append_assoc (a b c : string) : (a +:+ b) +:+ c = a +:+ (b +:+ c).
Proof. induction a as [|x a IH]; [done|]. by rewrite !append_cons, IH. Qed.

Lemma concat_cons2 (sep x y : string) (l : list string) :
  String.concat sep (x :: y :: l) = x +:+ sep +:+ String.concat sep (y :: l).
Proof. reflexivity. Qed.

Lemma concat_singleton (sep x : string) : String.concat sep [x] = x.
Proof. reflexivity. Qed.

(** Putting a character in front of a text split at a separator. *)
Lemma concat_String (sep : string) (c : ascii) (p : string) (ps : list string) :
  String.concat sep (String c p :: ps) = String c (String.concat sep (p :: ps)).
Proof. destruct ps as [|q ps]; [done|]. by rewrite !concat_cons2, append_cons. Qed.

Lemma replace_cr_lf_split (text : string) :
  exists part parts,
    SplitAt (String CR (String LF EmptyString)) text (part :: parts)
    /\ replace_cr_lf text = String.concat (String LF EmptyString) (part :: parts).
Proof.
  remember (String.length text) as n eqn:Hn. revert text Hn.
  induction n as [n IH] using lt_wf_ind. intros text Hn.
  destruct text as [|c r].
  { exists EmptyString, []. split; [|done]. split; [done|].
    constructor; [|constructor]. intros [|] post; discriminate. }
  assert (Hplain : (forall r', r = String LF r' -> c <> CR) ->
            replace_cr_lf (String c r) = String c (replace_cr_lf r)).
  { intros Hc. cbn [replace_cr_lf]. destruct r as [|d r']; [done|].
    destruct (Ascii.eqb_spec c CR) as [->|]; [|done].
    destruct (Ascii.eqb_spec d LF) as [->|]; [|done]. by destruct (Hc r'). }
  assert (Hd : (c = CR /\ exists r', r = String LF r')
               \/ (forall r', r = String LF r' -> c <> CR)).
  { destruct (decide (c = CR)) as [->|]; [|by right].
    destruct r as [|d r']; [by right|].
    destruct (decide (d = LF)) as [->|]; [left; by eauto|right; congruence]. }
  destruct Hd as [[-> [r' ->]]|Hno].
  - destruct (IH (String.length r') ltac:(cbn in Hn; lia) r' eq_refl)
      as (p & ps & [Ht Hf] & Hr).
    exists EmptyString, (p :: ps). split; [split|].
    + by rewrite concat_cons2, <- Ht.
    + constructor; [|done]. intros [|] post; discriminate.
    + rewrite concat_cons2, <- Hr. done.
  - destruct (IH (String.length r) ltac:(cbn in Hn; lia) r eq_refl)
      as (p & ps & [Ht Hf] & Hr).
    exists (String c p), ps. rewrite (Hplain Hno).
    split; [split|].
    + by rewrite concat_String, <- Ht.
    + apply Forall_cons in Hf as [Hp Hf]. constructor; [|done].
      intros [|d pre] post Heq.
      * rewrite append_nil_l in Heq. injection Heq as -> Hp0.
        eapply Hno; [|done]. rewrite Ht, Hp0.
        rewrite ?append_cons, ?append_nil_l, concat_String. reflexivity.
      * rewrite append_cons in Heq. injection Heq as -> Hp0. by apply (Hp pre post).
    + by rewrite concat_String, <- Hr.
Qed.

Lemma concat_cons_app (sep x : string) (l : list string) (y : string) :
  String.concat sep (x :: l ++ [y]) = x +:+ sep +:+ String.concat sep (l ++ [y]).
Proof. by destruct l. Qed.

Lemma no_LF_nil (pre post : string) :
  EmptyString <> pre +:+ String LF EmptyString +:+ post.
Proof. by destruct pre. Qed.

Lemma replace_opt_cr_lf_split (text : string) :
  exists terminated terminated' last,
    SplitAt (String LF EmptyString) text (terminated ++ [last])
    /\ Forall2 Chomped terminated terminated'
    /\ replace_opt_cr_lf text = String.concat (String CR (String LF EmptyString)) (terminated' ++ [last]).
Proof.
  remember (String.length text) as n eqn:Hn. revert text Hn.
  induction n as [n IH] using lt_wf_ind. intros text Hn.
  destruct text as [|c r].
  { exists [], [], EmptyString. split; [|done]. split; [done|].
    constructor; [|constructor]. apply no_LF_nil. }
  destruct (decide (c = LF)) as [->|Hlf].
  { destruct (IH (String.length r) ltac:(cbn in Hn; lia) r eq_refl)
      as (t & t' & last & [Ht Hf] & Hc & Hr).
    exists (EmptyString :: t), (EmptyString :: t'), last. split; [split|split].
    - cbn [app]. by rewrite concat_cons_app, <- Ht.
    - cbn [app]. constructor; [apply no_LF_nil|done].
    - constructor; [|done]. right. split; [done|]. by intros [|].
    - cbn [app]. by rewrite concat_cons_app, <- Hr. }
  assert (Hd : (c = CR /\ exists r', r = String LF r')
               \/ (forall r', r = String LF r' -> c <> CR)).
  { destruct (decide (c = CR)) as [->|]; [|by right].
    destruct r as [|d r']; [by right|].
    destruct (decide (d = LF)) as [->|]; [left; by eauto|right; congruence]. }
  destruct Hd as [[-> [r' ->]]|Hno].
  { destruct (IH (String.length r') ltac:(cbn in Hn; lia) r' eq_refl)
      as (t & t' & last & [Ht Hf] & Hc & Hr).
    exists (String CR EmptyString :: t), (EmptyString :: t'), last.
    split; [split|split].
    - cbn [app]. by rewrite concat_cons_app, <- Ht.
    - cbn [app]. constructor; [|done]. intros [|d [|e pre]] post; discriminate.
    - constructor; [|done]. by left.
    - cbn [app]. by rewrite concat_cons_app, <- Hr. }
  assert (Hplain : replace_opt_cr_lf (String c r) = String c (replace_opt_cr_lf r)).
  { cbn [replace_opt_cr_lf]. destruct (Ascii.eqb_spec c LF) as [|_]; [done|].
    destruct r as [|d r']; [done|].
    destruct (Ascii.eqb_spec c CR) as [->|]; [|done].
    destruct (Ascii.eqb_spec d LF) as [->|]; [|done]. by destruct (Hno r'). }
  destruct (IH (String.length r) ltac:(cbn in Hn; lia) r eq_refl)
    as (t & t' & last & [Ht Hf] & Hc & Hr).
  rewrite Hplain.
  assert (Hfront : forall p, (forall pre post, p <> pre +:+ String LF EmptyString +:+ post) ->
            forall pre post, String c p <> pre +:+ String LF EmptyString +:+ post).
  { intros p Hp [|d pre] post Heq.
    - rewrite append_nil_l, append_cons in Heq. by injection Heq as -> _.
    - rewrite append_cons in Heq. injection Heq as _ Heq. by apply (Hp pre post). }
  destruct Hc as [|l0 l0' t0 t0' Hl0 Hc].
  - exists [], [], (String c last). cbn [app] in *. rewrite !concat_singleton in *.
    split; [split|split].
    + by rewrite Ht.
    + apply Forall_cons in Hf as [Hp _]. constructor; [|constructor]. by apply Hfront.
    + constructor.
    + by rewrite Hr.
  - exists (String c l0 :: t0), (String c l0' :: t0'), last. cbn [app] in *.
    split; [split|split].
    + by rewrite concat_String, <- Ht.
    + apply Forall_cons in Hf as [Hp Hf]. constructor; [by apply Hfront|done].
    + constructor; [|done]. destruct Hl0 as [->|[-> Hl0]]; [by left|right].
      split; [done|]. intros [|d pre] Heq.
      * rewrite append_nil_l in Heq. injection Heq as -> ->.
        eapply Hno; [|done]. rewrite Ht, concat_cons_app, append_nil_l, append_cons.
        reflexivity.
      * rewrite append_cons in Heq. injection Heq as _ Heq. by apply (Hl0 pre).
    + by rewrite concat_String, <- Hr.
Qed.

Lemma str_app (l l' : list ascii) : str (l ++ l') = str l +:+ str l'.
Proof.
  unfold str. induction l as [|c l IH]; [done|].
  cbn [app string_of_list_ascii]. by rewrite append_cons, IH.
Qed.

Lemma concat_empty_cons (x : string) (l : list string) :
  String.concat EmptyString (x :: l) = x +:+ String.concat EmptyString l.
Proof. destruct l; [by rewrite append_nil_r|done]. Qed.

Lemma concat_empty_snoc (l : list string) (w : string) :
  String.concat EmptyString (l ++ [w]) = String.concat EmptyString l +:+ w.
Proof.
  induction l as [|x l IH]; [done|].
  cbn [app]. by rewrite !concat_empty_cons, IH, append_assoc.
Qed.

Lemma ascii_of_nat_of (c : ascii) (n : nat) : nat_of_ascii c = n -> c = ascii_of_nat n.
Proof. intros <-. by rewrite ascii_nat_embedding. Qed.

Ltac known_bytes :=
  repeat match goal with
         | H : _ \/ _ |- _ => destruct H
         | H : _ /\ _ |- _ => destruct H
         end;
  repeat match goal with
         | H : nat_of_ascii ?c = _ |- _ => apply ascii_of_nat_of in H; subst c
         end;
  apply (bool_decide_unpack _); vm_compute; exact I.

Lemma space1_whiteSpace (c : ascii) : space1 c = true -> str [c] ∈ whiteSpace.
Proof.
  unfold space1. cbv zeta.
  rewrite orb_true_iff, andb_true_iff, !Nat.leb_le, Nat.eqb_eq. intros H.
  assert (Hn : nat_of_ascii c = 9 \/ nat_of_ascii c = 10 \/ nat_of_ascii c = 11
               \/ nat_of_ascii c = 12 \/ nat_of_ascii c = 13 \/ nat_of_ascii c = 32)
    by lia.
  clear H. known_bytes.
Qed.

Lemma space2_whiteSpace (a b : ascii) : space2 a b = true -> str [a; b] ∈ whiteSpace.
Proof.
  unfold space2. rewrite andb_true_iff, !Nat.eqb_eq. intros H. known_bytes.
Qed.

Lemma space3_whiteSpace (a b c : ascii) : space3 a b c = true -> str [a; b; c] ∈ whiteSpace.
Proof.
  unfold space3. cbv zeta beta iota.
  rewrite !orb_true_iff, !andb_true_iff, !orb_true_iff, !andb_true_iff, !Nat.eqb_eq,
    !Nat.leb_le.
  intros H.
  assert (Hz : (128 <= nat_of_ascii c /\ nat_of_ascii c <= 138 ->
                nat_of_ascii c = 128 \/ nat_of_ascii c = 129 \/ nat_of_ascii c = 130
                \/ nat_of_ascii c = 131 \/ nat_of_ascii c = 132 \/ nat_of_ascii c = 133
                \/ nat_of_ascii c = 134 \/ nat_of_ascii c = 135 \/ nat_of_ascii c = 136
                \/ nat_of_ascii c = 137 \/ nat_of_ascii c = 138)) by lia.
  repeat match goal with
         | H : _ \/ _ |- _ => destruct H
         | H : ?x /\ ?y |- _ =>
             lazymatch x with
             | (128 <= _) => apply Hz in H
             | _ => destruct H
             end
         end;
    clear Hz; known_bytes.
Qed.

Lemma whiteSpace_inv (w : string) :
  w ∈ whiteSpace ->
  (exists c, w = str [c] /\ space1 c = true)
  \/ (exists a b, w = str [a; b] /\ space2 a b = true)
  \/ (exists a b c, w = str [a; b; c] /\ space3 a b c = true).
Proof.
  unfold whiteSpace. intros H. apply list_elem_of_fmap in H as (l & -> & H).
  repeat (apply elem_of_cons in H as [->|H];
          [first [left; by eexists
                 |right; left; by eexists _, _
                 |right; right; by eexists _, _, _]|]).
  by apply elem_of_nil in H.
Qed.

Lemma strip_rev_spec (l : list ascii) :
  exists ws,
    Forall (fun w => w ∈ whiteSpace) ws
    /\ l = rev (list_ascii_of_string (String.concat EmptyString ws)) ++ strip_rev l
    /\ Stuck (strip_rev l).
Proof.
  remember (length l) as n eqn:Hn. revert l Hn.
  induction n as [n IH] using lt_wf_ind. intros l Hn.
  assert (Hstep : forall (w : list ascii) r,
            l = rev w ++ r -> w <> [] -> str w ∈ whiteSpace ->
            exists ws,
              Forall (fun w => w ∈ whiteSpace) ws
              /\ l = rev (list_ascii_of_string (String.concat EmptyString ws)) ++ strip_rev r
              /\ Stuck (strip_rev r)).
  { intros w r -> Hw Hin.
    destruct (IH (length r)) with (l := r) as (ws & Hws & Hr & Hs); [|done|].
    { rewrite Hn, length_app, length_rev. destruct w; [done|]. cbn. lia. }
    exists (ws ++ [str w]). split; [apply Forall_app; split; [done|by constructor]|].
    split; [|done].
    rewrite concat_empty_snoc. rewrite Hr at 1.
    rewrite <- (string_of_list_ascii_of_string (String.concat EmptyString ws)) at 2.
    unfold str. rewrite <- str_app. unfold str.
    rewrite list_ascii_of_string_of_list_ascii, rev_app_distr, <- app_assoc. done. }
  destruct l as [|c r]; [by exists []|].
  cbn [strip_rev]. destruct (space1 c) eqn:H1.
  { apply (Hstep [c] r); [done|done|by apply space1_whiteSpace]. }
  destruct r as [|b r']; [by exists []|].
  destruct (space2 b c) eqn:H2.
  { apply (Hstep [b; c] r'); [done|done|by apply space2_whiteSpace]. }
  destruct r' as [|a r'']; [by exists []|].
  destruct (space3 a b c) eqn:H3.
  { apply (Hstep [a; b; c] r''); [done|done|by apply space3_whiteSpace]. }
  by exists [].
Qed.

Lemma Stuck_no_prefix (l : list ascii) (w : string) (rest : list ascii) :
  Stuck l -> w ∈ whiteSpace -> l <> rev (list_ascii_of_string w) ++ rest.
Proof.
  intros Hs Hw Hl.
  destruct (whiteSpace_inv w Hw) as [(c & -> & H1)|[(a & b & -> & H2)|(a & b & c & -> & H3)]];
    cbn in Hl; subst l; cbv beta iota delta [Stuck] in Hs.
  - destruct Hs as [Hs _]. congruence.
  - destruct Hs as (_ & Hs & _). congruence.
  - destruct Hs as (_ & _ & Hs). congruence.
Qed.

Lemma trimEnd_spec (text : string) :
  exists ws,
    Forall (fun w => w ∈ whiteSpace) ws
    /\ text = trimEnd text +:+ String.concat EmptyString ws
    /\ forall w pre, w ∈ whiteSpace -> trimEnd text <> pre +:+ w.
Proof.
  destruct (strip_rev_spec (rev (list_ascii_of_string text))) as (ws & Hws & Hl & Hs).
  exists ws. split; [done|]. unfold trimEnd. split.
  - rewrite <- (string_of_list_ascii_of_string (String.concat EmptyString ws)).
    unfold str. rewrite <- str_app. unfold str.
    rewrite <- (string_of_list_ascii_of_string text) at 1. f_equal.
    apply (f_equal (@rev ascii)) in Hl. rewrite rev_involutive in Hl.
    rewrite Hl at 1. by rewrite rev_app_distr, rev_involutive.
  - intros w pre Hw Heq. apply (f_equal list_ascii_of_string) in Heq.
    unfold str in Heq. rewrite list_ascii_of_string_of_list_ascii in Heq.
    apply (f_equal (@rev ascii)) in Heq. rewrite rev_involutive in Heq.
    apply (Stuck_no_prefix _ w (rev (list_ascii_of_string pre)) Hs Hw).
    rewrite Heq. rewrite <- (string_of_list_ascii_of_string pre) at 1.
    rewrite <- (string_of_list_ascii_of_string w) at 1.
    unfold str. rewrite <- str_app. unfold str.
    by rewrite list_ascii_of_string_of_list_ascii, rev_app_distr.
Qed.

Lemma generateVariations_path (pathContent v : PathContent) :
  v ∈ generateVariations pathContent -> path v = path pathContent.
Proof.
  unfold generateVariations. intros Hv.
  apply list_elem_of_fmap in Hv as (c & -> & _). reflexivity.
Qed.

(** C5. For every text, [generateVariations] returns exactly 18 variants:
    each of the three content variators (identity, every LF with an
    optional CR before it replaced by CR LF, every CR LF replaced by LF),
    in this order, followed by each of the six ending variators (identity,
    right-trim, right-trim then LF, right-trim then CR LF, append LF,
    append CR LF), in this order, applied to its output; every variant
    keeps the path of the source.  The second content variator gives the
    lines of the text, each line that is followed by LF without the CR it
    ends with, joined by CR LF; the third one gives the pieces of the
    text between the occurrences of CR LF, joined by LF; and the
    right-trim of a text is the text without the white space it ends
    with, and ends with no white space. *)
Theorem generateVariations_cartesian (pathContent : PathContent) :
  let text := content pathContent in
  let lf := String LF EmptyString in
  let crlf := String CR (String LF EmptyString) in
  let a := text in
  let b := replace_opt_cr_lf text in
  let c := replace_cr_lf text in
  length (generateVariations pathContent) = 18%nat
  /\ content <$> generateVariations pathContent =
       [ a; trimEnd a; trimEnd a +:+ lf; trimEnd a +:+ crlf; a +:+ lf; a +:+ crlf;
         b; trimEnd b; trimEnd b +:+ lf; trimEnd b +:+ crlf; b +:+ lf; b +:+ crlf;
         c; trimEnd c; trimEnd c +:+ lf; trimEnd c +:+ crlf; c +:+ lf; c +:+ crlf ]
  /\ content <$> generateVariations pathContent =
       (contentVariator ← CONTENT_VARIATORS;
        endingVariator ← ENDING_VARIATORS;
        [endingVariator (contentVariator text)])
  /\ (forall v, v ∈ generateVariations pathContent -> path v = path pathContent)
  /\ (exists terminated terminated' last,
        SplitAt lf text (terminated ++ [last])
        /\ Forall2 Chomped terminated terminated'
        /\ b = String.concat crlf (terminated' ++ [last]))
  /\ (exists part parts,
        SplitAt crlf text (part :: parts)
        /\ c = String.concat lf (part :: parts))
  /\ (forall t,
        exists ws,
          Forall (fun w => w ∈ whiteSpace) ws
          /\ t = trimEnd t +:+ String.concat EmptyString ws
          /\ forall w pre, w ∈ whiteSpace -> trimEnd t <> pre +:+ w).
Proof.
  cbv zeta. split; [reflexivity|]. split; [reflexivity|]. split; [reflexivity|].
  split; [apply generateVariations_path|].
  split; [apply replace_opt_cr_lf_split|].
  split; [apply replace_cr_lf_split|]. apply trimEnd_spec.
Qed.

(** The variators on a text with a line end of each kind and white space
    at its end: the CR that is followed by no LF stays, and so does the
    space inside the text. *)
Example generateVariations_mixed :
  let text := str ["a"; " "; LF; "b"; CR; LF; CR; "c"; " "; "009"]%char in
  replace_opt_cr_lf text = str ["a"; " "; CR; LF; "b"; CR; LF; CR; "c"; " "; "009"]%char
  /\ replace_cr_lf text = str ["a"; " "; LF; "b"; LF; CR; "c"; " "; "009"]%char
  /\ trimEnd text = str ["a"; " "; LF; "b"; CR; LF; CR; "c"]%char
  /\ replace_cr_lf text <> text.
Proof. cbv zeta. repeat split; try reflexivity. discriminate. Qed.

End Variations.

(** ** Recognition of a manifest *)

Section Recognition.
Import Validation Text.
Context {rt : Runtime}.

Lemma truthy_opt_Truthy (o : option json) : truthy_opt o = true <-> Truthy o.
Proof.
  unfold Truthy. split.
  - destruct o as [v|]; [|discriminate]. intros Hv. exists v. split; [reflexivity|].
    repeat split; intros ->; discriminate.
  - intros (v & -> & Hn & Hb & Hz & Hs). destruct v as [|[]|n|s|l|m]; simpl; try done.
    + destruct (Z.eqb_spec n 0) as [->|]; done.
    + destruct s; done.
Qed.

Lemma strict_eq_string_spec (o : option json) (s : string) :
  strict_eq_string o s = true <-> o = Some (JStr s).
Proof.
  unfold strict_eq_string. destruct o as [[| | |t| |]|]; try (split; [discriminate|congruence]).
  rewrite String.eqb_eq. split; congruence.
Qed.

Lemma isMetadata_Recognizable (obj : json) :
  isMetadata (Some obj) = true <-> Recognizable obj.
Proof.
  unfold isMetadata, Recognizable. simpl.
  rewrite !andb_true_iff, strict_eq_string_spec, !truthy_opt_Truthy. tauto.
Qed.

Lemma extractMetadataFromString_isMetadata (file : string) (obj : json) :
  extractMetadataFromString file = Some obj -> isMetadata (Some obj) = true.
Proof.
  unfold extractMetadataFromString. intros H.
  destruct (JSON_parse file) as [o|]; [|discriminate].
  destruct (isMetadata (Some o)) eqn:Ho; [congruence|].
  destruct (JSON_parse (to_string o)) as [o'|]; [|discriminate].
  destruct (isMetadata (Some o')) eqn:Ho'; congruence.
Qed.

Lemma recognize_object (text : string) (m : json) :
  recognize text = Some m -> isMetadata (Some m) = true.
Proof.
  unfold recognize.
  destruct (extractMetadataFromString text) as [m'|] eqn:H1.
  - intros [= <-]. by eapply extractMetadataFromString_isMetadata.
  - destruct (match_between _ _ text) as [t|]; [|discriminate].
    apply extractMetadataFromString_isMetadata.
Qed.

(** C3, as the code has it.  [extractMetadataFromString], and with it
    the recognition of a file by [splitFiles], returns a manifest only for
    a parsed value with [language] equal to "Solidity" and with
    [settings.compilationTarget], [version], [output.abi],
    [output.userdoc], [output.devdoc] and [sources] all present and truthy
    (none of [null], [false], [0], the empty string; an empty array or
    object is truthy); and every text that parses to such a value is
    recognized as that value. *)
Theorem extractMetadataFromString_recognizes (file : string) :
  (forall obj, extractMetadataFromString file = Some obj -> Recognizable obj)
  /\ (forall obj, recognize file = Some obj -> Recognizable obj)
  /\ (forall obj, JSON_parse file = Some obj -> Recognizable obj ->
        extractMetadataFromString file = Some obj /\ recognize file = Some obj).
Proof.
  split; [|split].
  - intros obj H. apply isMetadata_Recognizable.
    by apply extractMetadataFromString_isMetadata in H.
  - intros obj H. apply isMetadata_Recognizable. by apply recognize_object in H.
  - intros obj Hp Hr. unfold recognize, extractMetadataFromString. rewrite Hp.
    apply isMetadata_Recognizable in Hr. by rewrite Hr.
Qed.

End Recognition.


(** ** Reconciliation of a manifest with the hash index *)

Section Reconciliation.
Import Validation Text.
Context {rt : Runtime}.

(** One turn of the loop stores the entry where [place] says, unless its
    key is [__proto__], and touches no other key. *)
Lemma rearrangeStep_Ok (byHash : gmap string PathContent) (acc acc' : Rearranged)
    (k : string) (v : json) :
  rearrangeStep byHash acc (k, v) = Ok acc' ->
  exists info, sourceInfo v = Ok info
    /\ (k <> "__proto__" -> Unplaced k acc -> Placed k (place byHash info) acc')
    /\ (forall k', k' <> k \/ k' = "__proto__" -> SameAt k' acc' acc).
Proof.
  unfold rearrangeStep. destruct (sourceInfo v) as [info|e]; [|discriminate].
  cbn. intros H. exists info. split; [reflexivity|].
  assert (Hsame : forall {V} k' (x : V) o,
            k' <> k \/ k' = "__proto__" -> assign k x o !! k' = o !! k').
  { intros V k' x o [Hk| ->]; [by apply lookup_assign_ne|apply lookup_assign_proto]. }
  unfold place, Placed, Unplaced, SameAt.
  destruct (info_content info) as [[|c r]|] eqn:Hc.
  - destruct (info_keccak256 info ≫= _) as [pc|] eqn:Hh.
    + destruct (content pc) as [|c' r'] eqn:Hpc; injection H as <-; cbn;
        (split; [intros Hk (Hf & Hm & Hi); by rewrite ?lookup_assign_eq
                |intros k' Hk; by rewrite ?Hsame]).
    + injection H as <-; cbn.
      split; [intros Hk (Hf & Hm & Hi); by rewrite ?lookup_assign_eq
             |intros k' Hk; by rewrite ?Hsame].
  - case_bool_decide as Hd; cbn in H; injection H as <-; cbn;
      (split; [intros Hk (Hf & Hm & Hi); by rewrite ?lookup_assign_eq
              |intros k' Hk; by rewrite ?Hsame]).
  - destruct (info_keccak256 info ≫= _) as [pc|] eqn:Hh.
    + destruct (content pc) as [|c' r'] eqn:Hpc; injection H as <-; cbn;
        (split; [intros Hk (Hf & Hm & Hi); by rewrite ?lookup_assign_eq
                |intros k' Hk; by rewrite ?Hsame]).
    + injection H as <-; cbn.
      split; [intros Hk (Hf & Hm & Hi); by rewrite ?lookup_assign_eq
             |intros k' Hk; by rewrite ?Hsame].
Qed.


Lemma Placed_SameAt (k : string) (p : Placement) (r r' : Rearranged) :
  SameAt k r' r -> Placed k p r -> Placed k p r'.
Proof.
  intros (Hf & Hm & Hi). unfold Placed. destruct p; rewrite Hf, Hm, Hi; done.
Qed.

Lemma Unplaced_SameAt (k : string) (r r' : Rearranged) :
  SameAt k r' r -> Unplaced k r -> Unplaced k r'.
Proof. intros (Hf & Hm & Hi). unfold Unplaced. rewrite Hf, Hm, Hi; done. Qed.

Lemma SameAt_trans (k : string) (r1 r2 r3 : Rearranged) :
  SameAt k r1 r2 -> SameAt k r2 r3 -> SameAt k r1 r3.
Proof.
  intros (Hf & Hm & Hi) (Hf' & Hm' & Hi'). unfold SameAt.
  rewrite Hf, Hm, Hi. done.
Qed.

(** The whole loop, over entries with distinct keys none of which is
    stored yet. *)
Lemma rearrange_loop (byHash : gmap string PathContent) (entries : list (string * json))
    (acc r : Rearranged) :
  foldlM (rearrangeStep byHash) acc entries = Ok r ->
  NoDup entries.*1 ->
  (forall k, k ∈ entries.*1 -> Unplaced k acc) ->
  (forall k v, (k, v) ∈ entries ->
     exists info, sourceInfo v = Ok info
                  /\ (k <> "__proto__" -> Placed k (place byHash info) r))
  /\ (forall k, k ∉ entries.*1 \/ k = "__proto__" -> SameAt k r acc).
Proof.
  revert acc. induction entries as [|[k0 v0] entries IH]; intros acc Hfold Hnd Hun.
  - cbn in Hfold. injection Hfold as <-. split; [intros k v Hin; by apply elem_of_nil in Hin|done].
  - rewrite foldlM_cons in Hfold. apply bind_Ok in Hfold as (acc1 & Hstep & Hfold).
    cbn in Hnd. apply NoDup_cons in Hnd as [Hk0 Hnd].
    destruct (rearrangeStep_Ok _ _ _ _ _ Hstep) as (info & Hinfo & Hplaced & Hother).
    destruct (IH acc1 Hfold Hnd) as [IH1 IH2].
    { intros k Hk. apply (Unplaced_SameAt k acc).
      - apply Hother. left. intros ->. done.
      - apply Hun. cbn. by apply elem_of_cons; right. }
    split.
    + intros k v Hin. apply elem_of_cons in Hin as [[= -> ->]|Hin].
      * exists info. split; [done|]. intros Hne.
        apply (Placed_SameAt k0 _ acc1); [apply IH2; by left|].
        apply Hplaced; [done|]. apply Hun. cbn. by apply elem_of_cons; left.
      * by apply IH1.
    + intros k Hk.
      apply (SameAt_trans k r acc1 acc).
      * apply IH2. destruct Hk as [Hk| ->]; [|by right]. left.
        cbn in Hk. by apply not_elem_of_cons in Hk as [_ Hk].
      * apply Hother. destruct Hk as [Hk| ->]; [|by right]. left.
        cbn in Hk. by apply not_elem_of_cons in Hk as [Hk _].
Qed.

Lemma for_in_NoDup (o : option json) (entries : list (string * json)) :
  for_in o = Ok entries -> NoDup entries.*1.
Proof.
  destruct o as [[| | |s|l|m]|]; cbn; intros [= <-]; try apply NoDup_nil_2.
  - rewrite fmap_imap.
    rewrite (imap_ext _ (fun i _ => pretty i)) by done.
    rewrite (imap_seq_0 l pretty). apply NoDup_fmap_2; [apply _|apply NoDup_seq].
  - apply NoDup_fst_map_to_list.
Qed.


Lemma rearrangeSources_Ok (metadata : option json) (byHash : gmap string PathContent)
    (r : Rearranged) :
  rearrangeSources metadata byHash = Ok r ->
  exists entries, declaredSources metadata = Ok entries
    /\ NoDup entries.*1
    /\ (forall k v, (k, v) ∈ entries ->
          exists info, sourceInfo v = Ok info
                       /\ (k <> "__proto__" -> Placed k (place byHash info) r))
    /\ (forall k, k ∉ entries.*1 \/ k = "__proto__" -> Unplaced k r).
Proof.
  unfold rearrangeSources, declaredSources. intros H.
  apply bind_Ok in H as (sources & Hs & H). apply bind_Ok in H as (entries & He & H).
  exists entries. rewrite Hs. split; [exact He|].
  pose proof (for_in_NoDup _ _ He) as Hnd. split; [exact Hnd|].
  destruct (rearrange_loop _ _ _ _ H Hnd) as [H1 H2]; [done|].
  split; [exact H1|]. intros k Hk. apply (Unplaced_SameAt k _ _ (H2 k Hk)). done.
Qed.

(** The three partitions of a reconciled manifest cover the declared
    keys other than [__proto__] and are pairwise disjoint. *)
Lemma rearrangeSources_partition (metadata : option json)
    (byHash : gmap string PathContent) (r : Rearranged) :
  rearrangeSources metadata byHash = Ok r ->
  exists entries, declaredSources metadata = Ok entries
    /\ dom (foundSources r) ∪ dom (missingSources r) ∪ dom (invalidSources r)
       = list_to_set entries.*1 ∖ {[ "__proto__" ]}
    /\ dom (foundSources r) ## dom (missingSources r)
    /\ dom (foundSources r) ## dom (invalidSources r)
    /\ dom (missingSources r) ## dom (invalidSources r).
Proof.
  intros H. apply rearrangeSources_Ok in H as (entries & He & Hnd & Hin & Hout).
  exists entries. split; [exact He|].
  assert (Hcase : forall k,
            ((k ∈ entries.*1 /\ k <> "__proto__") /\ exists p, Placed k p r)
            \/ ((k ∉ entries.*1 \/ k = "__proto__") /\ Unplaced k r)).
  { intros k. destruct (decide (k = "__proto__")) as [->|Hp]; [right; by auto|].
    destruct (decide (k ∈ entries.*1)) as [Hk|Hk]; [left|right; by auto].
    split; [done|]. apply list_elem_of_fmap in Hk as ([k' v] & -> & Hkv).
    destruct (Hin _ _ Hkv) as (info & _ & Hpl). eauto. }
  split; [|split; [|split]].
  - apply set_eq. intros k.
    rewrite elem_of_difference, !elem_of_union, !elem_of_dom, elem_of_list_to_set,
      not_elem_of_singleton.
    destruct (Hcase k) as [[Hk [[t|m|i] (Hf & Hm & Hi)]]|[Hk (Hf & Hm & Hi)]];
      rewrite Hf, Hm, Hi; split; intros; try done; eauto;
      repeat match goal with
             | H : _ \/ _ |- _ => destruct H
             | H : _ /\ _ |- _ => destruct H
             | H : is_Some None |- _ => by apply is_Some_None in H
             end; try done.
  - apply elem_of_disjoint. intros k. rewrite !elem_of_dom.
    destruct (Hcase k) as [[Hk [[t|m|i] (Hf & Hm & Hi)]]|[Hk (Hf & Hm & Hi)]];
      rewrite Hf, Hm; intros [] []; done.
  - apply elem_of_disjoint. intros k. rewrite !elem_of_dom.
    destruct (Hcase k) as [[Hk [[t|m|i] (Hf & Hm & Hi)]]|[Hk (Hf & Hm & Hi)]];
      rewrite Hf, Hi; intros [] []; done.
  - apply elem_of_disjoint. intros k. rewrite !elem_of_dom.
    destruct (Hcase k) as [[Hk [[t|m|i] (Hf & Hm & Hi)]]|[Hk (Hf & Hm & Hi)]];
      rewrite Hm, Hi; intros [] []; done.
Qed.


(** Every entry of the hash index is a variation of a source file,
    stored under the digest of its content. *)
Lemma storeByHash_lookup (files : list PathContent) (h : string) (variation : PathContent) :
  storeByHash files !! h = Some variation ->
  keccak256 (content variation) = h
  /\ exists file, file ∈ files /\ variation ∈ generateVariations file.
Proof.
  unfold storeByHash.
  set (Q := fun v : PathContent => exists file, file ∈ files /\ v ∈ generateVariations file).
  set (I := fun byHash : gmap string PathContent =>
              forall h v, byHash !! h = Some v -> keccak256 (content v) = h /\ Q v).
  assert (Hinner : forall vs byHash, I byHash -> Forall Q vs ->
            I (foldl (fun byHash variation =>
                        <[keccak256 (content variation) := variation]> byHash) byHash vs)).
  { induction vs as [|v vs IH]; intros byHash HI HQ; [exact HI|].
    apply Forall_cons in HQ as [Hv HQ]. rewrite foldl_step. apply IH; [|exact HQ].
    intros h' v'. destruct (decide (keccak256 (content v) = h')) as [<-|Hne].
    - rewrite lookup_insert_eq. intros [= <-]. done.
    - rewrite lookup_insert_ne by done. apply HI. }
  assert (Houter : forall fs byHash, I byHash -> (forall f, f ∈ fs -> f ∈ files) ->
            I (foldl (fun byHash pathContent =>
                        foldl (fun byHash variation =>
                                 <[keccak256 (content variation) := variation]> byHash)
                              byHash (generateVariations pathContent)) byHash fs)).
  { induction fs as [|f fs IH]; intros byHash HI Hfs; [exact HI|].
    rewrite foldl_step. apply IH.
    - apply Hinner; [exact HI|]. apply Forall_forall. intros v Hv. exists f.
      split; [apply Hfs; by left|exact Hv].
    - intros f' Hf'. apply Hfs. by right. }
  intros H. apply (Houter files ∅); [|done|exact H].
  intros h' v'. by rewrite lookup_empty.
Qed.

Lemma checkFiles_loop (byHash : gmap string PathContent) (metadataFiles : list (option json))
    (acc acc' : list CheckedContract * list string) :
  foldlM (fun '(checkedContracts, usedFiles) metadata =>
            r ← rearrangeSources metadata byHash;
            let currentUsedFiles := (map_to_list (metadata2provided r)).*2 in
            let checkedContract :=
              {| metadata := metadata;
                 solidity := foundSources r;
                 missing := missingSources r;
                 invalid := invalidSources r |} in
            Ok (checkedContracts ++ [checkedContract], usedFiles ++ currentUsedFiles))
         acc metadataFiles = Ok acc' ->
  exists cs, acc'.1 = acc.1 ++ cs /\ Forall2 (Checked byHash) metadataFiles cs.
Proof.
  revert acc. induction metadataFiles as [|md mds IH]; intros [cs0 used0] H.
  - cbn in H. injection H as <-. exists []. by rewrite app_nil_r.
  - rewrite foldlM_cons in H. apply bind_Ok in H as ([cs1 used1] & Hstep & H).
    apply bind_Ok in Hstep as (r & Hr & Hstep). injection Hstep as <- <-.
    apply IH in H as (cs & Heq & HF). cbn in Heq |- *.
    eexists (_ :: cs). rewrite Heq, <- app_assoc. split; [reflexivity|].
    constructor; [|exact HF]. by exists r.
Qed.

(** What a successful call of [checkFiles] has done. *)
Lemma checkFiles_Ok (files files' : list PathBuffer) (unused unused' : option (list string))
    (cs : list CheckedContract) :
  checkFiles files unused = (Ok (cs, unused'), files') ->
  unzipFiles files = (Ok (), files')
  /\ exists metadataFiles sourceFiles,
       splitFiles (parseFiles files') = Ok (metadataFiles, sourceFiles)
       /\ Forall2 (Checked (storeByHash sourceFiles)) metadataFiles cs.
Proof.
  unfold checkFiles. destruct (unzipFiles files) as [[[]|e] fs]; [|discriminate].
  intros [= H <-]. split; [reflexivity|].
  change (Ok () ≫= ?f) with (f ()) in H. cbv beta in H.
  apply bind_Ok in H as ([mds srcs] & Hsplit & H).
  apply bind_Ok in H as ([cs' used] & Hloop & H). injection H as <- _.
  exists mds, srcs. split; [exact Hsplit|].
  apply checkFiles_loop in Hloop as (cs'' & Heq & HF). cbn in Heq. by subst cs'.
Qed.


Lemma Forall2_Checked (byHash : gmap string PathContent) (mds : list (option json))
    (cs : list CheckedContract) :
  Forall2 (Checked byHash) mds cs ->
  metadata <$> cs = mds /\ (forall c, c ∈ cs -> Checked byHash (metadata c) c).
Proof.
  induction 1 as [|md c mds cs (r & Hr & ->) HF [IH1 IH2]]; [split; [done|]|].
  - intros c Hc. by apply elem_of_nil in Hc.
  - split; [cbn; by rewrite IH1|].
    intros c' Hc'. apply elem_of_cons in Hc' as [->|Hc']; [by exists r|by apply IH2].
Qed.

Lemma declaredSources_object (obj : json) (m : gmap string json) :
  field obj "sources" = Some (JObj m) ->
  declaredSources (Some obj) = Ok (map_to_list m)
  /\ list_to_set (map_to_list m).*1 = dom m.
Proof.
  intros Hs. split.
  - unfold declaredSources. destruct obj; try discriminate. cbn in *. by rewrite Hs.
  - apply leibniz_equiv. symmetry. apply dom_alt.
Qed.

(** X31.  When [checkFiles] succeeds it returns one checked contract per
    manifest, in order, and in each of them the keys of [found] (the
    field [solidity]), [missing] and [invalid] together are exactly the
    keys declared in the manifest's [sources] other than [__proto__], and
    no key is in two of the three. *)
Theorem checkFiles_partition (files files' : list PathBuffer)
    (unused unused' : option (list string)) (cs : list CheckedContract) :
  checkFiles files unused = (Ok (cs, unused'), files') ->
  exists metadataFiles sourceFiles,
    splitFiles (parseFiles files') = Ok (metadataFiles, sourceFiles)
    /\ metadata <$> cs = metadataFiles
    /\ forall c, c ∈ cs ->
         exists entries, declaredSources (metadata c) = Ok entries
           /\ dom (solidity c) ∪ dom (missing c) ∪ dom (invalid c)
              = list_to_set entries.*1 ∖ {[ "__proto__" ]}
           /\ dom (solidity c) ## dom (missing c)
           /\ dom (solidity c) ## dom (invalid c)
           /\ dom (missing c) ## dom (invalid c)
           /\ (forall obj m, metadata c = Some obj -> field obj "sources" = Some (JObj m) ->
                 dom (solidity c) ∪ dom (missing c) ∪ dom (invalid c)
                 = dom m ∖ {[ "__proto__" ]}).
Proof.
  intros H. apply checkFiles_Ok in H as (_ & mds & srcs & Hsplit & HF).
  apply Forall2_Checked in HF as [Hmd Hcs].
  exists mds, srcs. split; [exact Hsplit|]. split; [exact Hmd|].
  intros c Hc. destruct (Hcs c Hc) as (r & Hr & Heq).
  destruct (rearrangeSources_partition _ _ _ Hr) as (entries & He & Hdom & H1 & H2 & H3).
  assert (solidity c = foundSources r /\ missing c = missingSources r
          /\ invalid c = invalidSources r) as (-> & -> & ->) by (by rewrite Heq).
  exists entries. repeat (split; [done|]).
  intros obj m Hobj Hs. destruct (declaredSources_object _ _ Hs) as [Hd <-].
  rewrite Hobj, Hd in He. injection He as <-. exact Hdom.
Qed.

(** The two ways into [found]. *)
Lemma found_Placed (byHash : gmap string PathContent) (metadata : option json)
    (r : Rearranged) (k text : string) :
  rearrangeSources metadata byHash = Ok r ->
  foundSources r !! k = Some text ->
  exists entries v info, declaredSources metadata = Ok entries
    /\ (k, v) ∈ entries /\ sourceInfo v = Ok info
    /\ place byHash info = Found text.
Proof.
  intros Hr Hf. apply rearrangeSources_Ok in Hr as (entries & He & Hnd & Hin & Hout).
  destruct (decide (k = "__proto__")) as [Hproto|Hproto].
  { destruct (Hout k (or_intror Hproto)) as (Hf' & _). congruence. }
  destruct (decide (k ∈ entries.*1)) as [Hk|Hk].
  - apply list_elem_of_fmap in Hk as ([k' v] & -> & Hkv).
    destruct (Hin _ _ Hkv) as (info & Hinfo & Hp). specialize (Hp Hproto).
    exists entries, v, info.
    repeat (split; [done|]). cbn in Hf.
    destruct (place byHash info) as [t|m|i]; destruct Hp as (Hf' & _); congruence.
  - destruct (Hout k (or_introl Hk)) as (Hf' & _). congruence.
Qed.

(** C4.  In every checked contract [checkFiles] returns, a key of
    [found] holds a text whose keccak256 is the digest the manifest
    declares for the key: the text is either the manifest's own inline
    content, or the content of a line-ending variation of a supplied
    source file, which the hash index holds under exactly that digest. *)
Theorem checkFiles_found_digest (files files' : list PathBuffer)
    (unused unused' : option (list string)) (cs : list CheckedContract) :
  checkFiles files unused = (Ok (cs, unused'), files') ->
  exists metadataFiles sourceFiles,
    splitFiles (parseFiles files') = Ok (metadataFiles, sourceFiles)
    /\ forall c k text, c ∈ cs -> solidity c !! k = Some text ->
         exists entries v info,
           declaredSources (metadata c) = Ok entries
           /\ (k, v) ∈ entries /\ sourceInfo v = Ok info
           /\ info_keccak256 info = Some (keccak256 text)
           /\ (info_content info = Some text
               \/ exists variation supplied,
                    storeByHash sourceFiles !! keccak256 text = Some variation
                    /\ content variation = text
                    /\ supplied ∈ sourceFiles
                    /\ variation ∈ generateVariations supplied).
Proof.
  intros H. apply checkFiles_Ok in H as (_ & mds & srcs & Hsplit & HF).
  apply Forall2_Checked in HF as [Hmd Hcs].
  exists mds, srcs. split; [exact Hsplit|].
  intros c k text Hc Hk. destruct (Hcs c Hc) as (r & Hr & Heq).
  assert (solidity c = foundSources r) as Hsol by (by rewrite Heq).
  rewrite Hsol in Hk.
  destruct (found_Placed _ _ _ _ _ Hr Hk) as (entries & v & info & He & Hin & Hinfo & Hp).
  exists entries, v, info. repeat (split; [done|]).
  unfold place in Hp.
  destruct (info_content info) as [[|a s]|] eqn:Hc'.
  - destruct (info_keccak256 info) as [h|] eqn:Hh; [|discriminate]. cbn in Hp.
    destruct (storeByHash srcs !! h) as [pc|] eqn:Hpc; [|discriminate].
    destruct (content pc) as [|a s] eqn:Hcpc; [discriminate|]. injection Hp as <-.
    destruct (storeByHash_lookup _ _ _ Hpc) as (Hhash & supplied & Hs & Hv).
    rewrite Hcpc in Hhash. subst h. split; [done|]. right. by exists pc, supplied.
  - case_bool_decide as Hd; [|discriminate]. injection Hp as <-.
    split; [done|]. by left.
  - destruct (info_keccak256 info) as [h|] eqn:Hh; [|discriminate]. cbn in Hp.
    destruct (storeByHash srcs !! h) as [pc|] eqn:Hpc; [|discriminate].
    destruct (content pc) as [|a s] eqn:Hcpc; [discriminate|]. injection Hp as <-.
    destruct (storeByHash_lookup _ _ _ Hpc) as (Hhash & supplied & Hs & Hv).
    rewrite Hcpc in Hhash. subst h. split; [done|]. right. by exists pc, supplied.
Qed.

(** The entry without its [content]. *)
Lemma sourceInfo_delete_content (m : gmap string json) (info : SourceInfo) :
  sourceInfo (JObj m) = Ok info ->
  sourceInfo (JObj (delete "content" m))
  = Ok {| info_content := None;
          info_keccak256 := info_keccak256 info;
          info_urls := info_urls info |}.
Proof.
  unfold sourceInfo. cbn [member field].
  rewrite lookup_delete_eq, !lookup_delete_ne by done.
  unfold mbind, result_bind.
  destruct (m !! "content") as [[|b|n|s|l|o]|];
    try (destruct (truthy _); [discriminate|]);
    destruct (m !! "keccak256") as [[| | |h| |]|]; try discriminate;
    intros [= <-]; reflexivity.
Qed.

(** X32.  An entry whose inline [content] is the empty string is
    treated as an entry without [content]: the turn of the loop does what
    it does for the entry with [content] removed; the entry is never put
    in [invalid]; under a key other than [__proto__] it is looked up by
    its declared digest in the hash index, and when the index has nothing
    under the digest it is put in [missing] with the declared digest and
    urls; under the key [__proto__] it is put nowhere. *)
Theorem rearrangeSources_empty_content (metadata : option json)
    (byHash : gmap string PathContent) (r : Rearranged)
    (entries : list (string * json)) (k : string) (v : json) (info : SourceInfo) :
  rearrangeSources metadata byHash = Ok r ->
  declaredSources metadata = Ok entries ->
  (k, v) ∈ entries ->
  sourceInfo v = Ok info ->
  info_content info = Some EmptyString ->
  invalidSources r !! k = None
  /\ (k <> "__proto__" ->
      info_keccak256 info ≫= (fun h => byHash !! h) = None ->
      foundSources r !! k = None
      /\ missingSources r !! k
         = Some {| missing_keccak256 := info_keccak256 info;
                   missing_urls := info_urls info |})
  /\ (forall pathContent,
        k <> "__proto__" ->
        info_keccak256 info ≫= (fun h => byHash !! h) = Some pathContent ->
        content pathContent <> EmptyString ->
        foundSources r !! k = Some (content pathContent)
        /\ missingSources r !! k = None)
  /\ (k = "__proto__" -> foundSources r !! k = None /\ missingSources r !! k = None)
  /\ (forall m acc, v = JObj m ->
        rearrangeStep byHash acc (k, JObj m)
        = rearrangeStep byHash acc (k, JObj (delete "content" m))).
Proof.
  intros Hr He Hin Hinfo Hc.
  apply rearrangeSources_Ok in Hr as (entries' & He' & Hnd & Hplaced & Hout).
  rewrite He in He'. injection He' as <-.
  destruct (Hplaced _ _ Hin) as (info' & Hinfo' & Hp).
  rewrite Hinfo in Hinfo'. injection Hinfo' as <-.
  unfold place in Hp. rewrite Hc in Hp.
  split; [|split; [|split; [|split]]].
  - destruct (decide (k = "__proto__")) as [Hk|Hk].
    { by destruct (Hout k (or_intror Hk)) as (_ & _ & ?). }
    specialize (Hp Hk).
    destruct (info_keccak256 info ≫= _) as [pc|]; [destruct (content pc)|]; apply Hp.
  - intros Hk Hmiss. specialize (Hp Hk). rewrite Hmiss in Hp.
    destruct Hp as (Hf & Hm & _). done.
  - intros pc Hk Hhit Hne. specialize (Hp Hk). rewrite Hhit in Hp.
    destruct (content pc) as [|a s]; [done|]. destruct Hp as (Hf & Hm & _). done.
  - intros Hk. by destruct (Hout k (or_intror Hk)) as (? & ? & _).
  - intros m acc ->. unfold rearrangeStep.
    rewrite (sourceInfo_delete_content _ _ Hinfo), Hinfo.
    change (Ok ?a ≫= ?f) with (f a). cbv beta. cbn [info_content info_keccak256 info_urls].
    rewrite Hc. by destruct (info_keccak256 info ≫= _) as [pc|].
Qed.

End Reconciliation.

(** ** Splitting the files into manifests and sources *)

Section Splitting.
Import Validation Text.
Context {rt : Runtime}.

Lemma splitStep_plain (acc : SplitAcc) (file : PathContent) :
  plain file -> splitStep acc file = Ok (classified acc [file]).
Proof.
  unfold plain, splitStep, classified. intros ->. fold (recognize (content file)).
  destruct (recognize (content file)) as [m|] eqn:Hrec; cbn.
  - pose proof (recognize_object _ _ Hrec) as Hm.
    rewrite Hrec. unfold singleTarget.
    destruct m as [| | | | |o]; try discriminate Hm. cbn.
    destruct (o !! "settings") as [[| | | | |st]|]; cbn; try (by rewrite !app_nil_r).
    destruct (st !! "compilationTarget") as [t|]; cbn; [|by rewrite !app_nil_r].
    unfold assertObjectSize. destruct (truthy t); cbn; [|by rewrite !app_nil_r].
    destruct (Nat.eqb (keys_length t) 1); cbn; by rewrite !app_nil_r.
  - rewrite Hrec. rewrite decide_True by done. by rewrite !app_nil_r.
Qed.


Lemma classified_cons (acc : SplitAcc) (file : PathContent) (files : list PathContent) :
  classified (classified acc [file]) files = classified acc (file :: files).
Proof.
  unfold classified. cbn [metadataFiles sourceFiles malformedMetadataFiles].
  rewrite (filter_cons _ file files), (filter_cons _ file []), filter_nil.
  cbn [omap list_omap].
  destruct (recognize (content file)) as [m|] eqn:Hrec.
  - rewrite !decide_False by done. destruct (singleTarget m); cbn;
      by rewrite ?app_nil_r, <- ?app_assoc.
  - rewrite !decide_True by done. cbn. by rewrite ?app_nil_r, <- ?app_assoc.
Qed.

Lemma splitLoop_plain (acc : SplitAcc) (files : list PathContent) :
  Forall plain files -> foldlM splitStep acc files = Ok (classified acc files).
Proof.
  intros HF. revert acc. induction HF as [|file files Hp HF IH]; intros acc.
  - cbn. unfold classified. cbn. rewrite !app_nil_r. by destruct acc.
  - rewrite foldlM_cons, (splitStep_plain _ _ Hp).
    change (Ok ?a ≫= ?f) with (f a). cbv beta. rewrite IH. by rewrite classified_cons.
Qed.

Lemma malformed_classified (files : list PathContent) :
  malformedMetadataFiles (classified emptyAcc files) <> []
  <-> exists file m, file ∈ files /\ recognize (content file) = Some m
                     /\ singleTarget m = false.
Proof.
  cbn. split.
  - intros Hne. destruct (omap _ files) as [|p ps] eqn:Ho; [done|].
    assert (Hp : p ∈ omap (fun file => match recognize (content file) with
                            | Some m => if singleTarget m then None else Some (path file)
                            | None => None
                            end) files) by (rewrite Ho; by left).
    apply list_elem_of_omap in Hp as (file & Hin & Hf). exists file.
    destruct (recognize (content file)) as [m|]; [|discriminate]. exists m.
    destruct (singleTarget m); [discriminate|done].
  - intros (file & m & Hin & Hrec & Hs) Ho.
    assert (Hp : path file ∈ omap (fun file => match recognize (content file) with
                            | Some m => if singleTarget m then None else Some (path file)
                            | None => None
                            end) files).
    { apply list_elem_of_omap. exists file. by rewrite Hrec, Hs. }
    rewrite Ho in Hp. by apply elem_of_nil in Hp.
Qed.

Lemma manifests_classified (files : list PathContent) :
  metadataFiles (classified emptyAcc files) <> []
  <-> exists file m, file ∈ files /\ recognize (content file) = Some m
                     /\ singleTarget m = true.
Proof.
  cbn. split.
  - intros Hne. destruct (omap _ files) as [|p ps] eqn:Ho; [done|].
    assert (Hp : p ∈ omap (fun file => match recognize (content file) with
                            | Some m => if singleTarget m then Some (Some m) else None
                            | None => None
                            end) files) by (rewrite Ho; by left).
    apply list_elem_of_omap in Hp as (file & Hin & Hf). exists file.
    destruct (recognize (content file)) as [m|]; [|discriminate]. exists m.
    destruct (singleTarget m); [done|discriminate].
  - intros (file & m & Hin & Hrec & Hs) Ho.
    assert (Hp : Some m ∈ omap (fun file => match recognize (content file) with
                            | Some m => if singleTarget m then Some (Some m) else None
                            | None => None
                            end) files).
    { apply list_elem_of_omap. exists file. by rewrite Hrec, Hs. }
    rewrite Ho in Hp. by apply elem_of_nil in Hp.
Qed.

(** The outcome of [splitFiles] on plain files. *)
Lemma splitFiles_plain (files : list PathContent) :
  Forall plain files ->
  ((exists file m, file ∈ files /\ recognize (content file) = Some m
                   /\ singleTarget m = false)
   <-> exists responsibleFiles, splitFiles files = Throw (MalformedMetadata responsibleFiles))
  /\ ((forall file, file ∈ files -> recognize (content file) = None)
      <-> splitFiles files = Throw MetadataNotFound)
  /\ (forall manifests sources,
        splitFiles files = Ok (manifests, sources) ->
        manifests = metadataFiles (classified emptyAcc files)
        /\ sources = filter (fun file => recognize (content file) = None) files).
Proof.
  intros Hplain. unfold splitFiles.
  rewrite (splitLoop_plain _ _ Hplain). change (Ok ?a ≫= ?f) with (f a). cbv beta.
  pose proof (malformed_classified files) as Hbad.
  pose proof (manifests_classified files) as Hgood.
  destruct (malformedMetadataFiles (classified emptyAcc files)) as [|p ps] eqn:Hmal.
  - assert (Hnobad : ~ exists file m, file ∈ files /\ recognize (content file) = Some m
                                       /\ singleTarget m = false) by (rewrite <- Hbad; auto).
    destruct (metadataFiles (classified emptyAcc files)) as [|md mds] eqn:Hmd.
    + split; [|split].
      * split; [done|]. intros [? [=]].
      * split; [done|]. intros _ file Hin.
        destruct (recognize (content file)) as [m|] eqn:Hrec; [exfalso|done].
        destruct (singleTarget m) eqn:Hs.
        -- apply (proj2 Hgood); [by eauto|done].
        -- apply Hnobad. eauto.
      * intros ?? [=].
    + split; [|split].
      * split; [done|]. intros [? [=]].
      * split; [|discriminate]. intros Hnone. exfalso.
        destruct (proj1 Hgood) as (file & m & Hin & Hrec & _); [done|].
        rewrite (Hnone file Hin) in Hrec. discriminate.
      * intros ?? [= <- <-]. done.
  - split; [|split].
    + split; [by eauto|]. intros _. apply Hbad. done.
    + split; [|discriminate]. intros Hnone. exfalso.
      destruct (proj1 Hbad) as (file & m & Hin & Hrec & _); [done|].
      rewrite (Hnone file Hin) in Hrec. discriminate.
    + intros ?? [=].
Qed.


Lemma sourceInfo_Throw (v : json) (e : error) :
  sourceInfo v = Throw e -> runtimeError e.
Proof.
  unfold sourceInfo, runtimeError, mbind, result_bind, member.
  destruct v as [| | | | |m]; cbn; try (intros [= <-]; by auto).
  destruct (m !! "content") as [[|[]|n|s|l|o]|]; cbn;
    try (intros [= <-]; by auto);
    try (destruct (negb _); [intros [= <-]; by auto|]);
    destruct (m !! "keccak256") as [[| | |h| |]|]; intros [= <-]; auto.
Qed.

Lemma rearrangeSources_Throw (metadata : option json) (byHash : gmap string PathContent)
    (e : error) :
  rearrangeSources metadata byHash = Throw e -> runtimeError e.
Proof.
  unfold rearrangeSources. intros H.
  apply bind_Throw in H as [H|(sources & _ & H)].
  { unfold member in H. destruct metadata as [[]|]; try discriminate;
      injection H as <-; by left. }
  apply bind_Throw in H as [H|(entries & _ & H)].
  { unfold for_in in H. destruct sources as [[]|]; try discriminate.
    injection H as <-. by right. }
  revert H. apply foldlM_Throw. intros acc [k v] e' H.
  unfold rearrangeStep in H. apply bind_Throw in H as [H|(info & _ & H)].
  - by eapply sourceInfo_Throw.
  - destruct (info_content info) as [[|c r]|];
      repeat (match type of H with
              | context [match ?x with _ => _ end] => destruct x
              | context [if ?x then _ else _] => destruct x
              end; try discriminate H); discriminate H.
Qed.

(** After the archives are expanded, [checkFiles] throws an error of
    [splitFiles] exactly when [splitFiles] does. *)
Lemma checkFiles_split_error (files files' : list PathBuffer)
    (unused : option (list string)) (e : error) :
  unzipFiles files = (Ok (), files') ->
  ~ runtimeError e ->
  (checkFiles files unused).1 = Throw e <-> splitFiles (parseFiles files') = Throw e.
Proof.
  intros Hz Hne. unfold checkFiles. rewrite Hz. cbn [fst].
  change (Ok () ≫= ?f) with (f ()). cbv beta.
  split.
  - intros H. apply bind_Throw in H as [H|([mds srcs] & _ & H)]; [done|]. exfalso.
    apply bind_Throw in H as [H|([cs used] & _ & H)]; [|discriminate].
    apply Hne. revert H. apply foldlM_Throw. intros [cs used] md e' H.
    apply bind_Throw in H as [H|(r & _ & H)]; [|discriminate].
    by eapply rearrangeSources_Throw.
  - intros ->. reflexivity.
Qed.

(** C2, as the code has it.  For files none of which is a Hardhat build
    output and whose archives have been expanded: [checkFiles] throws
    "Metadata file not found" exactly when no file is recognized as a
    manifest, and it throws the error of malformed manifests exactly when
    some recognized manifest fails the check of a single
    [settings.compilationTarget], whether or not others pass it. *)
Theorem checkFiles_failures (files files' : list PathBuffer)
    (unused : option (list string)) :
  unzipFiles files = (Ok (), files') ->
  Forall plain (parseFiles files') ->
  ((forall file, file ∈ parseFiles files' -> recognize (content file) = None)
   <-> (checkFiles files unused).1 = Throw MetadataNotFound)
  /\ ((exists file m, file ∈ parseFiles files' /\ recognize (content file) = Some m
                       /\ singleTarget m = false)
      <-> exists responsibleFiles,
            (checkFiles files unused).1 = Throw (MalformedMetadata responsibleFiles)).
Proof.
  intros Hz Hplain.
  destruct (splitFiles_plain _ Hplain) as (Hbad & Hnone & _).
  split.
  - rewrite Hnone. symmetry. apply checkFiles_split_error; [done|].
    intros [|]; discriminate.
  - rewrite Hbad. split; intros [msg H]; exists msg;
      apply (checkFiles_split_error _ _ unused _ Hz); try done;
      intros [|]; discriminate.
Qed.

End Splitting.

(** ** Expansion of the archives, and what it does to the caller's array *)

Section Archives.
Import Validation Text.
Context {rt : Runtime}.

Lemma unzipLoop_expanded (kept rest allUnzipped : list PathBuffer) :
  (forall file, file ∈ rest -> isZip (buffer file) = true ->
                is_Some (JSZip_members (buffer file))) ->
  unzipLoop kept rest allUnzipped
  = (Ok (),
     kept ++ filter (fun file => isZip (buffer file) = false) rest
     ++ allUnzipped
     ++ (file ← filter (fun file => isZip (buffer file) = true) rest;
         default [] (JSZip_members (buffer file)))).
Proof.
  revert kept allUnzipped. induction rest as [|file rest IH]; intros kept allUnzipped Hok.
  - cbn. by rewrite !app_nil_r.
  - cbn [unzipLoop]. rewrite !filter_cons.
    destruct (isZip (buffer file)) eqn:Hz.
    + rewrite decide_False by done. rewrite decide_True by done.
      destruct (Hok file) as [members Hm]; [by left|done|].
      unfold unzip. rewrite Hm. rewrite IH by (intros f Hf; apply Hok; by right).
      cbn. rewrite Hm. cbn. by rewrite <- !app_assoc.
    + rewrite decide_True by done. rewrite decide_False by done.
      rewrite IH by (intros f Hf; apply Hok; by right).
      by rewrite <- !app_assoc.
Qed.

Lemma unzipFiles_expanded (files : list PathBuffer) :
  (forall file, file ∈ files -> isZip (buffer file) = true ->
                is_Some (JSZip_members (buffer file))) ->
  unzipFiles files = (Ok (), expanded files).
Proof. intros Hok. unfold unzipFiles. by rewrite unzipLoop_expanded. Qed.

Lemma expanded_no_archive (files : list PathBuffer) :
  Forall (fun file => isZip (buffer file) = false) files -> expanded files = files.
Proof.
  intros HF. unfold expanded.
  assert (filter (fun file => isZip (buffer file) = false) files = files) as ->.
  { induction HF as [|f fs Hf HF IH]; [done|].
    rewrite filter_cons, decide_True by done. by rewrite IH. }
  assert (filter (fun file => isZip (buffer file) = true) files = []) as ->.
  { induction HF as [|f fs Hf HF IH]; [done|].
    rewrite filter_cons, decide_False by (rewrite Hf; done). exact IH. }
  cbn. by rewrite app_nil_r.
Qed.

Lemma unzipFiles_no_archive (files : list PathBuffer) :
  Forall (fun file => isZip (buffer file) = false) files ->
  unzipFiles files = (Ok (), files).
Proof.
  intros HF. rewrite unzipFiles_expanded, expanded_no_archive; [done|done|].
  intros file Hin Hz. rewrite Forall_forall in HF. rewrite (HF _ Hin) in Hz. discriminate.
Qed.

Lemma checkFiles_files (files : list PathBuffer) (unused : option (list string)) :
  (checkFiles files unused).2 = (unzipFiles files).2.
Proof. unfold checkFiles. by destruct (unzipFiles files). Qed.

(** C6, as the code has it.  A call of [checkFiles] leaves the caller's
    array as [unzipFiles] leaves it: unchanged when the array holds no
    archive; and when it holds archives that can all be read, with every
    archive removed and the members of the archives appended, in order. *)
Theorem checkFiles_array (files : list PathBuffer) (unused : option (list string)) :
  (Forall (fun file => isZip (buffer file) = false) files ->
   (checkFiles files unused).2 = files)
  /\ ((forall file, file ∈ files -> isZip (buffer file) = true ->
                    is_Some (JSZip_members (buffer file))) ->
      (checkFiles files unused).2
      = filter (fun file => isZip (buffer file) = false) files
        ++ (file ← filter (fun file => isZip (buffer file) = true) files;
            default [] (JSZip_members (buffer file)))).
Proof.
  rewrite checkFiles_files. split.
  - intros HF. by rewrite unzipFiles_no_archive.
  - intros Hok. by rewrite unzipFiles_expanded.
Qed.

End Archives.

(** ** useAllSources *)

Section AllSources.
Import Validation Text.
Context {rt : Runtime}.


Lemma keyOf_index (i : nat) (elem : PathContent) :
  path elem = EmptyString -> keyOf i elem <> "__proto__".
Proof. intros He. unfold keyOf. rewrite He. cbn. discriminate. Qed.

Lemma pathContentArrayToStringMap_snoc (l : list PathContent) (elem : PathContent) :
  pathContentArrayToStringMap (l ++ [elem])
  = assign (keyOf (length l) elem) (content elem) (pathContentArrayToStringMap l).
Proof.
  unfold pathContentArrayToStringMap. rewrite imap_app, foldl_app. cbn.
  rewrite Nat.add_0_r. unfold keyOf. by destruct (negb _).
Qed.

(** Every source whose key is not [__proto__] is in the map under its
    key, and the map holds nothing else. *)
Lemma pathContentArrayToStringMap_lookup (l : list PathContent) :
  (forall i elem, l !! i = Some elem -> keyOf i elem <> "__proto__" ->
     is_Some (pathContentArrayToStringMap l !! keyOf i elem))
  /\ (forall k text, pathContentArrayToStringMap l !! k = Some text ->
        k <> "__proto__"
        /\ exists i elem, l !! i = Some elem /\ keyOf i elem = k /\ content elem = text).
Proof.
  induction l as [|elem l [IH1 IH2]] using rev_ind.
  - split; [intros i elem H; by rewrite lookup_nil in H|].
    intros k text H. unfold pathContentArrayToStringMap in H. cbn in H.
    by rewrite lookup_empty in H.
  - rewrite pathContentArrayToStringMap_snoc. split.
    + intros i e Hi Hp.
      destruct (decide (keyOf (length l) elem = keyOf i e)) as [->|Hne].
      * rewrite lookup_assign_eq by done. by eexists.
      * rewrite lookup_assign_ne by done.
        apply lookup_app_Some in Hi as [Hi|[Hge Hi]]; [by apply IH1|].
        apply list_lookup_singleton_Some in Hi as [Hi ->].
        replace i with (length l) in Hne by lia. done.
    + intros k text Hk.
      destruct (decide (k = "__proto__")) as [->|Hp].
      { rewrite lookup_assign_proto in Hk. by destruct (IH2 _ _ Hk). }
      split; [done|].
      destruct (decide (keyOf (length l) elem = k)) as [<-|Hne].
      * rewrite lookup_assign_eq in Hk by done. injection Hk as <-.
        exists (length l), elem. split; [|done].
        by rewrite lookup_app_r, Nat.sub_diag by lia.
      * rewrite lookup_assign_ne in Hk by done.
        destruct (IH2 _ _ Hk) as (_ & i & e & Hi & Hkey & Hc). exists i, e.
        split; [|done]. by apply lookup_app_l_Some.
Qed.





End AllSources.

(** ** Examples, on the example runtime *)

Section ValidationExamples.
Import Validation Text.
#[local] Existing Instance example_rt.

Lemma example_rearrangeSources :
  rearrangeSources (Some example_manifest) example_index = Ok example_rearranged.
Proof. vm_compute. reflexivity. Qed.

Lemma example_checkFiles :
  checkFiles example_files None = (Ok ([example_contract], None), example_files).
Proof. vm_compute. reflexivity. Qed.

Lemma example_unzipFiles_two :
  unzipFiles example_files_two = (Ok (), example_files_two).
Proof. vm_compute. reflexivity. Qed.

(** The example files: A is found through a variation of the supplied
    file, B is found inline, C and E are missing, D is invalid. *)
Example checkFiles_example :
  solidity example_contract = {[ "A.sol" := "contract A {}"; "B.sol" := "contract B {}" ]}
  /\ dom (missing example_contract) = {[ "C.sol"; "E.sol" ]}
  /\ dom (invalid example_contract) = {[ "D.sol" ]}
  /\ checkFiles example_files (Some [])
     = (Ok ([example_contract], Some []), example_files).
Proof. repeat split; vm_compute; reflexivity. Qed.

Lemma example_extractMetadataFromString :
  extractMetadataFromString (stringify example_manifest) = Some example_manifest.
Proof. vm_compute. reflexivity. Qed.

Lemma extractMetadataFromString_recognizes_witness : Recognizable example_manifest.
Proof.
  exact (proj1 (extractMetadataFromString_recognizes (stringify example_manifest))
               example_manifest example_extractMetadataFromString).
Defined.

(** Against C3 as stated: a value whose [output.abi] is an empty array,
    whose [output.userdoc] and [output.devdoc] are empty objects and whose
    [sources] is an empty object is recognized as a manifest. *)
Lemma empty_fields_recognized :
  opt_field (field bare_manifest "output") "abi" = Some (JArr [])
  /\ opt_field (field bare_manifest "output") "userdoc" = Some (JObj ∅)
  /\ field bare_manifest "sources" = Some (JObj ∅)
  /\ isMetadata (Some bare_manifest) = true
  /\ extractMetadataFromString (stringify bare_manifest) = Some bare_manifest.
Proof. repeat split; vm_compute; reflexivity. Qed.

Lemma checkFiles_partition_witness :
  exists metadataFiles sourceFiles,
    splitFiles (parseFiles example_files) = Ok (metadataFiles, sourceFiles)
    /\ metadata <$> [example_contract] = metadataFiles.
Proof.
  destruct (checkFiles_partition example_files example_files None None
              [example_contract] example_checkFiles) as (mds & srcs & Hs & Hm & _).
  exists mds, srcs. exact (conj Hs Hm).
Defined.

Lemma checkFiles_found_digest_witness :
  exists metadataFiles sourceFiles,
    splitFiles (parseFiles example_files) = Ok (metadataFiles, sourceFiles).
Proof.
  destruct (checkFiles_found_digest example_files example_files None None
              [example_contract] example_checkFiles) as (mds & srcs & Hs & _).
  exists mds, srcs. exact Hs.
Defined.

(** Against C2 as stated: of two manifests the first passes the check of
    a single compilation target and the second has two targets, and
    [checkFiles] throws the error of malformed manifests. *)
Lemma checkFiles_malformed_despite_good :
  recognize (stringify example_manifest) = Some example_manifest
  /\ singleTarget example_manifest = true
  /\ recognize (stringify two_target_manifest) = Some two_target_manifest
  /\ singleTarget two_target_manifest = false
  /\ (checkFiles example_files_two None).1 = Throw (MalformedMetadata "two.json").
Proof. repeat split; vm_compute; reflexivity. Qed.

Lemma example_two_plain : Forall plain (parseFiles example_files_two).
Proof. repeat constructor. Qed.

Lemma example_two_malformed :
  exists file m, file ∈ parseFiles example_files_two
                 /\ recognize (content file) = Some m /\ singleTarget m = false.
Proof.
  exists {| path := "two.json"; content := stringify two_target_manifest |},
         two_target_manifest.
  split; [|split; vm_compute; reflexivity].
  apply elem_of_cons; right. apply list_elem_of_singleton. vm_compute. reflexivity.
Qed.

Lemma checkFiles_failures_witness :
  exists responsibleFiles,
    (checkFiles example_files_two None).1 = Throw (MalformedMetadata responsibleFiles).
Proof.
  exact (proj1 (proj2 (checkFiles_failures example_files_two example_files_two None
                         example_unzipFiles_two example_two_plain))
               example_two_malformed).
Defined.

Lemma example_no_archive : Forall (fun file => isZip (buffer file) = false) example_files.
Proof. repeat constructor. Qed.

Lemma checkFiles_array_witness : (checkFiles example_files None).2 = example_files.
Proof.
  exact (proj1 (checkFiles_array example_files None) example_no_archive).
Defined.

(** Against C6 as stated: for a manifest and an archive with the source,
    [checkFiles] succeeds, and the caller's array, which held the manifest
    and the archive, holds the manifest and the member of the archive. *)
Lemma checkFiles_changes_array :
  (exists c, (checkFiles example_files_zip None).1 = Ok ([c], None))
  /\ isZip (buffer example_zip) = true
  /\ bpath <$> example_files_zip = ["metadata.json"; "sources.zip"]
  /\ bpath <$> (checkFiles example_files_zip None).2 = ["metadata.json"; "src/A.sol"]
  /\ (checkFiles example_files_zip None).2 <> example_files_zip.
Proof.
  split; [exists example_contract; vm_compute; reflexivity|].
  split; [reflexivity|].
  split; [reflexivity|]. split; [vm_compute; reflexivity|].
  intros H. apply (f_equal (fmap bpath)) in H. vm_compute in H. discriminate H.
Qed.




Example useAllSources_example :
  exists c', useAllSources example_contract example_files = (Ok c', example_files)
    /\ solidity c'
       = {[ "A.sol" := "contract A {}"; "B.sol" := "contract B {}";
            "src/A.sol" := "contract A {}" +:+ String CR (String LF EmptyString) ]}.
Proof. eexists. split; vm_compute; reflexivity. Qed.

Lemma example_declaredSources :
  declaredSources (Some example_manifest) = Ok (map_to_list example_sources).
Proof. reflexivity. Qed.

Lemma example_E_declared : ("E.sol", example_E) ∈ map_to_list example_sources.
Proof. apply elem_of_map_to_list. reflexivity. Qed.

Lemma example_E_sourceInfo : sourceInfo example_E = Ok example_E_info.
Proof. reflexivity. Qed.

Lemma example_E_miss :
  info_keccak256 example_E_info ≫= (fun h => example_index !! h) = None.
Proof. vm_compute. reflexivity. Qed.

Lemma rearrangeSources_empty_content_witness :
  invalidSources example_rearranged !! "E.sol" = None
  /\ foundSources example_rearranged !! "E.sol" = None
  /\ missingSources example_rearranged !! "E.sol"
     = Some {| missing_keccak256 := Some "0xcontract E {}";
               missing_urls := Some (JArr [JStr "bzz-raw://e"]) |}.
Proof.
  destruct (rearrangeSources_empty_content
              (Some example_manifest) example_index example_rearranged
              (map_to_list example_sources) "E.sol" example_E example_E_info
              example_rearrangeSources example_declaredSources example_E_declared
              example_E_sourceInfo eq_refl) as (Hinv & Hmiss & _).
  split; [exact Hinv|]. exact (Hmiss ltac:(discriminate) example_E_miss).
Defined.

End ValidationExamples.

(** ** Sources named [__proto__] *)

Section PrototypeExamples.
Import Validation Text.
#[local] Existing Instance proto_rt.

(** C1, on a manifest that declares a source named [__proto__]:
    [checkFiles] succeeds on the manifest, the source of A and a file
    named [__proto__], and returns one contract, for this manifest; the
    manifest declares the two sources [A.sol] and [__proto__], and the
    contract has [A.sol] among its found sources and [__proto__] in none
    of [solidity], [missing] and [invalid]. *)
Theorem checkFiles_proto_unplaced :
  exists c,
    (checkFiles proto_files None).1 = Ok ([c], None)
    /\ metadata c = Some proto_manifest
    /\ declaredSources (metadata c) = Ok (map_to_list proto_sources)
    /\ is_Some (proto_sources !! "__proto__")
    /\ is_Some (solidity c !! "A.sol")
    /\ solidity c !! "__proto__" = None
    /\ missing c !! "__proto__" = None
    /\ invalid c !! "__proto__" = None.
Proof.
  eexists. split; [vm_compute; reflexivity|]. split; [reflexivity|].
  split; [reflexivity|]. split; [by eexists|]. split; [by eexists|].
  split; [|split]; vm_compute; reflexivity.
Qed.

(** C10, on the same manifest: the source named [__proto__] has an empty
    inline content and a digest that no variation of a supplied file has;
    [rearrangeSources] returns and the source is not in [missing], nor
    anywhere else, while the same entry under the name [P.sol] is in
    [missing] with its digest and its urls. *)
Theorem rearrangeSources_proto_not_missing :
  exists r r' entry,
    proto_sources !! "__proto__" = Some entry
    /\ field entry "content" = Some (JStr EmptyString)
    /\ field entry "keccak256" = Some (JStr "0xcontract P {}")
    /\ storeByHash (parseFiles [example_A]) !! "0xcontract P {}" = None
    /\ rearrangeSources (Some proto_manifest) (storeByHash (parseFiles [example_A])) = Ok r
    /\ missingSources r !! "__proto__" = None
    /\ foundSources r !! "__proto__" = None
    /\ invalidSources r !! "__proto__" = None
    /\ rearrangeSources
         (Some (manifest_with {[ "A.sol" := JStr "A" ]} {[ "P.sol" := entry ]}))
         (storeByHash (parseFiles [example_A])) = Ok r'
    /\ missingSources r' !! "P.sol"
       = Some {| missing_keccak256 := Some "0xcontract P {}";
                 missing_urls := Some (JArr [JStr "bzz-raw://p"]) |}.
Proof.
  eexists _, _, _. split; [reflexivity|]. split; [reflexivity|]. split; [reflexivity|].
  split; [vm_compute; reflexivity|]. split; [vm_compute; reflexivity|].
  split; [vm_compute; reflexivity|]. split; [vm_compute; reflexivity|].
  split; [vm_compute; reflexivity|]. split; vm_compute; reflexivity.
Qed.

(** C7, on the same files: [checkFiles] succeeds and returns one contract;
    the file named [__proto__] is one of the files that are not manifests,
    and the source map [useAllSources] returns for the contract and these
    files holds the source of A under its two names and nothing under
    [__proto__]. *)
Theorem useAllSources_proto_dropped :
  exists c c' manifests sources,
    (checkFiles proto_files None).1 = Ok ([c], None)
    /\ splitFiles (parseFiles proto_files) = Ok (manifests, sources)
    /\ {| path := "__proto__"; content := "contract Q {}" |} ∈ sources
    /\ (useAllSources c proto_files).1 = Ok c'
    /\ solidity c' !! "__proto__" = None
    /\ solidity c'
       = {[ "A.sol" := "contract A {}";
            "src/A.sol" := "contract A {}" +:+ String CR (String LF EmptyString) ]}.
Proof.
  eexists _, _, _, _. split; [vm_compute; reflexivity|].
  split; [vm_compute; reflexivity|].
  split; [apply list_elem_of_further, list_elem_of_here|].
  split; [vm_compute; reflexivity|]. split; vm_compute; reflexivity.
Qed.

End PrototypeExamples.

(** ** The chain monitor *)

Section MonitorProperties.
Import Monitor.
Context {sv : Services}.

(** *** Doubles *)

Lemma shr_1_nonneg (mrs : shr_record) : (0 <= shr_m mrs -> 0 <= shr_m (shr_1 mrs))%Z.
Proof. destruct mrs as [[|[p|p|]|p] r s]; cbn; lia. Qed.

Lemma iter_pos_shr_1_nonneg (p : positive) (mrs : shr_record) :
  (0 <= shr_m mrs -> 0 <= shr_m (SpecFloat.iter_pos shr_1 p mrs))%Z.
Proof.
  revert mrs. induction p as [p IH|p IH|]; intros mrs H; cbn [SpecFloat.iter_pos].
  - apply IH, IH. by apply shr_1_nonneg.
  - by apply IH, IH.
  - by apply shr_1_nonneg.
Qed.

Lemma shr_fexp_nonneg (m e : Z) (l : location) :
  (0 <= m -> 0 <= shr_m (shr_fexp prec emax m e l).1)%Z.
Proof.
  intros H. unfold shr_fexp, shr.
  assert (H0 : (0 <= shr_m (shr_record_of_loc m l))%Z) by (by destruct l as [|[]]).
  destruct (_ - e)%Z; cbn [fst]; [done| |done]. by apply iter_pos_shr_1_nonneg.
Qed.

Lemma round_nearest_even_nonneg (m : Z) (l : location) :
  (0 <= m -> 0 <= round_nearest_even m l)%Z.
Proof. intros H. destruct l as [|[]]; cbn; [done| |done|lia]. destruct (Z.even m); lia. Qed.

(** Rounding gives a number. *)
Lemma binary_round_aux_number (s : bool) (m e : Z) (l : location) :
  (0 <= m)%Z -> isNaN (binary_round_aux prec emax s m e l) = false.
Proof.
  intros H. unfold binary_round_aux.
  pose proof (shr_fexp_nonneg m e l H) as H1.
  destruct (shr_fexp prec emax m e l) as [mrs' e']. cbn [fst] in H1.
  pose proof (shr_fexp_nonneg _ e' loc_Exact
                (round_nearest_even_nonneg _ (loc_of_shr_record mrs') H1)) as H2.
  destruct (shr_fexp prec emax _ e' loc_Exact) as [mrs'' e'']. cbn [fst] in H2.
  destruct (shr_m mrs'') as [|p|p]; [done| |lia]. by destruct (_ <=? _)%Z.
Qed.

Lemma mul_number (x y : number) :
  finite x -> isNaN y = false -> isNaN (mul x y) = false.
Proof.
  destruct x as [| | |sx mx ex]; try done. intros _.
  destruct y as [sy|sy| |sy my ey]; try done. intros _.
  by apply binary_round_aux_number.
Qed.

Lemma div_number (x y : number) :
  finite x -> isNaN y = false -> isNaN (div x y) = false.
Proof.
  destruct x as [| | |sx mx ex]; try done. intros _.
  destruct y as [sy|sy| |sy my ey]; try done. intros _.
  unfold div, SFdiv, SFdiv_core_binary.
  set (m' := match _ with Z0 => Z.pos mx | Zpos _ => _ | Zneg _ => 0%Z end).
  assert (Hm : (0 <= m')%Z).
  { unfold m'. destruct (_ - _ - _)%Z; [lia| |lia]. apply Z.shiftl_nonneg. lia. }
  pose proof (Z_div_mod m' (Z.pos my) ltac:(lia)) as Hd.
  destruct (Z.div_eucl m' (Z.pos my)) as [q r]. apply binary_round_aux_number. nia.
Qed.

Lemma SFcompare_refl (x : number) : isNaN x = false -> SFcompare x x = Some Eq.
Proof.
  destruct x as [s|[|]| |[|] m e]; try done; intros _; cbn;
    rewrite Z.compare_refl, Pos.compare_cont_refl; done.
Qed.

Lemma SFcompare_antisym (x y : number) :
  SFcompare y x = option_map CompOpp (SFcompare x y).
Proof.
  destruct x as [sx|[|]| |[|] mx ex], y as [sy|[|]| |[|] my ey]; try done;
    try (by destruct sx); try (by destruct sy); cbn;
    rewrite (Z.compare_antisym ex ey);
    change (Pos.compare_cont Eq my mx) with (Pos.compare_cont (CompOpp Eq) my mx);
    rewrite <- (Pos.compare_cont_antisym mx my Eq);
    destruct (ex ?= ey)%Z; cbn; try done;
    by destruct (Pos.compare_cont Eq mx my).
Qed.

Lemma Math_max_number (x y : number) :
  isNaN x = false -> isNaN y = false -> isNaN (Math_max x y) = false.
Proof.
  intros Hx Hy. unfold Math_max.
  destruct (SFcompare x y) as [[]|] eqn:Hc; try done.
  - by destruct x as [[|]|[|]| |].
  - by destruct x as [|[|]| |], y as [|[|]| |].
Qed.

Lemma Math_min_number (x y : number) :
  isNaN x = false -> isNaN y = false -> isNaN (Math_min x y) = false.
Proof.
  intros Hx Hy. unfold Math_min.
  destruct (SFcompare x y) as [[]|] eqn:Hc; try done.
  - by destruct x as [[|]|[|]| |].
  - by destruct x as [|[|]| |], y as [|[|]| |].
Qed.

Lemma Math_max_lower (x y : number) :
  isNaN x = false -> isNaN y = false -> leb y (Math_max x y) = true.
Proof.
  intros Hx Hy. unfold Math_max, leb, SFleb.
  destruct (SFcompare x y) as [[]|] eqn:Hc.
  - destruct x as [[|]|[|]| |]; rewrite ?SFcompare_refl by done; try done;
      by rewrite SFcompare_antisym, Hc.
  - by rewrite SFcompare_refl.
  - by rewrite SFcompare_antisym, Hc.
  - by destruct x as [|[|]| |], y as [|[|]| |].
Qed.

Lemma Math_min_upper (x y : number) :
  isNaN x = false -> isNaN y = false -> leb (Math_min x y) y = true.
Proof.
  intros Hx Hy. unfold Math_min, leb, SFleb.
  destruct (SFcompare x y) as [[]|] eqn:Hc.
  - destruct x as [[|]|[|]| |]; rewrite ?SFcompare_refl by done; try done;
      by rewrite Hc.
  - by rewrite Hc.
  - by rewrite SFcompare_refl.
  - by destruct x as [|[|]| |], y as [|[|]| |].
Qed.

Lemma Math_max_upper (x y u : number) :
  leb x u = true -> leb y u = true -> leb (Math_max x y) u = true.
Proof.
  intros Hx Hy. unfold Math_max.
  destruct (SFcompare x y) as [[]|] eqn:Hc; try done.
  - by destruct x as [[|]|[|]| |].
  - by destruct x as [|[|]| |], y as [|[|]| |].
Qed.

Lemma Math_max_positive (x y : number) :
  positiveFinite y -> isNaN x = false -> x <> S754_infinity false ->
  positiveFinite (Math_max x y).
Proof.
  intros Hy Hx Hinf. unfold Math_max.
  destruct x as [sx|[|]| |[|] mx ex], y as [sy|[|]| |[|] my ey]; try done; cbn;
    repeat match goal with |- context [match ?c with _ => _ end] => destruct c end;
    done.
Qed.

Lemma Math_min_finite (x y : number) :
  isNaN x = false -> finite y -> Math_min x y <> S754_infinity false.
Proof.
  intros Hx Hy. unfold Math_min.
  destruct x as [sx|[|]| |[|] mx ex], y as [sy|[|]| |[|] my ey]; try done; cbn;
    repeat match goal with |- context [match ?c with _ => _ end] => destruct c end;
    done.
Qed.

(** The literals are the doubles the quotients round to, and the
    products of the defaults are exact. *)
Lemma literals :
  literal_1_1 = div (of_Z 11) (of_Z 10)
  /\ literal_0_5 = div (of_Z 1) (of_Z 2)
  /\ mul literal_0_5 (of_Z 1000) = of_Z 500
  /\ mul (of_Z 30) (of_Z 1000) = of_Z 30000
  /\ mul (of_Z 10) (of_Z 1000) = of_Z 10000.
Proof. repeat split; vm_compute; reflexivity. Qed.

(** *** The pause between two polls *)

Lemma or_default_number (parsed default : number) :
  isNaN default = false -> isNaN (or_default parsed default) = false.
Proof. intros Hd. unfold or_default. by destruct parsed. Qed.

Lemma or_default_falsy (parsed default : number) :
  truthy parsed = false -> or_default parsed default = default.
Proof. intros Hp. unfold or_default. by rewrite Hp. Qed.

Lemma load_constants (env : ProcessEnv) (k : Constants) :
  load env = Some k ->
  ltb (of_Z 1) (BLOCK_PAUSE_FACTOR k) = true
  /\ isNaN (BLOCK_PAUSE_FACTOR k) = false
  /\ isNaN (BLOCK_PAUSE_UPPER_LIMIT k) = false
  /\ isNaN (BLOCK_PAUSE_LOWER_LIMIT k) = false.
Proof.
  unfold load. destruct (ltb _ _) eqn:Hlt; [|discriminate].
  intros [= <-]. cbn [BLOCK_PAUSE_FACTOR BLOCK_PAUSE_UPPER_LIMIT BLOCK_PAUSE_LOWER_LIMIT].
  split; [done|]. split; [|split; by apply or_default_number].
  by destruct (or_default (env_BLOCK_PAUSE_FACTOR env) literal_1_1).
Qed.

(** The factor of an adaptation. *)
Lemma factor_number (k : Constants) (operation : Operation) :
  isNaN (BLOCK_PAUSE_FACTOR k) = false ->
  isNaN match operation with
        | increase => BLOCK_PAUSE_FACTOR k
        | decrease => div (of_Z 1) (BLOCK_PAUSE_FACTOR k)
        end = false.
Proof. intros HF. destruct operation; [done|]. by apply div_number. Qed.

Lemma adaptBlockPause_within (k : Constants) (operation : Operation) (m : ChainMonitor) :
  isNaN (BLOCK_PAUSE_FACTOR k) = false ->
  isNaN (BLOCK_PAUSE_UPPER_LIMIT k) = false ->
  isNaN (BLOCK_PAUSE_LOWER_LIMIT k) = false ->
  finite (getBlockPause m) ->
  leb (BLOCK_PAUSE_LOWER_LIMIT k) (getBlockPause (adaptBlockPause k operation m)) = true
  /\ (leb (BLOCK_PAUSE_LOWER_LIMIT k) (BLOCK_PAUSE_UPPER_LIMIT k) = true ->
      leb (getBlockPause (adaptBlockPause k operation m)) (BLOCK_PAUSE_UPPER_LIMIT k) = true)
  /\ (positiveFinite (BLOCK_PAUSE_LOWER_LIMIT k) -> finite (BLOCK_PAUSE_UPPER_LIMIT k) ->
      positiveFinite (getBlockPause (adaptBlockPause k operation m))).
Proof.
  intros HF HU HL Hp. unfold adaptBlockPause. cbn [getBlockPause].
  pose proof (mul_number _ _ Hp (factor_number k operation HF)) as Hy.
  set (y := mul (getBlockPause m) _) in *.
  pose proof (Math_min_number _ _ Hy HU) as Hz.
  split; [by apply Math_max_lower|]. split.
  - intros Hlu. apply Math_max_upper; [by apply Math_min_upper|done].
  - intros Hpos Hfin. apply Math_max_positive; [done|done|]. by apply Math_min_finite.
Qed.

(** C8, as the code has it, on doubles.  Once the module has loaded, the
    pacing factor is greater than 1.  A null block multiplies
    [getBlockPause] by the factor and a block that is there multiplies it
    by the reciprocal of the factor, each product rounded, and the result
    is clamped; a rejected fetch leaves it alone.  After an adaptation of
    a pause that is finite and not zero, [getBlockPause] is at least the
    lower limit, and it is at most the upper limit whenever the lower
    limit is at most the upper limit; it is finite and positive again when
    the lower limit is and the upper limit is finite.  So it is with the
    defaults, 500 and 30000. *)
Theorem adaptBlockPause_bounds (env : ProcessEnv) (k : Constants) (m : ChainMonitor) :
  load env = Some k ->
  ltb (of_Z 1) (BLOCK_PAUSE_FACTOR k) = true
  /\ (forall n,
        getBlockPause (monitor (processBlock k n (Resolved None) m))
        = Math_max (Math_min (mul (getBlockPause m) (BLOCK_PAUSE_FACTOR k))
                             (BLOCK_PAUSE_UPPER_LIMIT k))
                   (BLOCK_PAUSE_LOWER_LIMIT k)
        /\ (forall block,
              getBlockPause (monitor (processBlock k n (Resolved (Some block)) m))
              = Math_max (Math_min (mul (getBlockPause m)
                                        (div (of_Z 1) (BLOCK_PAUSE_FACTOR k)))
                                   (BLOCK_PAUSE_UPPER_LIMIT k))
                         (BLOCK_PAUSE_LOWER_LIMIT k))
        /\ monitor (processBlock k n Rejected m) = m)
  /\ (finite (getBlockPause m) ->
      forall operation,
        leb (BLOCK_PAUSE_LOWER_LIMIT k) (getBlockPause (adaptBlockPause k operation m))
        = true
        /\ (leb (BLOCK_PAUSE_LOWER_LIMIT k) (BLOCK_PAUSE_UPPER_LIMIT k) = true ->
            leb (getBlockPause (adaptBlockPause k operation m)) (BLOCK_PAUSE_UPPER_LIMIT k)
            = true)
        /\ (positiveFinite (BLOCK_PAUSE_LOWER_LIMIT k) ->
            finite (BLOCK_PAUSE_UPPER_LIMIT k) ->
            positiveFinite (getBlockPause (adaptBlockPause k operation m))))
  /\ (truthy (env_BLOCK_PAUSE_LOWER_LIMIT env) = false ->
      truthy (env_BLOCK_PAUSE_UPPER_LIMIT env) = false ->
      finite (getBlockPause m) ->
      forall operation,
        leb (of_Z 500) (getBlockPause (adaptBlockPause k operation m)) = true
        /\ leb (getBlockPause (adaptBlockPause k operation m)) (of_Z 30000) = true
        /\ positiveFinite (getBlockPause (adaptBlockPause k operation m))).
Proof.
  intros Hload. destruct (load_constants env k Hload) as (Hlt & HF & HU & HL).
  split; [done|]. split.
  { intros n. split; [reflexivity|]. split; [|reflexivity].
    intros block. unfold processBlock.
    by destruct (processTransactions _ (transactions block)). }
  split.
  { intros Hp op. by apply adaptBlockPause_within. }
  intros HeL HeU Hp op.
  destruct (adaptBlockPause_within k op m HF HU HL Hp) as (H1 & H2 & H3).
  destruct literals as (_ & _ & E500 & E30000 & _).
  assert (EL : BLOCK_PAUSE_LOWER_LIMIT k = of_Z 500).
  { unfold load in Hload. destruct (ltb _ _); [|discriminate Hload].
    injection Hload as <-. cbn [BLOCK_PAUSE_LOWER_LIMIT].
    by rewrite (or_default_falsy _ _ HeL). }
  assert (EU : BLOCK_PAUSE_UPPER_LIMIT k = of_Z 30000).
  { unfold load in Hload. destruct (ltb _ _); [|discriminate Hload].
    injection Hload as <-. cbn [BLOCK_PAUSE_UPPER_LIMIT].
    by rewrite (or_default_falsy _ _ HeU). }
  rewrite EL, EU in *.
  split; [done|]. split; [by apply H2|]. by apply H3.
Qed.

(** *** The handling of a block *)

Lemma processTransactions_completed (m : ChainMonitor) (txs : list Transaction) :
  (processTransactions m txs).2 = forallb (fun tx => negb (throws m tx)) txs.
Proof.
  induction txs as [|tx txs IH]; [done|].
  cbn [processTransactions forallb]. unfold throws at 1, isVerified, processBytecode_throws.
  destruct (createsContract tx); cbn [andb negb]; [|done].
  destruct (getContractAddress tx) as [address|]; [|done].
  destruct (findByAddress_length address (chainId m)) as [[|n]|]; cbn; [|done|done].
  destruct ((0 <? initialGetBytecodeTries m)%Z && getCode_throws address); [done|].
  cbn. rewrite <- IH. by destruct (processTransactions m txs).
Qed.

(** What the loop launches: the calls for the transactions before the
    first one at which the body throws. *)
Lemma processTransactions_launched (m : ChainMonitor) (txs : list Transaction) :
  exists before rest,
    txs = before ++ rest
    /\ Forall (fun tx => throws m tx = false) before
    /\ match rest with
       | [] => (processTransactions m txs).2 = true
       | tx :: _ => throws m tx = true /\ (processTransactions m txs).2 = false
       end
    /\ (processTransactions m txs).1 = omap (launchOf m) before.
Proof.
  induction txs as [|tx txs (before & rest & Htxs & Hb & Hr & Hl)].
  - exists [], []. done.
  - destruct (throws m tx) eqn:Ht.
    + exists [], (tx :: txs). split; [done|]. split; [done|].
      assert (H : processTransactions m (tx :: txs) = ([], false)).
      { cbn [processTransactions]. unfold throws in Ht.
        unfold isVerified, processBytecode_throws.
        destruct (createsContract tx); [|done].
        destruct (getContractAddress tx) as [address|]; [|done].
        destruct (findByAddress_length address (chainId m)) as [[|n]|]; cbn in *;
          [|done|done].
        by rewrite Ht. }
      rewrite H. done.
    + exists (tx :: before), rest. split; [by rewrite Htxs|].
      split; [by apply List.Forall_cons|].
      assert (H : processTransactions m (tx :: txs)
                  = (option_list (launchOf m tx) ++ (processTransactions m txs).1,
                     (processTransactions m txs).2)).
      { cbn [processTransactions]. unfold throws in Ht. unfold launchOf.
        unfold isVerified, processBytecode_throws.
        destruct (createsContract tx); [|by destruct (processTransactions m txs)].
        destruct (getContractAddress tx) as [address|]; [|done].
        destruct (findByAddress_length address (chainId m)) as [[|n]|]; cbn in *;
          [|by destruct (processTransactions m txs)|done].
        rewrite Ht. by destruct (processTransactions m txs). }
      rewrite H. cbn [fst snd]. split; [by destruct rest|].
      rewrite Hl. cbn [omap list_omap]. by destruct (launchOf m tx).
Qed.

(** The pause takes no part in the handling of a block. *)
Lemma processTransactions_pause (k : Constants) (operation : Operation)
    (m : ChainMonitor) (txs : list Transaction) :
  processTransactions (adaptBlockPause k operation m) txs = processTransactions m txs.
Proof.
  induction txs as [|tx txs IH]; [done|]. cbn [processTransactions]. by rewrite IH.
Qed.

Lemma processBlock_timer (k : Constants) (n : Z) (fetched : Fetched) (m : ChainMonitor) :
  snd <$> timer (processBlock k n fetched m)
  = if running m then Some (next_blockNumber m n fetched) else None.
Proof.
  unfold processBlock, mySetTimeout, next_blockNumber, completes.
  destruct fetched as [|[block|]]; cbn [timer monitor adaptBlockPause running];
    [by destruct (running m)| |by destruct (running m)].
  rewrite <- (processTransactions_completed m), processTransactions_pause.
  destruct (processTransactions m (transactions block)) as [launched completed].
  cbn [timer running adaptBlockPause snd]. by destruct (running m).
Qed.

Lemma processBlock_handled (k : Constants) (n : Z) (fetched : Fetched) (m : ChainMonitor) :
  handled (processBlock k n fetched m)
  = match fetched with
    | Resolved (Some block) => completes m block
    | _ => false
    end.
Proof.
  destruct fetched as [|[block|]]; [done| |done].
  unfold processBlock, completes.
  rewrite <- (processTransactions_completed m), processTransactions_pause.
  by destruct (processTransactions m (transactions block)).
Qed.






End MonitorProperties.

Section MonitorExamples.
Import Monitor.

Lemma adaptBlockPause_bounds_witness :
  exists k, load default_env = Some k
    /\ leb (of_Z 500)
           (getBlockPause (adaptBlockPause k increase (new_ChainMonitor default_env "1")))
       = true
    /\ leb (getBlockPause (adaptBlockPause k increase (new_ChainMonitor default_env "1")))
           (of_Z 30000)
       = true.
Proof.
  destruct (load default_env) as [k|] eqn:Hload; [|discriminate Hload].
  exists k. split; [reflexivity|].
  destruct (proj2 (proj2 (proj2
              (adaptBlockPause_bounds (sv := example_services) default_env k
                 (new_ChainMonitor default_env "1") Hload)))
              eq_refl eq_refl I increase) as (H1 & H2 & _).
  exact (conj H1 H2).
Defined.

(** Against C8 as stated: with BLOCK_PAUSE_LOWER_LIMIT=60000 and the
    default upper limit 30000 the first adaptation takes [getBlockPause]
    from 10000 to 60000, above the upper limit.  And a block that is there
    does not divide the pause by the factor: from 13310 the pause goes to
    12100, where the quotient by the factor is the double below 12100. *)
Lemma adaptBlockPause_above_upper :
  (exists k, load high_lower_env = Some k
     /\ getBlockPause (adaptBlockPause k increase (new_ChainMonitor high_lower_env "1"))
        = of_Z 60000
     /\ leb (getBlockPause (adaptBlockPause k increase (new_ChainMonitor high_lower_env "1")))
            (BLOCK_PAUSE_UPPER_LIMIT k)
        = false)
  /\ (exists k, load pause_13310_env = Some k
        /\ getBlockPause (new_ChainMonitor pause_13310_env "1") = of_Z 13310
        /\ getBlockPause (adaptBlockPause k decrease (new_ChainMonitor pause_13310_env "1"))
           = of_Z 12100
        /\ div (of_Z 13310) (BLOCK_PAUSE_FACTOR k) <> of_Z 12100
        /\ ltb (div (of_Z 13310) (BLOCK_PAUSE_FACTOR k)) (of_Z 12100) = true).
Proof.
  split.
  - eexists. split; [reflexivity|]. split; vm_compute; reflexivity.
  - eexists. split; [reflexivity|]. split; [vm_compute; reflexivity|].
    split; [vm_compute; reflexivity|]. split; [|vm_compute; reflexivity].
    vm_compute. discriminate.
Qed.


Example processBlock_sequence_example :
  let m := new_ChainMonitor default_env "1" in
  let block := {| transactions := [] |} in
  match load default_env with
  | Some k =>
      log (run (sv := example_services) k (start m 7)
             [Settle (Resolved (Some block)); Settle Rejected; Settle (Resolved None);
              Settle (Resolved (Some faulty_block));
              Settle (Resolved (Some block)); Stop; Settle (Resolved (Some block));
              Settle (Resolved (Some block))])
      = [7; 8; 9]%Z
  | None => False
  end.
Proof. vm_compute. reflexivity. Qed.

End MonitorExamples.

(** ** Further properties of the variations and the hash index *)

Section MoreVariations.
Import Validation Text.
Context {rt : Runtime}.

Lemma replace_opt_cr_lf_cons (c : ascii) (r : string) :
  c <> CR ->
  replace_opt_cr_lf (String c r)
  = if Ascii.eqb c LF then String CR (String LF (replace_opt_cr_lf r))
    else String c (replace_opt_cr_lf r).
Proof.
  intros Hc. cbn [replace_opt_cr_lf]. destruct (Ascii.eqb c LF); [done|].
  destruct r as [|d r']; [done|].
  destruct (Ascii.eqb_spec c CR) as [->|_]; [done|]. done.
Qed.

Lemma replace_cr_lf_cons (c : ascii) (s : string) :
  c <> CR -> replace_cr_lf (String c s) = String c (replace_cr_lf s).
Proof.
  intros Hc. cbn [replace_cr_lf]. destruct s as [|d r']; [done|].
  destruct (Ascii.eqb_spec c CR) as [->|_]; [done|]. done.
Qed.

(** Writing every line end of a text without carriage returns as CR LF
    and then every CR LF as LF gives the text back. *)
Lemma replace_cr_lf_replace_opt_cr_lf (text : string) :
  noCR text -> replace_cr_lf (replace_opt_cr_lf text) = text.
Proof.
  unfold noCR. induction text as [|c r IH]; intros Hno; [done|].
  cbn in Hno. apply not_elem_of_cons in Hno as [Hc Hr].
  rewrite replace_opt_cr_lf_cons by done.
  destruct (Ascii.eqb_spec c LF) as [->|Hlf].
  - cbn [replace_cr_lf]. cbn. by rewrite IH.
  - rewrite replace_cr_lf_cons by done. by rewrite IH.
Qed.

Lemma list_ascii_of_string_app (s t : string) :
  list_ascii_of_string (s +:+ t) = list_ascii_of_string s ++ list_ascii_of_string t.
Proof.
  induction s as [|c s IH]; [done|].
  change (c :: list_ascii_of_string (s +:+ t)
          = c :: (list_ascii_of_string s ++ list_ascii_of_string t)).
  by rewrite IH.
Qed.

Lemma strip_rev_spaces (w l : list ascii) :
  Forall (fun c => space1 c = true) w -> strip_rev (rev w ++ l) = strip_rev l.
Proof.
  induction w as [|c w IH] using rev_ind; intros Hw; [done|].
  apply Forall_app in Hw as [Hw Hc]. apply Forall_inv in Hc. cbv beta in Hc.
  rewrite rev_unit. change (strip_rev (c :: (rev w ++ l)) = strip_rev l).
  cbn [strip_rev]. rewrite Hc. by apply IH.
Qed.

(** The length of what [strip_rev] leaves, for inductions. *)
Lemma strip_rev_stable (l : list ascii) : strip_rev (strip_rev l) = strip_rev l.
Proof.
  induction l as [l IH] using (induction_ltof1 _ (@length ascii)). unfold ltof in IH.
  destruct l as [|c r]; [done|]. cbn [strip_rev].
  destruct (space1 c) eqn:H1; [apply IH; cbn; lia|].
  destruct r as [|b r']; [cbn [strip_rev]; by rewrite H1|].
  destruct (space2 b c) eqn:H2; [apply IH; cbn; lia|].
  destruct r' as [|a r'']; [cbn [strip_rev]; by rewrite H1, H2|].
  destruct (space3 a b c) eqn:H3; [apply IH; cbn; lia|].
  cbn [strip_rev]. by rewrite H1, H2, H3.
Qed.

Lemma trimEnd_stable (s : string) : trimEnd (trimEnd s) = trimEnd s.
Proof.
  unfold trimEnd, str. rewrite list_ascii_of_string_of_list_ascii, rev_involutive.
  by rewrite strip_rev_stable.
Qed.

(** White space added at the end of a text does not change what
    [trimEnd] returns. *)
Lemma trimEnd_app_space (s w : string) : asciiSpace w -> trimEnd (s +:+ w) = trimEnd s.
Proof.
  unfold asciiSpace, trimEnd. intros Hw.
  by rewrite list_ascii_of_string_app, rev_app_distr, strip_rev_spaces.
Qed.

Lemma generateVariations_lookup (pathContent : PathContent) (i : nat) (text : string) :
  (content <$> generateVariations pathContent) !! i = Some text ->
  {| path := path pathContent; content := text |} ∈ generateVariations pathContent.
Proof.
  intros Hi. rewrite list_lookup_fmap in Hi.
  destruct (generateVariations pathContent !! i) as [v|] eqn:Hv; [|discriminate].
  injection Hi as <-. pose proof (generateVariations_path pathContent v) as Hp.
  assert (Hin : v ∈ generateVariations pathContent) by (by eapply list_elem_of_lookup_2).
  rewrite <- (Hp Hin). by destruct v.
Qed.

(** X1.  The text a manifest was made from is among the variations of the
    supplied file when the file is the text itself, the text with every
    line end written as CR LF (for a text without carriage returns), the
    text without its final LF or CR LF, or the text (itself without white
    space at its end) followed by spaces, tabs or line ends. *)
Theorem generateVariations_covers (p supplied text : string) :
  (supplied = text
   \/ (noCR text /\ supplied = replace_opt_cr_lf text)
   \/ text = supplied +:+ String LF EmptyString
   \/ text = supplied +:+ String CR (String LF EmptyString)
   \/ (exists w, asciiSpace w /\ trimEnd text = text /\ supplied = text +:+ w)) ->
  {| path := p; content := text |}
  ∈ generateVariations {| path := p; content := supplied |}.
Proof.
  intros [->|[[Hno ->]|[->|[->|(w & Hw & Ht & ->)]]]].
  - by apply (generateVariations_lookup {| path := p; content := text |} 0).
  - pose proof (generateVariations_lookup
                  {| path := p; content := replace_opt_cr_lf text |} 12
                  (replace_cr_lf (replace_opt_cr_lf text)) eq_refl) as H.
    by rewrite replace_cr_lf_replace_opt_cr_lf in H.
  - by apply (generateVariations_lookup {| path := p; content := supplied |} 4).
  - by apply (generateVariations_lookup {| path := p; content := supplied |} 5).
  - pose proof (generateVariations_lookup {| path := p; content := text +:+ w |} 1
                  (trimEnd (text +:+ w)) eq_refl) as H.
    by rewrite trimEnd_app_space, Ht in H.
Qed.

End MoreVariations.

Section MoreIndex.
Import Validation Text.
Context {rt : Runtime}.

(** Filling a map with the elements of a list under their keys. *)
Lemma foldl_insert_keeps {A} (key : A -> string) (l : list A) (m : gmap string A)
    (h : string) :
  is_Some (m !! h) ->
  is_Some (foldl (fun m x => <[key x := x]> m) m l !! h).
Proof.
  revert m. induction l as [|x l IH]; intros m Hm; [exact Hm|].
  rewrite foldl_step. apply IH.
  destruct (decide (key x = h)) as [<-|Hne];
    [rewrite lookup_insert_eq; by eexists|by rewrite lookup_insert_ne].
Qed.

Lemma foldl_insert_last {A} (key : A -> string) (l : list A) (m : gmap string A)
    (x : A) :
  x ∈ l ->
  exists x', x' ∈ l /\ key x' = key x
             /\ foldl (fun m x => <[key x := x]> m) m l !! key x = Some x'.
Proof.
  induction l as [|y l IH] using rev_ind; intros Hx; [by apply elem_of_nil in Hx|].
  rewrite foldl_app. cbn [foldl].
  destruct (decide (key y = key x)) as [Heq|Hne].
  - exists y. split; [apply elem_of_app; right; by left|]. split; [done|].
    by rewrite Heq, lookup_insert_eq.
  - rewrite lookup_insert_ne by done.
    apply elem_of_app in Hx as [Hx|Hx].
    + destruct (IH Hx) as (x' & Hin & Hk & Hl). exists x'.
      split; [apply elem_of_app; by left|done].
    + apply list_elem_of_singleton in Hx as ->. done.
Qed.

Lemma storeByHash_app (files : list PathContent) (file : PathContent) :
  storeByHash (files ++ [file])
  = foldl (fun byHash variation => <[keccak256 (content variation) := variation]> byHash)
          (storeByHash files) (generateVariations file).
Proof. unfold storeByHash. by rewrite foldl_app. Qed.

Lemma storeByHash_indexed (files : list PathContent) (file variation : PathContent) :
  file ∈ files ->
  variation ∈ generateVariations file ->
  is_Some (storeByHash files !! keccak256 (content variation)).
Proof.
  intros Hf Hv.
  induction files as [|f files IH] using rev_ind; [by apply elem_of_nil in Hf|].
  rewrite storeByHash_app. apply elem_of_app in Hf as [Hf|Hf].
  - apply (foldl_insert_keeps (fun v => keccak256 (content v))). by apply IH.
  - apply list_elem_of_singleton in Hf as <-.
    destruct (foldl_insert_last (fun v => keccak256 (content v))
                (generateVariations file) (storeByHash files) variation Hv)
      as (x' & _ & _ & Hl).
    rewrite Hl. by eexists.
Qed.

(** X2.  Every variation of every source file has its digest in the hash
    index, and what the index holds under it is a variation of a source
    file with the same digest. *)
Theorem storeByHash_complete (files : list PathContent) (file variation : PathContent) :
  file ∈ files ->
  variation ∈ generateVariations file ->
  exists indexed file',
    storeByHash files !! keccak256 (content variation) = Some indexed
    /\ keccak256 (content indexed) = keccak256 (content variation)
    /\ file' ∈ files /\ indexed ∈ generateVariations file'.
Proof.
  intros Hf Hv. destruct (storeByHash_indexed files file variation Hf Hv) as [indexed Hi].
  destruct (storeByHash_lookup _ _ _ Hi) as (Hh & file' & Hf' & Hv').
  by exists indexed, file'.
Qed.

(** X3.  When two source files have a variation with the same digest, the
    index holds a variation of the later file: under the digest of a
    variation of the last file the index holds a variation of that file,
    with its path. *)
Theorem storeByHash_last (files : list PathContent) (file variation : PathContent) :
  variation ∈ generateVariations file ->
  exists indexed,
    storeByHash (files ++ [file]) !! keccak256 (content variation) = Some indexed
    /\ indexed ∈ generateVariations file
    /\ path indexed = path file.
Proof.
  intros Hv. rewrite storeByHash_app.
  destruct (foldl_insert_last (fun v => keccak256 (content v))
              (generateVariations file) (storeByHash files) variation Hv)
    as (x' & Hin & _ & Hl).
  exists x'. split; [exact Hl|]. split; [exact Hin|]. by apply generateVariations_path.
Qed.

End MoreIndex.

(** ** Further properties of the reconciliation *)

Section MoreReconciliation.
Import Validation Text.
Context {rt : Runtime}.

Lemma foldlM_ext {A B} (f g : A -> B -> result A) (l : list B) (a : A) :
  (forall a x, x ∈ l -> f a x = g a x) -> foldlM f a l = foldlM g a l.
Proof.
  revert a. induction l as [|x l IH]; intros a Hfg; [done|].
  rewrite !foldlM_cons, Hfg by (by left).
  destruct (g a x) as [a'|e]; [|done]. cbn. apply IH. intros a0 y Hy. apply Hfg. by right.
Qed.

Lemma foldlM_Ok_all {A B} (f : A -> B -> result A) (l : list B) (a : A) :
  (forall a x, x ∈ l -> exists a', f a x = Ok a') -> exists r, foldlM f a l = Ok r.
Proof.
  revert a. induction l as [|x l IH]; intros a Hf; [by exists a|].
  rewrite foldlM_cons. destruct (Hf a x) as [a' ->]; [by left|].
  cbn. apply IH. intros a0 y Hy. apply Hf. by right.
Qed.

Lemma rearrangeStep_total (byHash : gmap string PathContent) (acc : Rearranged)
    (k : string) (v : json) (info : SourceInfo) :
  sourceInfo v = Ok info -> exists acc', rearrangeStep byHash acc (k, v) = Ok acc'.
Proof.
  intros Hi. unfold rearrangeStep. rewrite Hi. change (Ok ?a ≫= ?f) with (f a). cbv beta.
  destruct (info_content info) as [[|c s]|];
    repeat match goal with
           | |- context [match ?x with _ => _ end] => destruct x
           | |- context [if ?x then _ else _] => destruct x
           end; by eexists.
Qed.

(** A key that is in one of the partitions is a declared key, stored
    where [place] says. *)
Lemma placed_entry (metadata : option json) (byHash : gmap string PathContent)
    (r : Rearranged) (k : string) :
  rearrangeSources metadata byHash = Ok r ->
  ~ Unplaced k r ->
  exists entries v info, declaredSources metadata = Ok entries
    /\ (k, v) ∈ entries /\ sourceInfo v = Ok info
    /\ Placed k (place byHash info) r.
Proof.
  intros Hr Hk. apply rearrangeSources_Ok in Hr as (entries & He & Hnd & Hin & Hout).
  destruct (decide (k = "__proto__")) as [Hp|Hp];
    [by destruct (Hk (Hout k (or_intror Hp)))|].
  destruct (decide (k ∈ entries.*1)) as [Hd|Hd];
    [|by destruct (Hk (Hout k (or_introl Hd)))].
  apply list_elem_of_fmap in Hd as ([k' v] & -> & Hkv).
  destruct (Hin _ _ Hkv) as (info & Hinfo & Hpl). exists entries, v, info.
  repeat (split; [done|]). by apply Hpl.
Qed.

(** X5.  An entry of [invalid] is for an inline source: it records the
    declared digest and the digest of the inline content, which differ,
    with the message of the mismatch. *)
Theorem invalidSources_mismatch (metadata : option json)
    (byHash : gmap string PathContent) (r : Rearranged) (k : string) (i : InvalidSource) :
  rearrangeSources metadata byHash = Ok r ->
  invalidSources r !! k = Some i ->
  exists entries v info text,
    declaredSources metadata = Ok entries /\ (k, v) ∈ entries /\ sourceInfo v = Ok info
    /\ info_content info = Some text /\ text <> EmptyString
    /\ expectedHash i = info_keccak256 info
    /\ calculatedHash i = keccak256 text
    /\ expectedHash i <> Some (calculatedHash i)
    /\ msg i = HASH_MISMATCH_MSG.
Proof.
  intros Hr Hi.
  destruct (placed_entry _ _ _ k Hr) as (entries & v & info & He & Hin & Hinfo & Hp).
  { intros (_ & _ & Hn). congruence. }
  exists entries, v, info. unfold place in Hp.
  destruct (info_content info) as [[|c s]|] eqn:Hc.
  - exfalso. destruct (info_keccak256 info ≫= _) as [pc|]; [destruct (content pc)|];
      destruct Hp as (_ & _ & Hp); congruence.
  - case_bool_decide as Hd; destruct Hp as (_ & _ & Hp); [congruence|].
    rewrite Hi in Hp. injection Hp as ->. exists (String c s). cbn.
    repeat split; first [done|congruence].
  - exfalso. destruct (info_keccak256 info ≫= _) as [pc|]; [destruct (content pc)|];
      destruct Hp as (_ & _ & Hp); congruence.
Qed.

(** X6.  An entry of [missing] echoes the digest and the urls the manifest
    declares; its source has no inline content, and the hash index has
    nothing under the digest, or only an empty text. *)
Theorem missingSources_echo (metadata : option json)
    (byHash : gmap string PathContent) (r : Rearranged) (k : string) (m : MissingSource) :
  rearrangeSources metadata byHash = Ok r ->
  missingSources r !! k = Some m ->
  exists entries v info,
    declaredSources metadata = Ok entries /\ (k, v) ∈ entries /\ sourceInfo v = Ok info
    /\ missing_keccak256 m = info_keccak256 info
    /\ missing_urls m = info_urls info
    /\ falsyContent info
    /\ (forall h indexed, info_keccak256 info = Some h -> byHash !! h = Some indexed ->
          content indexed = EmptyString).
Proof.
  intros Hr Hm.
  destruct (placed_entry _ _ _ k Hr) as (entries & v & info & He & Hin & Hinfo & Hp).
  { intros (_ & Hn & _). congruence. }
  exists entries, v, info. unfold place, falsyContent in *.
  assert (Hcases : forall o : option string,
            (o = None \/ o = Some EmptyString) \/ exists c s, o = Some (String c s)).
  { intros [[|c s]|]; eauto. }
  destruct (Hcases (info_content info)) as [Hf|(c & s & Hc)].
  - assert (Hp' : Placed k
              match info_keccak256 info ≫= (fun h => byHash !! h) with
              | Some pathContent =>
                  match content pathContent with
                  | EmptyString => Missing {| missing_keccak256 := info_keccak256 info;
                                              missing_urls := info_urls info |}
                  | String c r => Found (String c r)
                  end
              | None => Missing {| missing_keccak256 := info_keccak256 info;
                                   missing_urls := info_urls info |}
              end r) by (by destruct Hf as [Hf|Hf]; rewrite Hf in Hp).
    clear Hp. destruct (info_keccak256 info) as [h|] eqn:Hh; cbn in Hp'.
    + destruct (byHash !! h) as [pc|] eqn:Hpc.
      * destruct (content pc) as [|c s] eqn:Hcpc; destruct Hp' as (Hf' & Hm' & _);
          [|congruence].
        rewrite Hm in Hm'. injection Hm' as ->. cbn.
        repeat (split; [done|]). intros h' idx [= <-] Hidx. congruence.
      * destruct Hp' as (_ & Hm' & _). rewrite Hm in Hm'. injection Hm' as ->. cbn.
        repeat (split; [done|]). intros h' idx [= <-] Hidx. congruence.
    + destruct Hp' as (_ & Hm' & _). rewrite Hm in Hm'. injection Hm' as ->. cbn.
      repeat (split; [done|]). intros h' idx [=].
  - exfalso. rewrite Hc in Hp. case_bool_decide; destruct Hp as (_ & Hp & _); congruence.
Qed.


(** What one turn of the loop records in [metadata2provided]. *)
Lemma rearrangeStep_provided (byHash : gmap string PathContent) (acc acc' : Rearranged)
    (k : string) (v : json) :
  rearrangeStep byHash acc (k, v) = Ok acc' ->
  exists info, sourceInfo v = Ok info
    /\ metadata2provided acc'
       = match provided byHash info with
         | Some p => assign k p (metadata2provided acc)
         | None => metadata2provided acc
         end.
Proof.
  unfold rearrangeStep. intros H. apply bind_Ok in H as (info & Hi & H).
  exists info. split; [done|]. unfold provided.
  destruct (info_content info) as [[|c s]|].
  - destruct (info_keccak256 info ≫= _) as [pc|]; [destruct (content pc)|];
      injection H as <-; reflexivity.
  - destruct (negb _); injection H as <-; reflexivity.
  - destruct (info_keccak256 info ≫= _) as [pc|]; [destruct (content pc)|];
      injection H as <-; reflexivity.
Qed.

Lemma rearrange_loop_provided (byHash : gmap string PathContent)
    (entries : list (string * json)) (acc r : Rearranged) :
  foldlM (rearrangeStep byHash) acc entries = Ok r ->
  NoDup entries.*1 ->
  (forall k v, (k, v) ∈ entries ->
     exists info, sourceInfo v = Ok info
       /\ (k <> "__proto__" ->
           metadata2provided r !! k
           = match provided byHash info with
             | Some p => Some p
             | None => metadata2provided acc !! k
             end))
  /\ (forall k, k ∉ entries.*1 \/ k = "__proto__" ->
        metadata2provided r !! k = metadata2provided acc !! k).
Proof.
  revert acc. induction entries as [|[k0 v0] entries IH]; intros acc Hfold Hnd.
  - cbn in Hfold. injection Hfold as <-. split; [intros k v Hin; by apply elem_of_nil in Hin|done].
  - rewrite foldlM_cons in Hfold. apply bind_Ok in Hfold as (acc1 & Hstep & Hfold).
    cbn in Hnd. apply NoDup_cons in Hnd as [Hk0 Hnd].
    destruct (rearrangeStep_provided _ _ _ _ _ Hstep) as (info & Hinfo & Hm2p).
    destruct (IH acc1 Hfold Hnd) as [IH1 IH2]. split.
    + intros k v Hin. apply elem_of_cons in Hin as [[= -> ->]|Hin].
      * exists info. split; [done|]. intros Hp. rewrite (IH2 k0 (or_introl Hk0)), Hm2p.
        destruct (provided byHash info); [by rewrite lookup_assign_eq|done].
      * destruct (IH1 k v Hin) as (info' & Hinfo' & Hl). exists info'. split; [done|].
        intros Hp. rewrite (Hl Hp). destruct (provided byHash info'); [done|]. rewrite Hm2p.
        assert (k <> k0).
        { intros ->. apply Hk0. apply list_elem_of_fmap. by exists (k0, v). }
        destruct (provided byHash info); [by rewrite lookup_assign_ne|done].
    + intros k Hk.
      assert (Hk1 : k ∉ entries.*1 \/ k = "__proto__").
      { destruct Hk as [Hk| ->]; [|by right]. left. cbn in Hk.
        by apply not_elem_of_cons in Hk as [_ Hk]. }
      rewrite (IH2 k Hk1), Hm2p.
      destruct (provided byHash info); [|done].
      destruct Hk as [Hk| ->]; [|apply lookup_assign_proto].
      cbn in Hk. apply not_elem_of_cons in Hk as [Hne _]. by rewrite lookup_assign_ne.
Qed.

(** [metadata2provided] after the whole loop. *)
Lemma rearrangeSources_provided (metadata : option json)
    (byHash : gmap string PathContent) (r : Rearranged) (entries : list (string * json)) :
  rearrangeSources metadata byHash = Ok r ->
  declaredSources metadata = Ok entries ->
  (forall k v, (k, v) ∈ entries ->
     exists info, sourceInfo v = Ok info
                  /\ (k <> "__proto__" -> metadata2provided r !! k = provided byHash info))
  /\ (forall k, k ∉ entries.*1 \/ k = "__proto__" -> metadata2provided r !! k = None).
Proof.
  intros Hr He. pose proof Hr as Hr'.
  apply rearrangeSources_Ok in Hr' as (entries' & He' & Hnd & _ & _).
  rewrite He in He'. injection He' as <-.
  unfold rearrangeSources in Hr. unfold declaredSources in He.
  apply bind_Ok in Hr as (sources & Hs & Hr). rewrite Hs in He.
  change (Ok ?a ≫= ?f) with (f a) in He. cbv beta in He.
  apply bind_Ok in Hr as (entries' & He' & Hr). rewrite He in He'. injection He' as <-.
  destruct (rearrange_loop_provided _ _ _ _ Hr Hnd) as [Hin Hout]. split.
  - intros k v Hkv. destruct (Hin k v Hkv) as (info & Hi & Hl). exists info.
    split; [done|]. intros Hp. rewrite (Hl Hp). cbn. rewrite lookup_empty.
    by destruct (provided byHash info).
  - intros k Hk. rewrite (Hout k Hk). cbn. by rewrite lookup_empty.
Qed.

Lemma provided_Some (byHash : gmap string PathContent) (info : SourceInfo) (p : string) :
  provided byHash info = Some p
  <-> falsyContent info
      /\ exists h indexed, info_keccak256 info = Some h /\ byHash !! h = Some indexed
                           /\ path indexed = p.
Proof.
  unfold provided, falsyContent. split.
  - intros H. destruct (info_content info) as [[|c s]|]; try discriminate H;
      (split; [by auto|]);
      (destruct (info_keccak256 info) as [h|]; [|discriminate H]; cbn in H;
       destruct (byHash !! h) as [pc|] eqn:Hpc; [|discriminate H];
       injection H as <-; by exists h, pc).
  - intros (Hf & h & pc & Hh & Hpc & <-).
    destruct Hf as [-> | ->]; rewrite Hh; cbn; by rewrite Hpc.
Qed.

(** X7.  [metadata2provided] holds a key exactly when the key is not
    [__proto__], the declared source has no inline content and the hash
    index has an entry under its digest; it then holds the path of that
    entry.  Inline sources are never recorded, and nothing is ever
    recorded under [__proto__]. *)
Theorem metadata2provided_records (metadata : option json)
    (byHash : gmap string PathContent) (r : Rearranged) (k p : string) :
  rearrangeSources metadata byHash = Ok r ->
  metadata2provided r !! k = Some p
  <-> k <> "__proto__"
      /\ exists entries v info h indexed,
           declaredSources metadata = Ok entries /\ (k, v) ∈ entries
           /\ sourceInfo v = Ok info /\ falsyContent info
           /\ info_keccak256 info = Some h /\ byHash !! h = Some indexed
           /\ path indexed = p.
Proof.
  intros Hr. pose proof Hr as Hr'.
  apply rearrangeSources_Ok in Hr' as (entries & He & _).
  destruct (rearrangeSources_provided _ _ _ _ Hr He) as [Hin Hout]. split.
  - intros Hk. destruct (decide (k = "__proto__")) as [Hp|Hp];
      [by rewrite (Hout k (or_intror Hp)) in Hk|].
    split; [done|].
    destruct (decide (k ∈ entries.*1)) as [Hd|Hd];
      [|by rewrite (Hout k (or_introl Hd)) in Hk].
    apply list_elem_of_fmap in Hd as ([k' v] & -> & Hkv). cbn [fst] in *.
    destruct (Hin _ _ Hkv) as (info & Hinfo & Hl). rewrite Hk in Hl.
    specialize (Hl Hp). symmetry in Hl.
    apply provided_Some in Hl as (Hf & h & pc & Hh & Hpc & Hpath).
    by exists entries, v, info, h, pc.
  - intros (Hp & entries' & v & info & h & pc & He' & Hkv & Hinfo & Hf & Hh & Hpc & Hpath).
    rewrite He in He'. injection He' as <-.
    destruct (Hin _ _ Hkv) as (info' & Hinfo' & Hl). rewrite Hinfo in Hinfo'.
    injection Hinfo' as <-. rewrite (Hl Hp). apply provided_Some. split; [done|].
    by exists h, pc.
Qed.

(** X8.  A source without inline content, under a key other than
    [__proto__], whose declared digest is that of a variation of a supplied
    file: the hash index holds a variation of a supplied file with that
    digest, whose path is recorded as used; the source is never invalid;
    it is found with the text of that variation when the text is not
    empty, and is missing when it is. *)
Theorem found_by_variation (metadata : option json) (files : list PathContent)
    (r : Rearranged) (entries : list (string * json)) (k : string) (v : json)
    (info : SourceInfo) (supplied variation : PathContent) :
  rearrangeSources metadata (storeByHash files) = Ok r ->
  declaredSources metadata = Ok entries ->
  (k, v) ∈ entries ->
  k <> "__proto__" ->
  sourceInfo v = Ok info ->
  falsyContent info ->
  supplied ∈ files ->
  variation ∈ generateVariations supplied ->
  info_keccak256 info = Some (keccak256 (content variation)) ->
  exists indexed file,
    storeByHash files !! keccak256 (content variation) = Some indexed
    /\ keccak256 (content indexed) = keccak256 (content variation)
    /\ file ∈ files /\ indexed ∈ generateVariations file
    /\ metadata2provided r !! k = Some (path indexed)
    /\ invalidSources r !! k = None
    /\ (content indexed <> EmptyString ->
        foundSources r !! k = Some (content indexed) /\ missingSources r !! k = None)
    /\ (content indexed = EmptyString ->
        foundSources r !! k = None
        /\ missingSources r !! k
           = Some {| missing_keccak256 := info_keccak256 info;
                     missing_urls := info_urls info |}).
Proof.
  intros Hr He Hkv Hproto Hinfo Hf Hs Hv Hh.
  destruct (storeByHash_indexed files supplied variation Hs Hv) as [idx Hidx].
  destruct (storeByHash_lookup _ _ _ Hidx) as (Hk & file & Hfile & Hvar).
  exists idx, file. repeat (split; [done|]).
  assert (Hm : metadata2provided r !! k = Some (path idx)).
  { destruct (rearrangeSources_provided _ _ _ _ Hr He) as [Hin _].
    destruct (Hin _ _ Hkv) as (info' & Hinfo' & Hl). rewrite Hinfo in Hinfo'.
    injection Hinfo' as <-. rewrite (Hl Hproto). apply provided_Some.
    split; [done|]. by exists (keccak256 (content variation)), idx. }
  split; [exact Hm|].
  apply rearrangeSources_Ok in Hr as (entries' & He' & _ & Hin & _).
  rewrite He in He'. injection He' as <-.
  destruct (Hin _ _ Hkv) as (info' & Hinfo' & Hp). rewrite Hinfo in Hinfo'.
  injection Hinfo' as <-. specialize (Hp Hproto). unfold place in Hp.
  assert (Hp' : Placed k
                  match content idx with
                  | String c s => Found (String c s)
                  | EmptyString => Missing {| missing_keccak256 := info_keccak256 info;
                                              missing_urls := info_urls info |}
                  end r).
  { rewrite Hh. destruct Hf as [Hf|Hf]; rewrite Hf, Hh in Hp; cbn in Hp;
      rewrite Hidx in Hp; exact Hp. }
  destruct (content idx) as [|c s]; destruct Hp' as (H1 & H2 & H3);
    (split; [done|]); split; intros ?; done.
Qed.

Lemma rearrangeStep_inline (byHash byHash' : gmap string PathContent) (acc : Rearranged)
    (k : string) (v : json) :
  inlineEntry v -> rearrangeStep byHash acc (k, v) = rearrangeStep byHash' acc (k, v).
Proof.
  intros (info & c & s & Hi & Hc). unfold rearrangeStep. rewrite Hi.
  change (Ok ?a ≫= ?f) with (f a). cbv beta. by rewrite Hc.
Qed.

Lemma place_inline (byHash : gmap string PathContent) (info : SourceInfo) (c : ascii)
    (s : string) :
  info_content info = Some (String c s) ->
  place byHash info
  = if bool_decide (Some (keccak256 (String c s)) = info_keccak256 info)
    then Found (String c s)
    else Invalid {| expectedHash := info_keccak256 info;
                    calculatedHash := keccak256 (String c s);
                    msg := HASH_MISMATCH_MSG |}.
Proof. intros Hc. unfold place. by rewrite Hc. Qed.

(** X9.  A manifest whose sources all carry an inline content that is not
    empty is reconciled without the hash index: [rearrangeSources] returns,
    and returns the same for every index; nothing is missing and no
    supplied file is recorded as used; and nothing is invalid exactly when
    the inline content of every source, other than one named [__proto__],
    has the declared digest, in which case each of these sources is found
    with its inline content. *)
Theorem rearrangeSources_inline (metadata : option json)
    (byHash : gmap string PathContent) (entries : list (string * json)) :
  declaredSources metadata = Ok entries ->
  (forall k v, (k, v) ∈ entries -> inlineEntry v) ->
  exists r,
    rearrangeSources metadata byHash = Ok r
    /\ (forall byHash', rearrangeSources metadata byHash' = Ok r)
    /\ missingSources r = ∅
    /\ metadata2provided r = ∅
    /\ (invalidSources r = ∅
        <-> forall k v, (k, v) ∈ entries -> k <> "__proto__" -> digestMatches v)
    /\ (forall k v info text,
          (k, v) ∈ entries -> k <> "__proto__" ->
          sourceInfo v = Ok info -> info_content info = Some text ->
          info_keccak256 info = Some (keccak256 text) ->
          foundSources r !! k = Some text).
Proof.
  intros He Hinl.
  assert (Hind : forall byHash', rearrangeSources metadata byHash'
                                 = rearrangeSources metadata byHash).
  { intros byHash'. unfold rearrangeSources. unfold declaredSources in He.
    destruct (member metadata "sources") as [sources|e]; [|done].
    change (Ok ?a ≫= ?f) with (f a) in *. cbv beta in *. rewrite He.
    change (Ok ?a ≫= ?f) with (f a). cbv beta.
    apply foldlM_ext. intros acc [k v] Hkv. apply rearrangeStep_inline. by eapply Hinl. }
  assert (Hex : exists r, rearrangeSources metadata byHash = Ok r).
  { unfold rearrangeSources. unfold declaredSources in He.
    destruct (member metadata "sources") as [sources|e]; [|done].
    change (Ok ?a ≫= ?f) with (f a) in *. cbv beta in *. rewrite He.
    change (Ok ?a ≫= ?f) with (f a). cbv beta.
    apply foldlM_Ok_all. intros acc [k v] Hkv.
    destruct (Hinl k v Hkv) as (info & _ & _ & Hi & _). by eapply rearrangeStep_total. }
  destruct Hex as [r Hr]. exists r. split; [exact Hr|].
  split; [intros byHash'; by rewrite Hind|].
  pose proof Hr as Hr'.
  apply rearrangeSources_Ok in Hr' as (entries' & He' & Hnd & Hin & Hout).
  rewrite He in He'. injection He' as <-.
  destruct (rearrangeSources_provided _ _ _ _ Hr He) as [Hpin Hpout].
  assert (Hplace : forall k v, (k, v) ∈ entries -> k <> "__proto__" ->
            exists info c s, sourceInfo v = Ok info /\ info_content info = Some (String c s)
              /\ Placed k (if bool_decide (Some (keccak256 (String c s)) = info_keccak256 info)
                           then Found (String c s)
                           else Invalid {| expectedHash := info_keccak256 info;
                                           calculatedHash := keccak256 (String c s);
                                           msg := HASH_MISMATCH_MSG |}) r).
  { intros k v Hkv Hproto. destruct (Hin k v Hkv) as (info & Hi & Hp).
    destruct (Hinl k v Hkv) as (info' & c & s & Hi' & Hc). rewrite Hi in Hi'.
    injection Hi' as <-. exists info, c, s. rewrite <- (place_inline byHash) by done.
    repeat (split; [done|]). by apply Hp. }
  assert (Hsplit : forall k, (k ∉ entries.*1 \/ k = "__proto__")
                             \/ (k <> "__proto__" /\ exists v, (k, v) ∈ entries)).
  { intros k. destruct (decide (k = "__proto__")) as [->|Hp]; [by left; right|].
    destruct (decide (k ∈ entries.*1)) as [Hd|Hd]; [|by left; left].
    right. split; [done|]. apply list_elem_of_fmap in Hd as ([k' v] & -> & Hkv).
    by exists v. }
  split; [|split; [|split]].
  - apply map_eq. intros k. rewrite lookup_empty.
    destruct (Hsplit k) as [Hk|(Hp & v & Hkv)]; [by destruct (Hout k Hk) as (_ & ? & _)|].
    destruct (Hplace _ _ Hkv Hp) as (info & c & s & _ & _ & Hpl).
    case_bool_decide; by destruct Hpl as (_ & ? & _).
  - apply map_eq. intros k. rewrite lookup_empty.
    destruct (Hsplit k) as [Hk|(Hp & v & Hkv)]; [by apply Hpout|].
    destruct (Hpin _ _ Hkv) as (info & Hi & Hl). rewrite (Hl Hp).
    destruct (Hinl _ _ Hkv) as (info' & c & s & Hi' & Hc). rewrite Hi in Hi'.
    injection Hi' as <-. unfold provided. by rewrite Hc.
  - split.
    + intros Hempty k v Hkv Hp.
      destruct (Hplace _ _ Hkv Hp) as (info & c & s & Hi & Hc & Hpl).
      case_bool_decide as Hd.
      * exists info, (String c s). by rewrite Hd.
      * destruct Hpl as (_ & _ & Hpl). rewrite Hempty, lookup_empty in Hpl. discriminate.
    + intros Hall. apply map_eq. intros k. rewrite lookup_empty.
      destruct (Hsplit k) as [Hk|(Hp & v & Hkv)];
        [by destruct (Hout k Hk) as (_ & _ & ?)|].
      destruct (Hplace _ _ Hkv Hp) as (info & c & s & Hi & Hc & Hpl).
      destruct (Hall _ _ Hkv Hp) as (info' & text & Hi' & Hc' & Hh'). rewrite Hi in Hi'.
      injection Hi' as <-. rewrite Hc in Hc'. injection Hc' as <-.
      rewrite bool_decide_eq_true_2 in Hpl by done. by destruct Hpl as (_ & _ & ?).
  - intros k v info text Hkv Hp Hi Hc Hh.
    destruct (Hplace _ _ Hkv Hp) as (info' & c & s & Hi' & Hc' & Hpl). rewrite Hi in Hi'.
    injection Hi' as <-. rewrite Hc in Hc'. injection Hc' as ->.
    rewrite bool_decide_eq_true_2 in Hpl by done. by destruct Hpl as (? & _).
Qed.

End MoreReconciliation.

(** ** More on the checking of a bag of files *)

Section MoreChecking.
Import Validation Text.
Context {rt : Runtime}.

(** The loop of [checkFiles] with the files it records as used. *)
Lemma checkFiles_loop_used (byHash : gmap string PathContent)
    (metadataFiles : list (option json)) (acc acc' : list CheckedContract * list string) :
  foldlM (fun '(checkedContracts, usedFiles) metadata =>
            r ← rearrangeSources metadata byHash;
            let currentUsedFiles := (map_to_list (metadata2provided r)).*2 in
            let checkedContract :=
              {| metadata := metadata;
                 solidity := foundSources r;
                 missing := missingSources r;
                 invalid := invalidSources r |} in
            Ok (checkedContracts ++ [checkedContract], usedFiles ++ currentUsedFiles))
         acc metadataFiles = Ok acc' ->
  forall p, p ∈ acc'.2
    <-> p ∈ acc.2
        \/ exists metadata r k, metadata ∈ metadataFiles
             /\ rearrangeSources metadata byHash = Ok r
             /\ metadata2provided r !! k = Some p.
Proof.
  revert acc. induction metadataFiles as [|md mds IH]; intros [cs us] H p.
  - cbn in H. injection H as <-. split; [by left|].
    intros [?|(? & ? & ? & Hm & _)]; [done|by apply elem_of_nil in Hm].
  - rewrite foldlM_cons in H. apply bind_Ok in H as ([cs1 us1] & H1 & H).
    apply bind_Ok in H1 as (r & Hr & H1). injection H1 as <- <-.
    rewrite (IH _ H p). cbn [snd]. rewrite elem_of_app. split.
    + intros [[?|Hp]|(md' & r' & k & Hm & Hr' & Hk)].
      * by left.
      * right. apply list_elem_of_fmap in Hp as ([k q] & -> & Hkq).
        apply elem_of_map_to_list in Hkq. exists md, r, k.
        split; [apply list_elem_of_here|done].
      * right. exists md', r', k. split; [by apply list_elem_of_further|done].
    + intros [?|(md' & r' & k & Hm & Hr' & Hk)]; [by left; left|].
      apply elem_of_cons in Hm as [->|Hm].
      * left; right. rewrite Hr in Hr'. injection Hr' as <-.
        apply list_elem_of_fmap. exists (k, p). split; [done|].
        by apply elem_of_map_to_list.
      * right. by exists md', r', k.
Qed.

Lemma checkFiles_unfold (files files' : list PathBuffer) (unused : option (list string))
    (mds : list (option json)) (srcs : list PathContent) :
  unzipFiles files = (Ok (), files') ->
  splitFiles (parseFiles files') = Ok (mds, srcs) ->
  checkFiles files unused
  = ('(checkedContracts, usedFiles) ←
       foldlM (fun '(checkedContracts, usedFiles) metadata =>
                 r ← rearrangeSources metadata (storeByHash srcs);
                 let currentUsedFiles := (map_to_list (metadata2provided r)).*2 in
                 let checkedContract :=
                   {| metadata := metadata;
                      solidity := foundSources r;
                      missing := missingSources r;
                      invalid := invalidSources r |} in
                 Ok (checkedContracts ++ [checkedContract],
                     usedFiles ++ currentUsedFiles))
              ([], []) mds;
     Ok (checkedContracts, extractUnused srcs usedFiles <$> unused),
     files').
Proof. intros Hu Hs. unfold checkFiles. rewrite Hu. cbn. by rewrite Hs. Qed.

(** X10.  What [checkFiles] appends to the [unused] array it is given: the
    paths of the source files, in their order and with their repetitions,
    except the paths recorded in [metadata2provided] for some manifest.
    What the array held before stays in front.  Without an array nothing
    is reported. *)
Theorem checkFiles_unused (files files' : list PathBuffer)
    (unused unused' : option (list string)) (cs : list CheckedContract) :
  checkFiles files unused = (Ok (cs, unused'), files') ->
  exists metadataFiles sourceFiles (usedFiles : list string),
    splitFiles (parseFiles files') = Ok (metadataFiles, sourceFiles)
    /\ (forall p, p ∈ usedFiles
          <-> exists metadata r k, metadata ∈ metadataFiles
                /\ rearrangeSources metadata (storeByHash sourceFiles) = Ok r
                /\ metadata2provided r !! k = Some p)
    /\ unused'
       = (fun before => before ++ filter (fun p => p ∉ usedFiles) (path <$> sourceFiles))
           <$> unused.
Proof.
  intros H. pose proof H as H'.
  apply checkFiles_Ok in H' as (Hu & mds & srcs & Hs & _).
  rewrite (checkFiles_unfold _ _ _ _ _ Hu Hs) in H. injection H as H.
  apply bind_Ok in H as ([cs' us] & Hloop & H). injection H as <- <-.
  exists mds, srcs, us. split; [done|]. split; [|done].
  intros p. rewrite (checkFiles_loop_used _ _ _ _ Hloop p). cbn [snd]. split.
  - intros [Hp|Hp]; [by apply elem_of_nil in Hp|done].
  - by right.
Qed.

(** X12.  A manifest that is [null] among those [splitFiles] returns makes
    [checkFiles] throw a runtime error, whatever the other files are. *)
Theorem checkFiles_null_manifest (files files' : list PathBuffer)
    (unused : option (list string)) (metadataFiles : list (option json))
    (sourceFiles : list PathContent) :
  unzipFiles files = (Ok (), files') ->
  splitFiles (parseFiles files') = Ok (metadataFiles, sourceFiles) ->
  None ∈ metadataFiles ->
  exists e, checkFiles files unused = (Throw e, files') /\ runtimeError e.
Proof.
  intros Hu Hs Hnone. rewrite (checkFiles_unfold _ _ _ _ _ Hu Hs).
  set (body := fun '(checkedContracts, usedFiles) metadata => _).
  assert (Hthrow : forall mds acc, None ∈ mds ->
            exists e, foldlM body acc mds = Throw e /\ runtimeError e).
  { clear. induction mds as [|md mds IH]; intros [cs us] Hin;
      [by apply elem_of_nil in Hin|].
    rewrite foldlM_cons. destruct (body (cs, us) md) as [acc'|e] eqn:Hb.
    - change (Ok ?a ≫= ?f) with (f a). cbv beta.
      apply elem_of_cons in Hin as [<-|Hin]; [discriminate Hb|]. by apply IH.
    - exists e. split; [done|]. unfold body in Hb.
      destruct (rearrangeSources md (storeByHash sourceFiles)) as [r|e'] eqn:Hr;
        [discriminate Hb|].
      injection Hb as <-. by eapply rearrangeSources_Throw. }
  destruct (Hthrow metadataFiles ([], []) Hnone) as (e & -> & He). by exists e.
Qed.

End MoreChecking.

(** ** More on archives *)

Section MoreArchives.
Import Validation Text.
Context {rt : Runtime}.

Lemma isByte_cons (c : Byte.byte) (file : list Byte.byte) (i : nat) (b : Byte.byte) :
  isByte (c :: file) (S i) b = isByte file i b.
Proof. reflexivity. Qed.

Lemma isByte_here (c : Byte.byte) (file : list Byte.byte) (b : Byte.byte) :
  isByte (c :: file) 0 b = true <-> c = b.
Proof.
  unfold isByte. cbn. split; [apply Byte.byte_dec_bl|apply Byte.byte_dec_lb].
Qed.

(** X13.  [isZip] holds exactly of the buffers of four bytes or more that
    start with 50 4b, then one of 03, 05, 07, then one of 04, 06, 08; a
    shorter buffer is no archive. *)
Theorem isZip_signature (file : list Byte.byte) :
  isZip file = true
  <-> exists b2 b3 rest,
        file = Byte.x50 :: Byte.x4b :: b2 :: b3 :: rest
        /\ b2 ∈ [Byte.x03; Byte.x05; Byte.x07]
        /\ b3 ∈ [Byte.x04; Byte.x06; Byte.x08].
Proof.
  unfold isZip. split.
  - intros H. repeat (apply andb_prop in H as [H ?]).
    destruct file as [|b0 [|b1 [|b2 [|b3 rest]]]]; try discriminate.
    apply isByte_here in H as ->. rewrite isByte_cons in *.
    match goal with H : isByte _ 0 _ = true |- _ => apply isByte_here in H as -> end.
    exists b2, b3, rest. split; [done|].
    repeat rewrite isByte_cons in *.
    repeat match goal with
           | H : (_ || _) = true |- _ => apply orb_prop in H as [H|H]
           | H : isByte _ 0 _ = true |- _ => apply isByte_here in H as ->
           end; split; set_solver.
  - intros (b2 & b3 & rest & -> & H2 & H3).
    repeat rewrite isByte_cons.
    assert (E0 : forall c l, isByte (c :: l) 0 c = true) by (intros; by apply isByte_here).
    rewrite !E0. cbn [andb].
    apply andb_true_intro. split.
    + repeat (apply elem_of_cons in H2 as [->|H2]; [rewrite E0; by rewrite ?orb_true_r|]).
      by apply elem_of_nil in H2.
    + repeat (apply elem_of_cons in H3 as [->|H3]; [rewrite E0; by rewrite ?orb_true_r|]).
      by apply elem_of_nil in H3.
Qed.

Lemma unzipLoop_failure (kept before after allUnzipped : list PathBuffer)
    (file : PathBuffer) :
  (forall f, f ∈ before -> isZip (buffer f) = true -> is_Some (JSZip_members (buffer f))) ->
  isZip (buffer file) = true ->
  JSZip_members (buffer file) = None ->
  unzipLoop kept (before ++ file :: after) allUnzipped
  = (Throw (UnzipError (bpath file)),
     kept ++ filter (fun f => isZip (buffer f) = false) before ++ file :: after).
Proof.
  intros Hb Hz Hm. revert kept allUnzipped.
  induction before as [|f before IH]; intros kept allUnzipped.
  - cbn [app unzipLoop]. rewrite Hz. unfold unzip. by rewrite Hm.
  - cbn [app unzipLoop]. destruct (isZip (buffer f)) eqn:Hf.
    + destruct (Hb f) as [members Hmem]; [apply list_elem_of_here|done|].
      unfold unzip at 1. rewrite Hmem. rewrite IH.
      * rewrite filter_cons_False; [done|]. by rewrite Hf.
      * intros f' Hf'. apply Hb. by apply list_elem_of_further.
    + rewrite IH.
      * rewrite filter_cons_True by done. by rewrite <- app_assoc.
      * intros f' Hf'. apply Hb. by apply list_elem_of_further.
Qed.

(** X14.  The first archive that cannot be read makes [unzipFiles] throw,
    naming its path.  The array then holds the files before it that are
    not archives, the failing archive and all that follows it: the
    archives before it are gone and their members are not added.
    [checkFiles] and [useAllSources] throw the same and leave the same
    array. *)
Theorem unzipFiles_failure (before after : list PathBuffer) (file : PathBuffer)
    (unused : option (list string)) (contract : CheckedContract) :
  (forall f, f ∈ before -> isZip (buffer f) = true -> is_Some (JSZip_members (buffer f))) ->
  isZip (buffer file) = true ->
  JSZip_members (buffer file) = None ->
  let files := before ++ file :: after in
  let left := filter (fun f => isZip (buffer f) = false) before ++ file :: after in
  unzipFiles files = (Throw (UnzipError (bpath file)), left)
  /\ checkFiles files unused = (Throw (UnzipError (bpath file)), left)
  /\ useAllSources contract files = (Throw (UnzipError (bpath file)), left).
Proof.
  intros Hb Hz Hm files left.
  assert (Hu : unzipFiles files = (Throw (UnzipError (bpath file)), left)).
  { unfold unzipFiles, files. by rewrite unzipLoop_failure. }
  split; [done|]. unfold checkFiles, useAllSources. by rewrite Hu.
Qed.

End MoreArchives.

(** ** More on the sorting of the files *)

Section MoreSplitting.
Import Validation Text.
Context {rt : Runtime}.

Lemma foldlM_app {A B} (f : A -> B -> result A) (l1 l2 : list B) (a : A) :
  foldlM f a (l1 ++ l2) = (a' ← foldlM f a l1; foldlM f a' l2).
Proof.
  revert a. induction l1 as [|x l1 IH]; intros a; [done|].
  cbn [app]. rewrite !foldlM_cons. destruct (f a x) as [a'|e]; [|done].
  change (Ok ?a ≫= ?f) with (f a). cbv beta. apply IH.
Qed.

Lemma classified_sorted (files : list PathContent) :
  malformedMetadataFiles (classified emptyAcc files) = [] ->
  metadataFiles (classified emptyAcc files)
  = Some <$> omap (fun file => recognize (content file)) files
  /\ (forall file m, file ∈ files -> recognize (content file) = Some m ->
        singleTarget m = true).
Proof.
  cbn. induction files as [|file files IH].
  { intros _. split; [done|]. intros f m Hf. by apply elem_of_nil in Hf. }
  cbn [omap list_omap]. destruct (recognize (content file)) as [m|] eqn:Hr.
  - destruct (singleTarget m) eqn:Hs; [|discriminate]. intros H.
    destruct (IH H) as [IH1 IH2]. split; [cbn; by rewrite <- IH1|].
    intros f m' Hf Hm'. apply elem_of_cons in Hf as [->|Hf]; [|by eapply IH2].
    rewrite Hr in Hm'. by injection Hm' as <-.
  - intros H. destruct (IH H) as [IH1 IH2]. split; [done|].
    intros f m' Hf Hm'. apply elem_of_cons in Hf as [->|Hf]; [|by eapply IH2].
    rewrite Hr in Hm'. discriminate.
Qed.

Lemma length_omap_filter {A B} (f : A -> option B) (l : list A) :
  length (omap f l) + length (filter (fun x => f x = None) l) = length l.
Proof.
  induction l as [|x l IH]; [done|]. cbn [omap list_omap].
  destruct (f x) as [y|] eqn:Hx.
  - rewrite filter_cons_False by (by rewrite Hx). cbn. lia.
  - rewrite filter_cons_True by done. cbn. lia.
Qed.

(** X15.  When [splitFiles] returns for files none of which is a Hardhat build
    output, every file is on one side: the manifests are what is
    recognized in the files, in their order, each has one compilation
    target, and there is at least one; the sources are the files in which
    nothing is recognized, in their order. *)
Theorem splitFiles_sorts (files : list PathContent) (manifests : list (option json))
    (sources : list PathContent) :
  Forall plain files ->
  splitFiles files = Ok (manifests, sources) ->
  manifests = Some <$> omap (fun file => recognize (content file)) files
  /\ sources = filter (fun file => recognize (content file) = None) files
  /\ length manifests + length sources = length files
  /\ manifests <> []
  /\ (forall file m, file ∈ files -> recognize (content file) = Some m ->
        Recognizable m /\ singleTarget m = true).
Proof.
  intros Hp Hs. pose proof Hs as Hs'.
  unfold splitFiles in Hs'. rewrite (splitLoop_plain _ _ Hp) in Hs'.
  change (Ok ?a ≫= ?f) with (f a) in Hs'. cbv beta in Hs'.
  destruct (malformedMetadataFiles (classified emptyAcc files)) eqn:Hmal; [|discriminate Hs'].
  destruct (metadataFiles (classified emptyAcc files)) as [|md mds] eqn:Hmd;
    [discriminate Hs'|].
  injection Hs' as <- <-.
  destruct (classified_sorted files Hmal) as [Hm Hsingle]. rewrite Hmd in Hm.
  split; [done|]. split; [done|]. split.
  - rewrite Hm, length_fmap. cbn [sourceFiles classified emptyAcc app].
    apply length_omap_filter.
  - split; [done|]. intros file m Hf Hr. split; [|by eapply Hsingle].
    apply isMetadata_Recognizable. by eapply recognize_object.
Qed.

Lemma splitFiles_hardhat_syntax (before after : list PathContent) (file : PathContent) :
  Forall plain before ->
  includes HARDHAT_OUTPUT_FORMAT (content file) = true ->
  JSON_parse (content file) = None ->
  splitFiles (before ++ file :: after) = Throw SyntaxError.
Proof.
  intros Hp Hh Hj. unfold splitFiles. rewrite foldlM_app, (splitLoop_plain _ _ Hp).
  change (Ok ?a ≫= ?f) with (f a). cbv beta. rewrite foldlM_cons.
  assert (Hstep : forall acc, splitStep acc file = Throw SyntaxError).
  { intros acc. unfold splitStep. rewrite Hh.
    unfold extractHardhatMetadataAndSources. by rewrite Hj. }
  by rewrite Hstep.
Qed.

(** X16.  A file that holds the Hardhat marker and is no JSON text is not
    taken for a source file: when the files before it are no Hardhat build
    outputs, [splitFiles] throws a syntax error at it, and so do
    [checkFiles] and [useAllSources]. *)
Theorem hardhat_syntax_error (files files' : list PathBuffer)
    (before after : list PathContent) (file : PathContent)
    (unused : option (list string)) (contract : CheckedContract) :
  unzipFiles files = (Ok (), files') ->
  parseFiles files' = before ++ file :: after ->
  Forall plain before ->
  includes HARDHAT_OUTPUT_FORMAT (content file) = true ->
  JSON_parse (content file) = None ->
  splitFiles (parseFiles files') = Throw SyntaxError
  /\ checkFiles files unused = (Throw SyntaxError, files')
  /\ useAllSources contract files = (Throw SyntaxError, files').
Proof.
  intros Hu Hf Hp Hh Hj.
  assert (Hs : splitFiles (parseFiles files') = Throw SyntaxError).
  { rewrite Hf. by apply splitFiles_hardhat_syntax. }
  split; [done|]. unfold checkFiles, useAllSources. rewrite Hu. cbn. by rewrite Hs.
Qed.

Lemma hardhat_sources_loop (entries : list (string * json)) (acc acc' : list PathContent) :
  foldlM (fun hardhatSourceFiles '(path, entry) =>
            c ← member (Some entry) "content";
            match c with
            | Some (JStr s) =>
                if truthy (JStr s)
                then Ok (hardhatSourceFiles ++ [{| path := path; content := s |}])
                else Ok hardhatSourceFiles
            | Some v => if truthy v then Throw IllTyped else Ok hardhatSourceFiles
            | None => Ok hardhatSourceFiles
            end)
         acc entries = Ok acc' ->
  acc' = acc ++ omap (fun '(p, entry) =>
                        match field entry "content" with
                        | Some (JStr (String c s)) =>
                            Some {| path := p; content := String c s |}
                        | _ => None
                        end) entries.
Proof.
  revert acc. induction entries as [|[p entry] entries IH]; intros acc H.
  - cbn in H. injection H as <-. by rewrite app_nil_r.
  - rewrite foldlM_cons in H. apply bind_Ok in H as (acc1 & H1 & H).
    apply IH in H as ->. cbn [omap list_omap].
    apply bind_Ok in H1 as (c & Hc & H1).
    destruct entry as [|b|n|s|l|m]; try discriminate Hc;
      injection Hc as <-; cbn [field] in *;
      try (injection H1 as <-; done).
    destruct (m !! "content") as [[|b|n|[|c s]|l|o]|]; cbn in H1;
      try discriminate H1; try (destruct b; [discriminate H1|]);
      try (destruct (n =? 0)%Z; [|discriminate H1]);
      injection H1 as <-; try done.
    by rewrite <- app_assoc.
Qed.

Lemma hardhat_contract_loop (named : list (string * json)) (acc acc' : list (option json)) :
  foldlM (fun hardhatMetadataFiles '(_, contract) =>
            m ← member (Some contract) "metadata";
            match m with
            | Some v =>
                if truthy v
                then
                  let metadataObj := extractMetadataFromString (to_string v) in
                  Ok (hardhatMetadataFiles ++ [metadataObj])
                else Ok hardhatMetadataFiles
            | None => Ok hardhatMetadataFiles
            end)
         acc named = Ok acc' ->
  forall md, md ∈ acc' -> md ∈ acc \/ exists text, md = extractMetadataFromString text.
Proof.
  revert acc. induction named as [|[p contract] named IH]; intros acc H md Hmd.
  - cbn in H. injection H as <-. by left.
  - rewrite foldlM_cons in H. apply bind_Ok in H as (acc1 & H1 & H).
    destruct (IH _ H md Hmd) as [Hin|Hex]; [|by right].
    apply bind_Ok in H1 as (m & Hm & H1).
    destruct m as [v|]; [|injection H1 as <-; by left].
    destruct (truthy v); [|injection H1 as <-; by left].
    injection H1 as <-. apply elem_of_app in Hin as [Hin|Hin]; [by left|].
    apply list_elem_of_singleton in Hin as ->. right. by eexists.
Qed.

Lemma hardhat_manifest_loop (contractEntries : list (string * json))
    (acc acc' : list (option json)) :
  foldlM (fun hardhatMetadataFiles '(_, contracts) =>
            named ← for_in (Some contracts);
            foldlM (fun hardhatMetadataFiles '(_, contract) =>
                      m ← member (Some contract) "metadata";
                      match m with
                      | Some v =>
                          if truthy v
                          then
                            let metadataObj := extractMetadataFromString (to_string v) in
                            Ok (hardhatMetadataFiles ++ [metadataObj])
                          else Ok hardhatMetadataFiles
                      | None => Ok hardhatMetadataFiles
                      end)
                   hardhatMetadataFiles named)
         acc contractEntries = Ok acc' ->
  forall md, md ∈ acc' -> md ∈ acc \/ exists text, md = extractMetadataFromString text.
Proof.
  revert acc. induction contractEntries as [|[p contracts] contractEntries IH];
    intros acc H md Hmd.
  - cbn in H. injection H as <-. by left.
  - rewrite foldlM_cons in H. apply bind_Ok in H as (acc1 & H1 & H).
    destruct (IH _ H md Hmd) as [Hin|Hex]; [|by right].
    apply bind_Ok in H1 as (named & Hn & H1).
    by eapply hardhat_contract_loop.
Qed.

(** X17.  What a Hardhat build output yields, the contents of its sources
    being strings where they are truthy: a source for each entry of
    [input.sources] whose [content] is a string that is not empty, under
    the key of the entry and with that content, and no other source
    (nothing is said of their order); every manifest it yields is [null]
    or is recognized. *)
Theorem extractHardhat_harvest (hardhatFile : PathContent)
    (manifests : list (option json)) (sources : list PathContent) :
  extractHardhatMetadataAndSources hardhatFile = Ok (manifests, sources) ->
  (forall m, Some m ∈ manifests -> Recognizable m)
  /\ exists hardhatJson sourceEntries,
       JSON_parse (content hardhatFile) = Some hardhatJson
       /\ for_in (opt_field (field hardhatJson "input") "sources") = Ok sourceEntries
       /\ forall source,
            source ∈ sources
            <-> content source <> EmptyString
                /\ exists entry, (path source, entry) ∈ sourceEntries
                                 /\ field entry "content" = Some (JStr (content source)).
Proof.
  unfold extractHardhatMetadataAndSources. intros H.
  destruct (JSON_parse (content hardhatFile)) as [hardhatJson|]; [|discriminate H].
  apply bind_Ok in H as (input & Hi & H).
  apply bind_Ok in H as (srcObj & Hso & H).
  apply bind_Ok in H as (sourceEntries & Hse & H).
  apply bind_Ok in H as (srcs & Hsrcs & H).
  apply bind_Ok in H as (output & Ho & H).
  apply bind_Ok in H as (contractsObject & Hco & H).
  apply bind_Ok in H as (contractEntries & Hce & H).
  apply bind_Ok in H as (mds & Hmds & H). injection H as <- <-.
  apply hardhat_sources_loop in Hsrcs. cbn [app] in Hsrcs.
  split.
  - intros m Hm. destruct (hardhat_manifest_loop _ _ _ Hmds _ Hm) as [Hin|[text Ht]];
      [by apply elem_of_nil in Hin|].
    apply isMetadata_Recognizable. by eapply extractMetadataFromString_isMetadata.
  - exists hardhatJson, sourceEntries. split; [done|]. split.
    { assert (input = field hardhatJson "input") as ->.
      { unfold member in Hi. destruct hardhatJson; try discriminate Hi; by injection Hi. }
      assert (srcObj = opt_field (field hardhatJson "input") "sources") as ->; [|done].
      unfold member in Hso. destruct (field hardhatJson "input") as [[]|];
        try discriminate Hso; by injection Hso. }
    intros source. rewrite Hsrcs, list_elem_of_omap. split.
    + intros ([p entry] & Hin & Hs).
      destruct (field entry "content") as [[|b|n|[|c s]|l|o]|] eqn:Hc;
        try discriminate Hs.
      injection Hs as <-. cbn [content path]. split; [done|]. by exists entry.
    + intros (Hne & entry & Hin & Hc). exists (path source, entry). split; [done|].
      rewrite Hc. destruct source as [p [|c s]]; [done|]. reflexivity.
Qed.

End MoreSplitting.

(** ** More on the union of the sources *)

Section MoreAllSources.
Import Validation Text.
Context {rt : Runtime}.

(** X19.  In the mapping of an array of files, an element whose key is not
    [__proto__] and that no later element shares its key with is stored
    under its key: of the elements with the same key the last one wins.
    Nothing is stored under [__proto__], whatever the array holds. *)
Theorem pathContentArrayToStringMap_last (l : list PathContent) (i : nat)
    (elem : PathContent) :
  l !! i = Some elem ->
  keyOf i elem <> "__proto__" ->
  (forall j elem', l !! j = Some elem' -> i < j -> keyOf j elem' <> keyOf i elem) ->
  pathContentArrayToStringMap l !! keyOf i elem = Some (content elem)
  /\ pathContentArrayToStringMap l !! "__proto__" = None.
Proof.
  intros Hi Hp Hlast. split.
  - revert i elem Hi Hp Hlast.
    induction l as [|x l IH] using rev_ind; intros i elem Hi Hp Hlast;
      [by rewrite lookup_nil in Hi|].
    rewrite pathContentArrayToStringMap_snoc.
    destruct (decide (i < length l)) as [Hlt|Hge].
    + rewrite lookup_app_l in Hi by done.
      rewrite lookup_assign_ne.
      * apply IH; [done|done|]. intros j elem' Hj Hij. apply Hlast; [|done].
        rewrite lookup_app_l; [done|]. by eapply lookup_lt_Some.
      * intros Heq. eapply Hlast; [|exact Hlt|symmetry; exact Heq].
        by rewrite list_lookup_middle.
    + apply lookup_lt_Some in Hi as Hlen. rewrite length_app in Hlen. cbn in Hlen.
      assert (i = length l) as -> by lia.
      rewrite list_lookup_middle in Hi by done. injection Hi as ->.
      by rewrite lookup_assign_eq.
  - destruct (pathContentArrayToStringMap l !! "__proto__") as [text|] eqn:Hk; [|done].
    by destruct (proj2 (pathContentArrayToStringMap_lookup l) _ _ Hk) as [? _].
Qed.

(** X20.  [useAllSources] needs a manifest among the files although it does
    not use one: once the archives are expanded and when no file is a
    Hardhat build output, it throws that no manifest is found exactly when
    nothing is recognized in any file, and that a manifest is malformed
    exactly when one that is recognized has not one compilation target. *)
Theorem useAllSources_failures (contract : CheckedContract) (files files' : list PathBuffer) :
  unzipFiles files = (Ok (), files') ->
  Forall plain (parseFiles files') ->
  ((forall file, file ∈ parseFiles files' -> recognize (content file) = None)
   <-> (useAllSources contract files).1 = Throw MetadataNotFound)
  /\ ((exists file m, file ∈ parseFiles files' /\ recognize (content file) = Some m
                       /\ singleTarget m = false)
      <-> exists responsibleFiles,
            (useAllSources contract files).1 = Throw (MalformedMetadata responsibleFiles)).
Proof.
  intros Hu Hp.
  assert (Hfail : forall e, (useAllSources contract files).1 = Throw e
                            <-> splitFiles (parseFiles files') = Throw e).
  { intros e. unfold useAllSources. rewrite Hu. cbn.
    destruct (splitFiles (parseFiles files')) as [[mds srcs]|e']; cbn;
      split; intros [=]; by subst. }
  destruct (splitFiles_plain _ Hp) as (Hmal & Hnone & _). split.
  - by rewrite Hfail.
  - rewrite Hmal. split; intros [rf Hrf]; exists rf; by apply Hfail.
Qed.

End MoreAllSources.

(** ** More on the recognition of a manifest *)

Section MoreRecognition.
Import Validation Text.
Context {rt : Runtime}.

(** X18.  A text that encodes a string, as a manifest encoded twice does, is
    read through one more time; a text that encodes a string that encodes
    a string again is not a manifest. *)
Theorem extractMetadataFromString_double (file inner : string) :
  JSON_parse file = Some (JStr inner) ->
  extractMetadataFromString file
  = match JSON_parse inner with
    | Some obj => if isMetadata (Some obj) then Some obj else None
    | None => None
    end
  /\ (forall obj, JSON_parse inner = Some obj -> Recognizable obj ->
        extractMetadataFromString file = Some obj)
  /\ (forall twice, JSON_parse inner = Some (JStr twice) ->
        extractMetadataFromString file = None).
Proof.
  intros Hf.
  assert (H : extractMetadataFromString file
              = match JSON_parse inner with
                | Some obj => if isMetadata (Some obj) then Some obj else None
                | None => None
                end).
  { unfold extractMetadataFromString. rewrite Hf. reflexivity. }
  split; [exact H|]. split.
  - intros obj Hi Hr. rewrite H, Hi.
    apply isMetadata_Recognizable in Hr. by rewrite Hr.
  - intros twice Hi. by rewrite H, Hi.
Qed.

End MoreRecognition.


(** ** The traversal of the paths *)

Section Paths.
Import Validation Text.
Context {rt : Runtime} {fs : FileSystem}.

Lemma Reaches_trans (a b c : string) : Reaches a b -> Reaches b c -> Reaches a c.
Proof.
  intros Hab Hbc. induction Hbc as [|q n Hq IH He Hd Hn]; [done|].
  by apply Reaches_nested.
Qed.

Lemma Reaches_inv_root (root p : string) :
  Reaches root p ->
  p = root
  \/ (existsSync root = true /\ lstatSync root = IsDirectory
      /\ exists nestedName, nestedName ∈ readdirSync root
                            /\ Reaches (Path_join root nestedName) p).
Proof.
  induction 1 as [|q n Hq IH He Hd Hn]; [by left|]. right.
  destruct IH as [->|(He' & Hd' & n' & Hn' & Hr)].
  - split; [done|]. split; [done|]. exists n. split; [done|]. apply Reaches_root.
  - split; [done|]. split; [done|]. exists n'. split; [done|]. by apply Reaches_nested.
Qed.

Lemma Reaches_child (root nestedName p : string) :
  existsSync root = true -> lstatSync root = IsDirectory ->
  nestedName ∈ readdirSync root ->
  Reaches (Path_join root nestedName) p -> Reaches root p.
Proof.
  intros He Hd Hn Hp. eapply Reaches_trans; [|exact Hp].
  apply Reaches_nested; [apply Reaches_root|done..].
Qed.

Lemma forEach_visit_ext (visit visit' : string -> option (traversal (list Visit)))
    (names : list string) :
  (forall name, name ∈ names -> visit name = visit' name) ->
  forEach_visit visit names = forEach_visit visit' names.
Proof.
  induction names as [|n names IH]; intros H; [done|]. cbn [forEach_visit].
  rewrite <- (H n) by apply list_elem_of_here.
  rewrite IH; [done|]. intros m Hm. apply H. by apply list_elem_of_further.
Qed.

Lemma traversePathRecursively_S (depth : nat) (afterDirectory : bool) (path : string) :
  traversePathRecursively (S depth) afterDirectory path
  = if negb (existsSync path) then Some (inl path)
    else
      match lstatSync path with
      | IsFile => Some (inr [Worker path])
      | IsDirectory =>
          match forEach_visit
                  (fun nestedName =>
                     traversePathRecursively depth afterDirectory
                       (Path_join path nestedName))
                  (readdirSync path) with
          | Some (inr visits) =>
              Some (inr (visits ++ if afterDirectory then [AfterDirectory path] else []))
          | other => other
          end
      | IsOther => Some (inr [])
      end.
Proof. reflexivity. Qed.

(** More depth than the nesting of the directories changes nothing. *)
Lemma traversePathRecursively_depth (depth : nat) (afterDirectory : bool) (path : string) :
  Nested depth path ->
  forall fuel, depth < fuel ->
    traversePathRecursively fuel afterDirectory path
    = traversePathRecursively (S depth) afterDirectory path.
Proof.
  induction 1 as [depth path Hleaf|depth path Hdir IH]; intros fuel Hf.
  - destruct fuel as [|fuel]; [lia|]. rewrite !traversePathRecursively_S.
    destruct (existsSync path); cbn [negb]; [|done].
    destruct Hleaf as [?|Hleaf]; [done|].
    destruct (lstatSync path); done.
  - destruct fuel as [|fuel]; [lia|].
    rewrite (traversePathRecursively_S fuel), (traversePathRecursively_S (S depth)).
    destruct (existsSync path); cbn [negb]; [|done].
    destruct (lstatSync path); [done| |done].
    rewrite (forEach_visit_ext
               (fun nestedName => traversePathRecursively fuel afterDirectory
                                    (Path_join path nestedName))
               (fun nestedName => traversePathRecursively (S depth) afterDirectory
                                    (Path_join path nestedName))); [done|].
    intros n Hn. apply IH; [done|lia].
Qed.

Lemma forEach_children (depth : nat) (afterDirectory : bool) (path : string)
    (names : list string) :
  (forall name, name ∈ names ->
     exists outcome,
       traversePathRecursively depth afterDirectory (Path_join path name) = Some outcome
       /\ traversed afterDirectory (Path_join path name) outcome) ->
  exists outcome,
    forEach_visit (fun nestedName =>
                     traversePathRecursively depth afterDirectory
                       (Path_join path nestedName)) names = Some outcome
    /\ match outcome with
       | inl nonexistent =>
           exists name, name ∈ names /\ Reaches (Path_join path name) nonexistent
                        /\ existsSync nonexistent = false
       | inr visits =>
           (forall name p, name ∈ names -> Reaches (Path_join path name) p ->
                           existsSync p = true)
           /\ (forall p, Worker p ∈ visits
                         <-> exists name, name ∈ names /\ Reaches (Path_join path name) p
                                          /\ lstatSync p = IsFile)
           /\ (forall p, AfterDirectory p ∈ visits
                         <-> afterDirectory = true
                             /\ exists name, name ∈ names
                                  /\ Reaches (Path_join path name) p
                                  /\ lstatSync p = IsDirectory)
       end.
Proof.
  induction names as [|n names IH]; intros Hall.
  - exists (inr []). split; [done|]. split; [|split].
    + intros name p Hn. by apply elem_of_nil in Hn.
    + intros p. split; [intros Hp; by apply elem_of_nil in Hp|].
      intros (name & Hn & _). by apply elem_of_nil in Hn.
    + intros p. split; [intros Hp; by apply elem_of_nil in Hp|].
      intros (_ & name & Hn & _). by apply elem_of_nil in Hn.
  - cbn [forEach_visit].
    destruct (Hall n (list_elem_of_here _ _)) as (o & -> & Ho).
    destruct o as [nonexistent|visits].
    + exists (inl nonexistent). split; [done|]. destruct Ho as [Hr He].
      exists n. split; [apply list_elem_of_here|done].
    + destruct IH as (o' & -> & Ho').
      { intros name Hname. apply Hall. by apply list_elem_of_further. }
      destruct o' as [nonexistent|visits'].
      * exists (inl nonexistent). split; [done|].
        destruct Ho' as (name & Hname & Hr & He). exists name.
        split; [by apply list_elem_of_further|done].
      * exists (inr (visits ++ visits')). split; [done|].
        destruct Ho as (He & Hw & Ha). destruct Ho' as (He' & Hw' & Ha').
        split; [|split].
        -- intros name p Hname Hr. apply elem_of_cons in Hname as [->|Hname];
             [by apply He|by eapply He'].
        -- intros p. rewrite elem_of_app, Hw, Hw'. split.
           ++ intros [[Hr Hf]|(name & Hname & Hr & Hf)].
              ** exists n. split; [apply list_elem_of_here|done].
              ** exists name. split; [by apply list_elem_of_further|done].
           ++ intros (name & Hname & Hr & Hf).
              apply elem_of_cons in Hname as [->|Hname]; [by left|].
              right. by exists name.
        -- intros p. rewrite elem_of_app, Ha, Ha'. split.
           ++ intros [(Hafter & Hr & Hf)|(Hafter & name & Hname & Hr & Hf)].
              ** split; [done|]. exists n. split; [apply list_elem_of_here|done].
              ** split; [done|]. exists name. split; [by apply list_elem_of_further|done].
           ++ intros (Hafter & name & Hname & Hr & Hf).
              apply elem_of_cons in Hname as [->|Hname]; [by left|].
              right. split; [done|]. by exists name.
Qed.

Lemma traversePathRecursively_spec (depth : nat) (afterDirectory : bool) (path : string) :
  Nested depth path ->
  exists outcome,
    traversePathRecursively (S depth) afterDirectory path = Some outcome
    /\ traversed afterDirectory path outcome.
Proof.
  assert (Hleaf : forall depth path,
            existsSync path = false \/ lstatSync path <> IsDirectory ->
            exists outcome,
              traversePathRecursively (S depth) afterDirectory path = Some outcome
              /\ traversed afterDirectory path outcome).
  { clear. intros depth path Hleaf. rewrite traversePathRecursively_S.
    destruct (existsSync path) eqn:He; cbn [negb].
    - destruct Hleaf as [?|Hleaf]; [done|].
      assert (Honly : forall p, Reaches path p -> p = path).
      { intros p Hp. apply Reaches_inv_root in Hp as [->|(_ & Hd & _)]; done. }
      destruct (lstatSync path) eqn:Hs; [|done|].
      + exists (inr [Worker path]). split; [done|]. split; [|split].
        * intros p Hp. by rewrite (Honly p Hp).
        * intros p. rewrite list_elem_of_singleton. split.
          -- intros [= ->]. split; [apply Reaches_root|done].
          -- intros [Hp _]. by rewrite (Honly p Hp).
        * intros p. rewrite list_elem_of_singleton. split; [intros [=]|].
          intros (_ & Hp & Hd). rewrite (Honly p Hp) in Hd. congruence.
      + exists (inr []). split; [done|]. split; [|split].
        * intros p Hp. by rewrite (Honly p Hp).
        * intros p. split; [intros Hp; by apply elem_of_nil in Hp|].
          intros [Hp Hf]. rewrite (Honly p Hp) in Hf. congruence.
        * intros p. split; [intros Hp; by apply elem_of_nil in Hp|].
          intros (_ & Hp & Hd). rewrite (Honly p Hp) in Hd. congruence.
    - exists (inl path). split; [done|]. split; [apply Reaches_root|done]. }
  induction 1 as [depth path Hl|depth path Hdir IH]; [by apply Hleaf|].
  destruct (existsSync path) eqn:He; [|apply Hleaf; by left].
  destruct (lstatSync path) eqn:Hs; [apply Hleaf; right; congruence| |
                                     apply Hleaf; right; congruence].
  rewrite traversePathRecursively_S, He, Hs. cbn [negb].
  destruct (forEach_children (S depth) afterDirectory path (readdirSync path) IH)
    as (o & -> & Ho).
  destruct o as [nonexistent|visits].
  - exists (inl nonexistent). split; [done|].
    destruct Ho as (name & Hname & Hr & Hne). split; [|done].
    by eapply Reaches_child.
  - exists (inr (visits ++ (if afterDirectory then [AfterDirectory path] else []))).
    split; [done|]. destruct Ho as (Hex & Hw & Ha). split; [|split].
    + intros p Hp. apply Reaches_inv_root in Hp as [->|(_ & _ & name & Hname & Hr)];
        [done|by eapply Hex].
    + intros p. rewrite elem_of_app, Hw. split.
      * intros [(name & Hname & Hr & Hf)|Hp].
        -- split; [by eapply Reaches_child|done].
        -- destruct afterDirectory; [|by apply elem_of_nil in Hp].
           by apply list_elem_of_singleton in Hp.
      * intros [Hp Hf]. left.
        apply Reaches_inv_root in Hp as [->|(_ & _ & name & Hname & Hr)]; [congruence|].
        by exists name.
    + intros p. rewrite elem_of_app, Ha. split.
      * intros [(Hafter & name & Hname & Hr & Hd)|Hp].
        -- split; [done|]. split; [by eapply Reaches_child|done].
        -- destruct afterDirectory; [|by apply elem_of_nil in Hp].
           apply list_elem_of_singleton in Hp. injection Hp as ->.
           split; [done|]. split; [apply Reaches_root|done].
      * intros (Hafter & Hp & Hd). rewrite Hafter.
        apply Reaches_inv_root in Hp as [->|(_ & _ & name & Hname & Hr)].
        -- right. by apply list_elem_of_singleton.
        -- left. split; [done|]. by exists name.
Qed.

(** X21.  [traversePathRecursively] returns or throws once the depth covers
    the nesting of the directories, and more depth changes nothing.  It
    throws exactly at a path it comes to that does not exist.  Otherwise
    the worker is called with the files it comes to and with nothing else,
    and [afterDirectory], when given, with the directories. *)
Theorem traversePathRecursively_visits (depth : nat) (afterDirectory : bool)
    (path : string) :
  Nested depth path ->
  exists outcome,
    (forall fuel, depth < fuel ->
       traversePathRecursively fuel afterDirectory path = Some outcome)
    /\ match outcome with
       | inl nonexistent => Reaches path nonexistent /\ existsSync nonexistent = false
       | inr visits =>
           (forall p, Reaches path p -> existsSync p = true)
           /\ (forall p, Worker p ∈ visits <-> Reaches path p /\ lstatSync p = IsFile)
           /\ (forall p, AfterDirectory p ∈ visits
                         <-> afterDirectory = true /\ Reaches path p
                             /\ lstatSync p = IsDirectory)
       end.
Proof.
  intros Hn. destruct (traversePathRecursively_spec depth afterDirectory path Hn)
    as (outcome & Ht & Ho).
  exists outcome. split; [|exact Ho].
  intros fuel Hf. by rewrite (traversePathRecursively_depth depth afterDirectory path Hn).
Qed.

Lemma checkPaths_loop_spec (depth : nat) (paths : list string) (files : list PathBuffer)
    (ignoring : option (list string)) :
  (forall path, path ∈ paths -> Nested depth path) ->
  exists outcome ignoring',
    checkPaths_loop (S depth) paths files ignoring = Some (outcome, ignoring')
    /\ match outcome with
       | inl nonexistent =>
           exists before path after,
             paths = before ++ path :: after
             /\ existsSync path = true
             /\ Reaches path nonexistent
             /\ existsSync nonexistent = false
             /\ ignoring'
                = (fun ignoring =>
                     ignoring ++ filter (fun p => existsSync p = false) before)
                    <$> ignoring
       | inr files' =>
           ignoring'
           = (fun ignoring => ignoring ++ filter (fun p => existsSync p = false) paths)
               <$> ignoring
           /\ (forall path p, path ∈ paths -> existsSync path = true -> Reaches path p ->
                              existsSync p = true)
           /\ exists read,
                files' = files ++ read
                /\ forall file,
                     file ∈ read
                     <-> exists path p,
                           path ∈ paths /\ existsSync path = true /\ Reaches path p
                           /\ lstatSync p = IsFile
                           /\ file = {| bpath := Path_resolve p;
                                        buffer := readFileSync p |}
       end.
Proof.
  revert files ignoring. induction paths as [|path paths IH]; intros files ignoring Hn.
  - exists (inr files), ignoring. split; [done|]. split; [by destruct ignoring as [l|];
      cbn; rewrite ?app_nil_r|].
    split; [intros ? ? Hp; by apply elem_of_nil in Hp|].
    exists []. split; [by rewrite app_nil_r|]. intros file.
    split; [intros Hf; by apply elem_of_nil in Hf|].
    intros (? & ? & Hp & _). by apply elem_of_nil in Hp.
  - assert (Hn' : forall p, p ∈ paths -> Nested depth p).
    { intros p Hp. apply Hn. by apply list_elem_of_further. }
    cbn [checkPaths_loop]. destruct (existsSync path) eqn:He.
    + destruct (traversePathRecursively_spec depth false path)
        as (o & Ht & Ho); [apply Hn, list_elem_of_here|].
      rewrite Ht. destruct o as [nonexistent|visits].
      * exists (inl nonexistent), ignoring. split; [done|]. destruct Ho as [Hr Hne].
        exists [], path, paths. split; [done|]. split; [done|]. split; [done|].
        split; [done|]. destruct ignoring; cbn; by rewrite ?app_nil_r.
      * destruct Ho as (Hex & Hw & _).
        destruct (IH (files ++ ((fun filePath =>
                                   {| bpath := Path_resolve filePath;
                                      buffer := readFileSync filePath |})
                                  <$> workerPaths visits)) ignoring Hn')
          as (o & ign' & -> & Ho).
        exists o, ign'. split; [done|]. destruct o as [nonexistent|files'].
        -- destruct Ho as (before & p & after & -> & Hp & Hr & Hne & ->).
           exists (path :: before), p, after. split; [done|]. split; [done|].
           split; [done|]. split; [done|].
           rewrite filter_cons_False; [done|]. by rewrite He.
        -- destruct Ho as (-> & Hex' & read & -> & Hread). split; [|split].
           ++ rewrite filter_cons_False; [done|]. by rewrite He.
           ++ intros q p Hq Heq Hr. apply elem_of_cons in Hq as [->|Hq];
                [by apply Hex|by eapply Hex'].
           ++ exists (((fun filePath =>
                          {| bpath := Path_resolve filePath;
                             buffer := readFileSync filePath |})
                         <$> workerPaths visits) ++ read).
              split; [by rewrite app_assoc|]. intros file.
              rewrite elem_of_app, Hread, list_elem_of_fmap. split.
              ** intros [(p & -> & Hp)|(q & p & Hq & Heq & Hr & Hf & ->)].
                 --- apply list_elem_of_omap in Hp as (v & Hv & Hp).
                     destruct v as [p'|p']; [|discriminate Hp]. injection Hp as ->.
                     apply Hw in Hv as [Hr Hf]. exists path, p.
                     split; [apply list_elem_of_here|done].
                 --- exists q, p. split; [by apply list_elem_of_further|done].
              ** intros (q & p & Hq & Heq & Hr & Hf & ->).
                 apply elem_of_cons in Hq as [->|Hq].
                 --- left. exists p. split; [done|]. apply list_elem_of_omap.
                     exists (Worker p). split; [|done]. apply Hw. done.
                 --- right. by exists q, p.
    + destruct (IH files ((fun ignoring => ignoring ++ [path]) <$> ignoring) Hn')
        as (o & ign' & -> & Ho).
      exists o, ign'. split; [done|]. destruct o as [nonexistent|files'].
      * destruct Ho as (before & p & after & -> & Hp & Hr & Hne & ->).
        exists (path :: before), p, after. split; [done|]. split; [done|].
        split; [done|]. split; [done|].
        rewrite filter_cons_True by done.
        destruct ignoring; cbn; [|done]. by rewrite <- app_assoc.
      * destruct Ho as (-> & Hex' & read & -> & Hread). split; [|split].
        -- rewrite filter_cons_True by done.
           destruct ignoring; cbn; [|done]. by rewrite <- app_assoc.
        -- intros q p Hq Heq Hr. apply elem_of_cons in Hq as [->|Hq];
             [congruence|by eapply Hex'].
        -- exists read. split; [done|]. intros file. rewrite Hread. split.
           ++ intros (q & p & Hq & Hrest). exists q, p.
              split; [by apply list_elem_of_further|done].
           ++ intros (q & p & Hq & Heq & Hrest).
              apply elem_of_cons in Hq as [->|Hq]; [congruence|]. by exists q, p.
Qed.

Lemma workerPaths_app (visits visits' : list Visit) :
  workerPaths (visits ++ visits') = workerPaths visits ++ workerPaths visits'.
Proof. unfold workerPaths. apply omap_app. Qed.

(** The worker is called with the files of the walk, in its order. *)
Lemma traversePathRecursively_Walk (depth : nat) (path : string) (visits : list Visit) :
  traversePathRecursively depth false path = Some (inr visits) ->
  Walk path (workerPaths visits).
Proof.
  revert path visits. induction depth as [|depth IH]; intros path visits H;
    [discriminate H|].
  rewrite traversePathRecursively_S in H.
  destruct (existsSync path) eqn:He; cbn [negb] in H; [|discriminate H].
  destruct (lstatSync path) eqn:Hs.
  - injection H as <-. by apply Walk_file.
  - destruct (forEach_visit _ (readdirSync path)) as [[nonexistent|vs]|] eqn:Hf;
      try discriminate H.
    injection H as <-. rewrite app_nil_r. apply Walk_directory; [done..|].
    revert vs Hf. generalize (readdirSync path) as names.
    induction names as [|name names IHn]; intros vs Hf; cbn [forEach_visit] in Hf.
    + injection Hf as <-. apply WalkEach_nil.
    + destruct (traversePathRecursively depth false (Path_join path name))
        as [[nonexistent|v1]|] eqn:H1; try discriminate Hf.
      destruct (forEach_visit _ names) as [[nonexistent|v2]|] eqn:H2;
        try discriminate Hf.
      injection Hf as <-. rewrite workerPaths_app.
      apply WalkEach_cons; [by apply IH|by apply IHn].
  - injection H as <-. by apply Walk_other.
Qed.

(** A walk has one result. *)
Lemma Walk_functional (path : string) (found found' : list string) :
  Walk path found -> Walk path found' -> found = found'.
Proof.
  intros H. revert found'. revert path found H.
  apply (Walk_mut
           (fun path found => forall found', Walk path found' -> found = found')
           (fun path names found =>
              forall found', WalkEach path names found' -> found = found')).
  - intros path He Hf found' H'.
    inversion H' as [| |??? Hs]; subst; [done|congruence|congruence].
  - intros path He Hf found' H'.
    inversion H' as [| |??? Hs]; subst; [congruence|done|congruence].
  - intros path found He Hf Hw IH found' H'.
    inversion H' as [| |? ? ? Hs Hw']; subst; [congruence|congruence|]. by apply IH.
  - intros path found' H'. by inversion H'.
  - intros path name names here rest Hh IHh Hr IHr found' H'.
    inversion H' as [|? ? ? here' rest' Hh' Hr']; subst.
    by rewrite (IHh _ Hh'), (IHr _ Hr').
Qed.

Lemma Forall2_Walk_functional (paths : list string) (lists lists' : list (list string)) :
  Forall2 Walk paths lists -> Forall2 Walk paths lists' -> lists = lists'.
Proof.
  intros H. revert lists'. induction H as [|p l ps ls Hp Hps IH]; intros lists' H'.
  - by apply Forall2_nil_inv_l in H'.
  - apply Forall2_cons_inv_l in H' as (l' & ls' & Hp' & Hps' & ->).
    by rewrite (Walk_functional _ _ _ Hp Hp'), (IH _ Hps').
Qed.

(** The files the loop of [checkPaths] has read when it ends: those of
    the walks from the paths that exist, one walk after the other. *)
Lemma checkPaths_loop_Walk (depth : nat) (paths : list string)
    (files files' : list PathBuffer) (ignoring ignoring' : option (list string)) :
  checkPaths_loop depth paths files ignoring = Some (inr files', ignoring') ->
  exists lists,
    Forall2 Walk (filter (fun p => existsSync p = true) paths) lists
    /\ files' = files ++ (readFile <$> concat lists).
Proof.
  revert files ignoring. induction paths as [|path paths IH]; intros files ignoring H.
  - cbn in H. injection H as <- <-. exists []. split; [constructor|].
    by rewrite app_nil_r.
  - cbn [checkPaths_loop] in H. destruct (existsSync path) eqn:He.
    + destruct (traversePathRecursively depth false path) as [[nonexistent|visits]|]
        eqn:Ht; try discriminate H.
      apply IH in H as (lists & Hl & ->).
      exists (workerPaths visits :: lists). split.
      * rewrite filter_cons_True by done.
        apply Forall2_cons; split; [|done]. by eapply traversePathRecursively_Walk.
      * cbn [concat]. by rewrite fmap_app, app_assoc.
    + apply IH in H as (lists & Hl & ->). exists lists. split; [|done].
      rewrite filter_cons_False; [done|]. by rewrite He.
Qed.

(** X22.  [checkPaths] on paths whose directories are nested within the depth.
    A path of the list that does not exist is skipped, and pushed to
    [ignoring] when that is given; a path that does not exist under a
    directory makes the call throw, with what was skipped before it
    already in [ignoring].  Otherwise every path under the paths exists,
    [ignoring] has received the paths of the list that do not exist, in
    order, and the result is that of [checkFiles] on the files of the
    walks from the paths that exist, one walk after the other, each file
    with its resolved path and its bytes; these walks are the only ones
    there are. *)
Theorem checkPaths_reads (depth : nat) (paths : list string)
    (ignoring : option (list string)) :
  (forall path, path ∈ paths -> Nested depth path) ->
  exists outcome ignoring',
    checkPaths (S depth) paths ignoring = Some (outcome, ignoring')
    /\ match outcome with
       | inl nonexistent =>
           exists before path after,
             paths = before ++ path :: after
             /\ existsSync path = true
             /\ Reaches path nonexistent
             /\ existsSync nonexistent = false
             /\ ignoring'
                = (fun ignoring =>
                     ignoring ++ filter (fun p => existsSync p = false) before)
                    <$> ignoring
       | inr checked =>
           ignoring'
           = (fun ignoring => ignoring ++ filter (fun p => existsSync p = false) paths)
               <$> ignoring
           /\ (forall path p, path ∈ paths -> existsSync path = true -> Reaches path p ->
                              existsSync p = true)
           /\ exists lists,
                Forall2 Walk (filter (fun p => existsSync p = true) paths) lists
                /\ (forall lists',
                      Forall2 Walk (filter (fun p => existsSync p = true) paths) lists' ->
                      lists' = lists)
                /\ checked = match (checkFiles (readFile <$> concat lists) None).1 with
                             | Ok (checkedContracts, _) => Ok checkedContracts
                             | Throw e => Throw e
                             end
       end.
Proof.
  intros Hn. unfold checkPaths.
  destruct (checkPaths_loop_spec depth paths [] ignoring Hn) as (o & ign' & Hloop & Ho).
  rewrite Hloop. destruct o as [nonexistent|files].
  - exists (inl nonexistent), ign'. done.
  - eexists (inr _), ign'. split; [done|].
    destruct Ho as (Hi & Hex & _). split; [done|]. split; [done|].
    apply checkPaths_loop_Walk in Hloop as (lists & Hl & ->).
    exists lists. split; [done|]. split; [|done].
    intros lists' Hl'. by eapply Forall2_Walk_functional.
Qed.

End Paths.

(** ** More on the chain monitor *)

Section MoreMonitor.
Import Monitor.
Context {sv : Services}.

Lemma processBlock_running (k : Constants) (n : Z) (fetched : Fetched) (m : ChainMonitor) :
  running (monitor (processBlock k n fetched m)) = running m.
Proof.
  destruct fetched as [|[block|]]; [done| |done]. unfold processBlock.
  by destruct (processTransactions _ (transactions block)).
Qed.

Lemma step_stopped (k : Constants) (r : Run) (e : Event) :
  running (state r) = false ->
  running (state (step k r e)) = false
  /\ (length (log (step k r e)) <= S (length (log r)))%nat
  /\ (pending r = None -> pending (step k r e) = None /\ log (step k r e) = log r)
  /\ (forall fetched, e = Settle fetched -> pending (step k r e) = None).
Proof.
  intros Hr. destruct e as [fetched|]; cbn [step].
  - destruct (pending r) as [b|] eqn:Hp.
    + cbn [state pending log]. rewrite processBlock_running, processBlock_timer, Hr.
      split; [done|]. split.
      * destruct (handled _); [rewrite length_app; cbn; lia|lia].
      * split; [done|]. done.
    + split; [done|]. split; [lia|]. split; [done|]. done.
  - cbn. split; [done|]. split; [lia|]. split; [done|]. intros ? [=].
Qed.

Lemma run_stopped (k : Constants) (events : list Event) (r : Run) :
  running (state r) = false ->
  running (state (run k r events)) = false
  /\ (length (log (run k r events)) <= S (length (log r)))%nat
  /\ (pending r = None -> pending (run k r events) = None
                           /\ log (run k r events) = log r)
  /\ (forall fetched, Settle fetched ∈ events -> pending (run k r events) = None).
Proof.
  revert r. induction events as [|e events IH]; intros r Hr.
  - cbn. split; [done|]. split; [lia|]. split; [done|].
    intros f Hf. by apply elem_of_nil in Hf.
  - change (run k r (e :: events)) with (run k (step k r e) events).
    destruct (step_stopped k r e Hr) as (Hr1 & Hlen1 & Hnone1 & Hsettle1).
    destruct (IH _ Hr1) as (Hr2 & Hlen2 & Hnone2 & Hsettle2).
    split; [done|].
    assert (Hp : pending r = None ->
                 pending (run k (step k r e) events) = None
                 /\ log (run k (step k r e) events) = log r).
    { intros Hp. destruct (Hnone1 Hp) as [Hp1 Hl1].
      destruct (Hnone2 Hp1) as [Hp2 Hl2]. split; [done|]. by rewrite Hl2. }
    split; [|split; [done|]].
    + destruct e as [fetched|].
      * destruct (Hnone2 (Hsettle1 _ eq_refl)) as [_ ->]. done.
      * cbn [step] in *. exact Hlen2.
    + intros fetched Hf. apply elem_of_cons in Hf as [<-|Hf]; [|by eapply Hsettle2].
      by destruct (Hnone2 (Hsettle1 _ eq_refl)).
Qed.

(** X23.  [stop] lets the pending call of [processBlock] finish and arms no
    new one: the call that was pending stays pending; once it has settled
    none is pending any more; and at most one more block is handled,
    whatever happens afterwards. *)
Theorem stop_drains (k : Constants) (r : Run) (events : list Event) :
  let stopped := step k r Stop in
  let r' := run k stopped events in
  pending stopped = pending r
  /\ log stopped = log r
  /\ running (state r') = false
  /\ (length (log r') <= S (length (log r)))%nat
  /\ (forall fetched, Settle fetched ∈ events -> pending r' = None)
  /\ (pending r = None -> log r' = log r).
Proof.
  intros stopped r'. split; [done|]. split; [done|].
  destruct (run_stopped k events stopped eq_refl) as (H1 & H2 & H3 & H4).
  split; [done|]. split; [done|]. split; [done|].
  intros Hp. by destruct (H3 Hp).
Qed.

(** X24.  What [processBlock] launches: nothing unless the block is there;
    for a block, the transactions are gone through in order up to the
    first one at which a call of the body throws, if there is one, and a
    reading of the bytecode is launched for each of those before it that
    creates a contract whose address is not verified yet, with the input
    of the transaction, the address and the initial number of tries; the
    block counts as handled when no transaction throws. *)
Theorem processBlock_launches (k : Constants) (n : Z) (fetched : Fetched)
    (m : ChainMonitor) :
  match fetched with
  | Resolved (Some block) =>
      exists before rest,
        transactions block = before ++ rest
        /\ Forall (fun tx => throws m tx = false) before
        /\ match rest with
           | [] => handled (processBlock k n fetched m) = true
           | tx :: _ => throws m tx = true /\ handled (processBlock k n fetched m) = false
           end
        /\ launched (processBlock k n fetched m)
           = omap (fun tx =>
                     if createsContract tx then
                       address ← getContractAddress tx;
                       length ← findByAddress_length address (chainId m);
                       if Nat.eqb length 0
                       then Some {| creationData := input tx; address := address;
                                    retriesLeft := initialGetBytecodeTries m |}
                       else None
                     else None)
                  before
  | _ => launched (processBlock k n fetched m) = []
         /\ handled (processBlock k n fetched m) = false
  end.
Proof.
  destruct fetched as [|[block|]]; [done| |done].
  destruct (processTransactions_launched m (transactions block))
    as (before & rest & Htxs & Hb & Hr & Hl).
  exists before, rest. split; [done|]. split; [done|].
  unfold processBlock. rewrite processTransactions_pause.
  destruct (processTransactions m (transactions block)) as [ls completed].
  cbn [fst snd launched handled] in *. split; [exact Hr|]. rewrite Hl.
  apply list_omap_ext, Forall_Forall2_diag, Forall_forall. intros tx _. unfold launchOf.
  destruct (createsContract tx); [|done].
  destruct (getContractAddress tx) as [address|]; [|done]. cbn.
  by destruct (findByAddress_length address (chainId m)) as [[|l]|].
Qed.

Lemma run_blocks (k : Constants) (blocks : list Block) (r : Run) (b : Z) :
  running (state r) = true ->
  pending r = Some b ->
  Forall (fun block => completes (state r) block = true) blocks ->
  pending (run k r ((fun block => Settle (Resolved (Some block))) <$> blocks))
  = Some (b + Z.of_nat (length blocks))%Z
  /\ log (run k r ((fun block => Settle (Resolved (Some block))) <$> blocks))
     = log r ++ ((fun i => (b + Z.of_nat i)%Z) <$> seq 0 (length blocks)).
Proof.
  revert r b. induction blocks as [|block blocks IH]; intros r b Hr Hp Hc.
  - cbn. rewrite Hp, app_nil_r. split; [|done]. f_equal. lia.
  - apply Forall_cons in Hc as [Hc Hcs].
    cbn [fmap list_fmap]. change (run k r (?e :: ?l)) with (run k (step k r e) l).
    assert (Hstep : step k r (Settle (Resolved (Some block)))
                    = {| state := adaptBlockPause k decrease (state r);
                         pending := Some (b + 1)%Z;
                         log := log r ++ [b] |}).
    { cbn [step]. rewrite Hp. cbn [state pending log].
      rewrite processBlock_timer, processBlock_handled, Hr.
      cbn [next_blockNumber]. rewrite Hc. f_equal.
      unfold processBlock. by destruct (processTransactions _ (transactions block)). }
    rewrite Hstep.
    destruct (IH {| state := adaptBlockPause k decrease (state r);
                    pending := Some (b + 1)%Z; log := log r ++ [b] |} (b + 1)%Z)
      as (H2 & H3); [by cbn|done|exact Hcs|].
    rewrite H2, H3. cbn [log length]. split.
    + f_equal. lia.
    + rewrite <- app_assoc. f_equal. cbn [seq fmap list_fmap app]. f_equal.
      { f_equal. lia. }
      rewrite <- seq_shift, <- list_fmap_compose. apply list_fmap_ext.
      intros i x _. cbn. lia.
Qed.

(** X26.  A run of blocks whose handling comes to its end moves on one
    block at a time: after [n] such blocks in a row the blocks handled are
    the next [n] ones and the call pending is for the block after them. *)
Theorem processBlock_advances (k : Constants) (blocks : list Block) (r : Run) (b : Z) :
  running (state r) = true ->
  pending r = Some b ->
  Forall (fun block =>
            Forall (fun tx => throws (state r) tx = false) (transactions block)) blocks ->
  let r' := run k r ((fun block => Settle (Resolved (Some block))) <$> blocks) in
  pending r' = Some (b + Z.of_nat (length blocks))%Z
  /\ log r' = log r ++ ((fun i => (b + Z.of_nat i)%Z) <$> seq 0 (length blocks)).
Proof.
  intros Hr Hp Hc r'. apply (run_blocks k blocks r b Hr Hp).
  eapply Forall_impl; [exact Hc|]. intros block Hb. unfold completes.
  apply Is_true_true, forallb_True, Forall_forall. intros tx Htx.
  rewrite Forall_forall in Hb. by rewrite (Hb tx Htx).
Qed.



End MoreMonitor.

(** ** The reading of a bytecode *)

Section MoreBytecode.
Import Monitor.
Context {dc : Decoder} (getBytecodeRetryPause : number).

(** The tries a launch under way may still use. *)
Lemma processBytecode_Some (l l' : Launch) :
  processBytecode l = Some l' ->
  (0 < retriesLeft l)%Z /\ retriesLeft l' = (retriesLeft l - 1)%Z
  /\ creationData l' = creationData l /\ address l' = address l.
Proof.
  unfold processBytecode. destruct (Z.leb_spec (retriesLeft l) 0); [done|].
  intros [= <-]. cbn. done.
Qed.

Lemma bytecode_step_budget (r : BytecodeRun) (e : BytecodeEvent) (budget : nat) :
  (getCodeCalls r + from_option (fun l => Z.to_nat (retriesLeft l)) 0%nat (scheduled r)
   + from_option (fun l => Z.to_nat (retriesLeft l)) 0%nat (inflight r) <= budget)%nat ->
  (length (assembled r) + length (option_list (scheduled r))
   + length (option_list (inflight r)) <= 1)%nat ->
  let r' := bytecode_step getBytecodeRetryPause r e in
  (getCodeCalls r' + from_option (fun l => Z.to_nat (retriesLeft l)) 0%nat (scheduled r')
   + from_option (fun l => Z.to_nat (retriesLeft l)) 0%nat (inflight r') <= budget)%nat
  /\ (length (assembled r') + length (option_list (scheduled r'))
      + length (option_list (inflight r')) <= 1)%nat.
Proof.
  intros Hb Ha r'. unfold r'. destruct e as [|code|]; cbn [bytecode_step].
  - destruct (scheduled r) as [l|] eqn:Hs; [|by rewrite Hs].
    destruct (inflight r) as [l0|] eqn:Hi; cbn in Hb, Ha; [lia|].
    destruct (processBytecode l) as [l'|] eqn:Hl; cbn; rewrite ?Hi; cbn.
    + apply processBytecode_Some in Hl as (Hpos & Hl & _). rewrite Hl. lia.
    + lia.
  - destruct (inflight r) as [l|] eqn:Hi; [|by rewrite Hi].
    destruct (scheduled r) as [l0|] eqn:Hs; cbn in Hb, Ha; [lia|].
    destruct (processBytecode_settled getBytecodeRetryPause (bstate r) l code)
      as [timer|a bc|] eqn:Ho; cbn.
    + unfold processBytecode_settled in Ho.
      assert (Ht : timer = if running (bstate r) then Some (getBytecodeRetryPause, l)
                           else None).
      { destruct code as [|bytecode]; [by injection Ho|].
        destruct (String.eqb bytecode "0x"); [by injection Ho|].
        destruct (hexToBytes bytecode) as [bytes|]; [|by injection Ho].
        by destruct (fromCborData bytes). }
      rewrite Ht. destruct (running (bstate r)); cbn; lia.
    + rewrite length_app. cbn. lia.
    + lia.
  - cbn. done.
Qed.

Lemma bytecode_run_budget (events : list BytecodeEvent) (r : BytecodeRun) (budget : nat) :
  (getCodeCalls r + from_option (fun l => Z.to_nat (retriesLeft l)) 0%nat (scheduled r)
   + from_option (fun l => Z.to_nat (retriesLeft l)) 0%nat (inflight r) <= budget)%nat ->
  (length (assembled r) + length (option_list (scheduled r))
   + length (option_list (inflight r)) <= 1)%nat ->
  let r' := bytecode_run getBytecodeRetryPause r events in
  (getCodeCalls r' <= budget)%nat
  /\ (length (assembled r') + length (option_list (scheduled r'))
      + length (option_list (inflight r')) <= 1)%nat.
Proof.
  revert r. induction events as [|e events IH]; intros r Hb Ha; cbn.
  - split; [lia|done].
  - destruct (bytecode_step_budget r e budget Hb Ha) as (Hb' & Ha'). by apply IH.
Qed.

(** X28.  One launch calls [getCode] at most as many times as it has tries,
    and not at all when it has none, whatever the answers are and
    whenever the monitor is stopped; at most one bytecode is handed over
    for assembling, and then nothing is scheduled or pending any more. *)
Theorem processBytecode_bounded (m : ChainMonitor) (l : Launch)
    (events : list BytecodeEvent) :
  let r := bytecode_run getBytecodeRetryPause (launch m l) events in
  (getCodeCalls r <= Z.to_nat (retriesLeft l))%nat
  /\ (length (assembled r) <= 1)%nat
  /\ (assembled r <> [] -> scheduled r = None /\ inflight r = None).
Proof.
  intros r.
  destruct (bytecode_run_budget events (launch m l) (Z.to_nat (retriesLeft l)))
    as [H1 H2]; [cbn; lia|cbn; lia|].
  fold r in H1, H2. split; [done|]. split; [lia|]. intros Hne.
  destruct (assembled r) as [|a rest]; [done|]. cbn in H2.
  destruct (scheduled r); [cbn in H2; lia|]. destruct (inflight r); [cbn in H2; lia|]. done.
Qed.

Lemma bytecode_step_stopped (r : BytecodeRun) (e : BytecodeEvent) :
  running (bstate r) = false ->
  (length (option_list (scheduled r)) + length (option_list (inflight r)) <= 1)%nat ->
  let r' := bytecode_step getBytecodeRetryPause r e in
  running (bstate r') = false
  /\ (length (option_list (scheduled r')) + length (option_list (inflight r')) <= 1)%nat
  /\ (getCodeCalls r' + length (option_list (scheduled r'))
      <= getCodeCalls r + length (option_list (scheduled r)))%nat.
Proof.
  intros Hr Hx r'. unfold r'. destruct e as [|code|]; cbn [bytecode_step].
  - destruct (scheduled r) as [l|] eqn:Hs; [|by rewrite Hs].
    destruct (inflight r) as [l0|] eqn:Hi; cbn in Hx; [lia|].
    destruct (processBytecode l) as [l'|]; cbn; rewrite ?Hi; cbn; (split; [done|]); lia.
  - destruct (inflight r) as [l|] eqn:Hi; [|by rewrite Hi].
    destruct (scheduled r) as [l0|] eqn:Hs; cbn in Hx; [lia|].
    destruct (processBytecode_settled getBytecodeRetryPause (bstate r) l code)
      as [timer|a bc|] eqn:Ho; cbn; try (split; [done|]; lia).
    unfold processBytecode_settled in Ho. rewrite Hr in Ho.
    assert (Ht : timer = None).
    { destruct code as [|bytecode]; [by injection Ho|].
      destruct (String.eqb bytecode "0x"); [by injection Ho|].
      destruct (hexToBytes bytecode) as [bytes|]; [|by injection Ho].
      by destruct (fromCborData bytes). }
    rewrite Ht. cbn. split; [done|]. lia.
  - cbn. split; [done|]. lia.
Qed.

(** X29.  Once the monitor is stopped a launch retries no more: the call that
    is scheduled still asks for the code once, and a pending [getCode]
    still settles, but no new timer is armed. *)
Theorem processBytecode_stopped (m : ChainMonitor) (l : Launch)
    (before after : list BytecodeEvent) :
  let r := bytecode_run getBytecodeRetryPause (launch m l) before in
  let r' := bytecode_run getBytecodeRetryPause
              (bytecode_step getBytecodeRetryPause r BytecodeStop) after in
  (getCodeCalls r' <= getCodeCalls r + length (option_list (scheduled r)))%nat
  /\ (getCodeCalls r' <= S (getCodeCalls r))%nat.
Proof.
  intros r r'.
  assert (Hx : (length (option_list (scheduled r)) + length (option_list (inflight r))
                <= 1)%nat).
  { destruct (bytecode_run_budget before (launch m l) (Z.to_nat (retriesLeft l)))
      as [_ H]; [cbn; lia|cbn; lia|]. fold r in H. lia. }
  assert (H : forall evs r0, running (bstate r0) = false ->
    (length (option_list (scheduled r0)) + length (option_list (inflight r0)) <= 1)%nat ->
    (getCodeCalls (bytecode_run getBytecodeRetryPause r0 evs)
     <= getCodeCalls r0 + length (option_list (scheduled r0)))%nat).
  { induction evs as [|e evs IH]; intros r0 Hr0 Hx0; [cbn; lia|].
    change (bytecode_run getBytecodeRetryPause r0 (e :: evs))
      with (bytecode_run getBytecodeRetryPause
              (bytecode_step getBytecodeRetryPause r0 e) evs).
    destruct (bytecode_step_stopped r0 e Hr0 Hx0) as (Hr1 & Hx1 & Hc1).
    specialize (IH _ Hr1 Hx1). lia. }
  specialize (H after (bytecode_step getBytecodeRetryPause r BytecodeStop) eq_refl Hx).
  fold r' in H. cbn [bytecode_step getCodeCalls scheduled] in H. split; [lia|].
  destruct (scheduled r); cbn in H; lia.
Qed.

(** X30.  While the monitor runs and the answers are empty or rejected, a
    launch asks for the code once per round until its tries are used
    up. *)
Theorem processBytecode_retries (m : ChainMonitor) (l : Launch) (codes : list Code) :
  running m = true ->
  Forall (fun code => code = CodeRejected \/ code = CodeResolved "0x") codes ->
  let r := bytecode_run getBytecodeRetryPause (launch m l)
             (code ← codes; [Fire; CodeSettle code]) in
  getCodeCalls r = Nat.min (length codes) (Z.to_nat (retriesLeft l))
  /\ assembled r = [].
Proof.
  intros Hm Hcodes r. unfold r.
  assert (H : forall (codes : list Code) l0 calls,
    Forall (fun code => code = CodeRejected \/ code = CodeResolved "0x") codes ->
    let r := bytecode_run getBytecodeRetryPause
               {| bstate := m; scheduled := Some l0; inflight := None;
                  getCodeCalls := calls; assembled := [] |}
               (code ← codes; [Fire; CodeSettle code]) in
    getCodeCalls r = (calls + Nat.min (length codes) (Z.to_nat (retriesLeft l0)))%nat
    /\ assembled r = []).
  { clear codes Hcodes r. induction codes as [|code codes IH]; intros l0 calls Hc.
    - cbn. split; [lia|done].
    - apply Forall_cons in Hc as [Hcode Hc].
      cbn [mbind list_bind app bytecode_run foldl].
      change (foldl (bytecode_step getBytecodeRetryPause) ?r0 ?evs)
        with (bytecode_run getBytecodeRetryPause r0 evs).
      cbn [bytecode_step scheduled]. unfold processBytecode.
      destruct (Z.leb_spec (retriesLeft l0) 0) as [Hle|Hgt].
      + (* no try left: nothing is scheduled any more *)
        cbn [bytecode_step scheduled inflight bstate getCodeCalls assembled].
        assert (Hidle : forall evs calls0,
          let r0 := bytecode_run getBytecodeRetryPause
                      {| bstate := m; scheduled := None; inflight := None;
                         getCodeCalls := calls0; assembled := [] |} evs in
          (forall e, e ∈ evs -> e <> BytecodeStop) ->
          getCodeCalls r0 = calls0 /\ assembled r0 = []).
        { clear. induction evs as [|e evs IH]; intros calls0 r0 Hns; [done|].
          unfold r0. cbn [bytecode_run foldl].
          change (foldl (bytecode_step getBytecodeRetryPause) ?r0 ?evs)
            with (bytecode_run getBytecodeRetryPause r0 evs).
          destruct e; cbn [bytecode_step scheduled inflight].
          - apply IH. intros e He. apply Hns. by apply list_elem_of_further.
          - apply IH. intros e He. apply Hns. by apply list_elem_of_further.
          - exfalso. by eapply Hns; [apply list_elem_of_here|]. }
        destruct (Hidle (code ← codes; [Fire; CodeSettle code]) calls) as [H1 H2].
        { intros e He. apply list_elem_of_bind in He as (c & He & _).
          apply elem_of_cons in He as [->|He]; [done|].
          apply list_elem_of_singleton in He as ->. done. }
        rewrite H1, H2. split; [|done].
        replace (Z.to_nat (retriesLeft l0)) with 0%nat by lia. lia.
      + cbn [bytecode_step scheduled inflight bstate getCodeCalls assembled].
        assert (Ho : processBytecode_settled getBytecodeRetryPause m
                       {| creationData := creationData l0; address := address l0;
                          retriesLeft := (retriesLeft l0 - 1)%Z |} code
                     = Retry (Some (getBytecodeRetryPause,
                                    {| creationData := creationData l0;
                                       address := address l0;
                                       retriesLeft := (retriesLeft l0 - 1)%Z |}))).
        { unfold processBytecode_settled. rewrite Hm.
          destruct Hcode as [->| ->]; reflexivity. }
        rewrite Ho.
        cbn [fmap option_fmap option_map snd scheduled inflight bstate getCodeCalls
             assembled].
        destruct (IH {| creationData := creationData l0; address := address l0;
                        retriesLeft := (retriesLeft l0 - 1)%Z |} (S calls) Hc)
          as [H1 H2].
        rewrite H1, H2. cbn [retriesLeft length]. split; [lia|done]. }
  by apply H.
Qed.

End MoreBytecode.

(** ** Further examples, on the example runtimes *)

Section MoreValidationExamples.
Import Validation Text.
#[local] Existing Instance example_rt.

Lemma generateVariations_covers_witness :
  {| path := "src/A.sol"; content := "contract A {}" |}
  ∈ generateVariations
      {| path := "src/A.sol";
         content := "contract A {}" +:+ String CR (String LF EmptyString) |}.
Proof.
  apply generateVariations_covers. right; right; right; right.
  exists (String CR (String LF EmptyString)).
  split; [repeat constructor|]. split; reflexivity.
Defined.

Lemma example_A_parsed :
  {| path := "src/A.sol";
     content := "contract A {}" +:+ String CR (String LF EmptyString) |}
  ∈ parseFiles [example_A].
Proof. apply list_elem_of_here. Qed.

Lemma example_A_variation :
  {| path := "src/A.sol"; content := "contract A {}" |}
  ∈ generateVariations
      {| path := "src/A.sol";
         content := "contract A {}" +:+ String CR (String LF EmptyString) |}.
Proof.
  apply (generateVariations_lookup
           {| path := "src/A.sol";
              content := "contract A {}" +:+ String CR (String LF EmptyString) |} 1).
  reflexivity.
Qed.

Lemma storeByHash_complete_witness : is_Some (example_index !! "0xcontract A {}").
Proof.
  destruct (storeByHash_complete (parseFiles [example_A]) _ _
              example_A_parsed example_A_variation) as (indexed & file' & Hi & _).
  exists indexed. exact Hi.
Defined.

Lemma storeByHash_last_witness :
  exists indexed,
    storeByHash
      ([{| path := "lib/A.sol"; content := "contract A {}" |}]
       ++ [{| path := "src/A.sol";
              content := "contract A {}" +:+ String CR (String LF EmptyString) |}])
      !! "0xcontract A {}" = Some indexed
    /\ path indexed = "src/A.sol".
Proof.
  destruct (storeByHash_last [{| path := "lib/A.sol"; content := "contract A {}" |}] _ _
              example_A_variation) as (indexed & Hi & _ & Hp).
  exists indexed. exact (conj Hi Hp).
Defined.

Lemma example_D_invalid :
  invalidSources example_rearranged !! "D.sol"
  = Some {| expectedHash := Some "0xcontract d {}";
            calculatedHash := "0xcontract D {}";
            msg := HASH_MISMATCH_MSG |}.
Proof. vm_compute. reflexivity. Qed.

Lemma invalidSources_mismatch_witness :
  exists entries v info text,
    declaredSources (Some example_manifest) = Ok entries /\ ("D.sol", v) ∈ entries
    /\ sourceInfo v = Ok info /\ info_content info = Some text
    /\ info_keccak256 info = Some "0xcontract d {}"
    /\ keccak256 text = "0xcontract D {}".
Proof.
  destruct (invalidSources_mismatch (Some example_manifest) example_index
              example_rearranged "D.sol" _ example_rearrangeSources example_D_invalid)
    as (entries & v & info & text & He & Hin & Hi & Hc & _ & Hexp & Hcalc & _).
  exists entries, v, info, text.
  exact (conj He (conj Hin (conj Hi (conj Hc (conj (eq_sym Hexp) (eq_sym Hcalc)))))).
Defined.

Lemma example_C_missing :
  missingSources example_rearranged !! "C.sol"
  = Some {| missing_keccak256 := Some "0xcontract C {}";
            missing_urls := Some (JArr [JStr "bzz-raw://c"]) |}.
Proof. vm_compute. reflexivity. Qed.

Lemma missingSources_echo_witness :
  exists entries v info,
    declaredSources (Some example_manifest) = Ok entries /\ ("C.sol", v) ∈ entries
    /\ sourceInfo v = Ok info
    /\ info_keccak256 info = Some "0xcontract C {}"
    /\ falsyContent info.
Proof.
  destruct (missingSources_echo (Some example_manifest) example_index
              example_rearranged "C.sol" _ example_rearrangeSources example_C_missing)
    as (entries & v & info & He & Hin & Hi & Hk & _ & Hf & _).
  exists entries, v, info.
  exact (conj He (conj Hin (conj Hi (conj (eq_sym Hk) Hf)))).
Defined.

Lemma example_A_provided :
  metadata2provided example_rearranged !! "A.sol" = Some "src/A.sol".
Proof. vm_compute. reflexivity. Qed.

Lemma metadata2provided_records_witness :
  exists entries v info h indexed,
    declaredSources (Some example_manifest) = Ok entries /\ ("A.sol", v) ∈ entries
    /\ sourceInfo v = Ok info /\ falsyContent info
    /\ info_keccak256 info = Some h /\ example_index !! h = Some indexed
    /\ path indexed = "src/A.sol".
Proof.
  exact (proj2 (proj1 (metadata2provided_records (Some example_manifest) example_index
                         example_rearranged "A.sol" "src/A.sol"
                         example_rearrangeSources)
                      example_A_provided)).
Defined.

Lemma example_A_declared :
  ("A.sol", JObj {[ "keccak256" := JStr "0xcontract A {}"; "urls" := JArr [] ]})
  ∈ map_to_list example_sources.
Proof. apply elem_of_map_to_list. reflexivity. Qed.

Lemma found_by_variation_witness :
  exists indexed,
    metadata2provided example_rearranged !! "A.sol" = Some (path indexed)
    /\ invalidSources example_rearranged !! "A.sol" = None.
Proof.
  destruct (found_by_variation (Some example_manifest) (parseFiles [example_A])
              example_rearranged (map_to_list example_sources) "A.sol"
              (JObj {[ "keccak256" := JStr "0xcontract A {}"; "urls" := JArr [] ]})
              {| info_content := None; info_keccak256 := Some "0xcontract A {}";
                 info_urls := Some (JArr []) |}
              {| path := "src/A.sol";
                 content := "contract A {}" +:+ String CR (String LF EmptyString) |}
              {| path := "src/A.sol"; content := "contract A {}" |}
              example_rearrangeSources example_declaredSources example_A_declared
              ltac:(discriminate) eq_refl (or_introl eq_refl) example_A_parsed
              example_A_variation eq_refl)
    as (indexed & _ & _ & _ & _ & _ & Hm & Hi & _).
  exists indexed. exact (conj Hm Hi).
Defined.

Lemma inline_declaredSources :
  declaredSources (Some inline_manifest)
  = Ok (map_to_list
          ({[ "B.sol" := JObj {[ "content" := JStr "contract B {}";
                                 "keccak256" := JStr "0xcontract B {}" ]} ]}
           : gmap string json)).
Proof. reflexivity. Qed.

Lemma inline_entries (k : string) (v : json) :
  (k, v) ∈ map_to_list
             ({[ "B.sol" := JObj {[ "content" := JStr "contract B {}";
                                    "keccak256" := JStr "0xcontract B {}" ]} ]}
              : gmap string json) ->
  inlineEntry v.
Proof.
  intros H. apply elem_of_map_to_list, lookup_singleton_Some in H as [_ <-].
  by eexists _, _, _.
Qed.

Lemma rearrangeSources_inline_witness :
  exists r, (forall byHash, rearrangeSources (Some inline_manifest) byHash = Ok r)
            /\ missingSources r = ∅.
Proof.
  destruct (rearrangeSources_inline (Some inline_manifest) ∅ _ inline_declaredSources
              inline_entries) as (r & _ & Hall & Hm & _).
  exists r. exact (conj Hall Hm).
Defined.

Lemma example_checkFiles_unused :
  checkFiles example_files (Some ["other.sol"])
  = (Ok ([example_contract], Some ["other.sol"]), example_files).
Proof. vm_compute. reflexivity. Qed.

Lemma checkFiles_unused_witness :
  exists metadataFiles sourceFiles (usedFiles : list string),
    splitFiles (parseFiles example_files) = Ok (metadataFiles, sourceFiles)
    /\ Some ["other.sol"]
       = (fun before => before ++ filter (fun p => p ∉ usedFiles) (path <$> sourceFiles))
           <$> Some ["other.sol"].
Proof.
  destruct (checkFiles_unused example_files example_files (Some ["other.sol"])
              (Some ["other.sol"]) [example_contract] example_checkFiles_unused)
    as (mds & srcs & used & Hs & _ & Hu).
  exists mds, srcs, used. exact (conj Hs Hu).
Defined.

Lemma example_unzipFiles : unzipFiles example_files = (Ok (), example_files).
Proof. vm_compute. reflexivity. Qed.

Lemma broken_before (f : PathBuffer) :
  f ∈ [example_zip; blob "metadata.json" (stringify example_manifest)] ->
  isZip (buffer f) = true -> is_Some (JSZip_members (buffer f)).
Proof.
  intros Hf Hz. apply elem_of_cons in Hf as [->|Hf]; [by eexists|].
  apply list_elem_of_singleton in Hf as ->. discriminate Hz.
Qed.

Lemma unzipFiles_failure_witness :
  checkFiles ([example_zip; blob "metadata.json" (stringify example_manifest)]
              ++ broken_zip :: [example_A]) None
  = (Throw (UnzipError "broken.zip"),
     [blob "metadata.json" (stringify example_manifest); broken_zip; example_A]).
Proof.
  exact (proj1 (proj2 (unzipFiles_failure
                         [example_zip; blob "metadata.json" (stringify example_manifest)]
                         [example_A] broken_zip None example_contract
                         broken_before eq_refl eq_refl))).
Defined.

Lemma example_plain : Forall plain (parseFiles example_files).
Proof. repeat constructor. Qed.

Lemma example_splitFiles :
  splitFiles (parseFiles example_files)
  = Ok ([Some example_manifest], parseFiles [example_A]).
Proof. vm_compute. reflexivity. Qed.

Lemma splitFiles_sorts_witness :
  [Some example_manifest]
  = Some <$> omap (fun file => recognize (content file)) (parseFiles example_files)
  /\ parseFiles [example_A]
     = filter (fun file => recognize (content file) = None) (parseFiles example_files).
Proof.
  destruct (splitFiles_sorts (parseFiles example_files) _ _ example_plain
              example_splitFiles) as (Hm & Hs & _).
  exact (conj Hm Hs).
Defined.

Lemma marked_unzipFiles :
  unzipFiles [example_A; marked_source] = (Ok (), [example_A; marked_source]).
Proof. vm_compute. reflexivity. Qed.

Lemma marked_before : Forall plain (parseFiles [example_A]).
Proof. repeat constructor. Qed.

Lemma hardhat_syntax_error_witness :
  checkFiles [example_A; marked_source] None
  = (Throw SyntaxError, [example_A; marked_source]).
Proof.
  exact (proj1 (proj2 (hardhat_syntax_error [example_A; marked_source]
                         [example_A; marked_source] (parseFiles [example_A]) []
                         {| path := "Build.sol";
                            content := Buffer_toString (buffer marked_source) |}
                         None example_contract marked_unzipFiles eq_refl marked_before
                         eq_refl eq_refl))).
Defined.

Lemma overwritten_last (j : nat) (elem' : PathContent) :
  [{| path := "A.sol"; content := "contract A {}" |};
   {| path := "A.sol"; content := "contract A2 {}" |}] !! j = Some elem' ->
  1 < j ->
  keyOf j elem' <> keyOf 1 {| path := "A.sol"; content := "contract A2 {}" |}.
Proof. intros Hj Hlt. apply lookup_lt_Some in Hj. cbn in Hj. lia. Qed.

Lemma pathContentArrayToStringMap_last_witness :
  pathContentArrayToStringMap
    [{| path := "A.sol"; content := "contract A {}" |};
     {| path := "A.sol"; content := "contract A2 {}" |}]
    !! "A.sol" = Some "contract A2 {}".
Proof.
  exact (proj1 (pathContentArrayToStringMap_last
                  [{| path := "A.sol"; content := "contract A {}" |};
                   {| path := "A.sol"; content := "contract A2 {}" |}] 1
                  {| path := "A.sol"; content := "contract A2 {}" |} eq_refl
                  ltac:(discriminate) overwritten_last)).
Defined.

Lemma sources_unzipFiles : unzipFiles [example_A] = (Ok (), [example_A]).
Proof. vm_compute. reflexivity. Qed.

Lemma sources_unrecognized (file : PathContent) :
  file ∈ parseFiles [example_A] -> recognize (content file) = None.
Proof.
  intros H. apply list_elem_of_singleton in H as ->. vm_compute. reflexivity.
Qed.

Lemma useAllSources_failures_witness :
  (useAllSources example_contract [example_A]).1 = Throw MetadataNotFound.
Proof.
  exact (proj1 (proj1 (useAllSources_failures example_contract [example_A] [example_A]
                         sources_unzipFiles marked_before))
               sources_unrecognized).
Defined.

End MoreValidationExamples.

Section HardhatExamples.
Import Validation Text.
#[local] Existing Instance hardhat_rt.

Lemma hardhat_null_unzipFiles :
  unzipFiles hardhat_files_null = (Ok (), hardhat_files_null).
Proof. vm_compute. reflexivity. Qed.

Lemma hardhat_null_splitFiles :
  splitFiles (parseFiles hardhat_files_null)
  = Ok ([None], [{| path := "A.sol"; content := "contract A {}" |}]).
Proof. vm_compute. reflexivity. Qed.

Lemma checkFiles_null_manifest_witness :
  exists e, checkFiles hardhat_files_null None = (Throw e, hardhat_files_null)
            /\ runtimeError e.
Proof.
  exact (checkFiles_null_manifest hardhat_files_null hardhat_files_null None _ _
           hardhat_null_unzipFiles hardhat_null_splitFiles (list_elem_of_here _ _)).
Defined.

Lemma hardhat_extract :
  extractHardhatMetadataAndSources
    {| path := "build-info.json"; content := stringify_escaped hardhat_build |}
  = Ok ([Some hardhat_manifest], [{| path := "A.sol"; content := "contract A {}" |}]).
Proof. vm_compute. reflexivity. Qed.

Lemma extractHardhat_harvest_witness : Recognizable hardhat_manifest.
Proof.
  exact (proj1 (extractHardhat_harvest _ _ _ hardhat_extract)
               hardhat_manifest (list_elem_of_here _ _)).
Defined.

End HardhatExamples.

Section MoreMonitorExamples.
Import Monitor.
#[local] Existing Instance example_services.

Lemma example_blocks_complete :
  Forall (fun block =>
            Forall (fun tx => throws (state (start (new_ChainMonitor default_env "1") 7)) tx
                              = false)
                   (transactions block))
         [{| transactions := [{| to := None; input := "0x6001"; from := "0xabc";
                                 nonce := 0 |}] |};
          {| transactions := [] |}].
Proof. repeat constructor. Qed.

Lemma processBlock_advances_witness :
  exists k,
    load default_env = Some k
    /\ pending (run k (start (new_ChainMonitor default_env "1") 7)
                   ((fun block => Settle (Resolved (Some block)))
                      <$> [{| transactions := [{| to := None; input := "0x6001";
                                                  from := "0xabc"; nonce := 0 |}] |};
                           {| transactions := [] |}]))
       = Some 9%Z.
Proof.
  destruct (load default_env) as [k|] eqn:Hload; [|discriminate Hload].
  exists k. split; [reflexivity|].
  exact (proj1 (processBlock_advances k _
                  (start (new_ChainMonitor default_env "1") 7) 7%Z eq_refl eq_refl
                  example_blocks_complete)).
Defined.

Lemma example_empty_codes :
  Forall (fun code => code = CodeRejected \/ code = CodeResolved "0x")
         [CodeResolved "0x"; CodeRejected; CodeResolved "0x"; CodeResolved "0x"].
Proof.
  repeat (apply List.Forall_cons; [first [left; reflexivity|right; reflexivity]|]).
  apply List.Forall_nil.
Qed.

Lemma processBytecode_retries_witness :
  getCodeCalls
    (bytecode_run (dc := example_decoder) (of_Z 5000)
       (launch {| chainId := "1"; running := true; getBlockPause := of_Z 10000;
                  initialGetBytecodeTries := 3 |}
               {| creationData := "0x60"; address := "0xabc"; retriesLeft := 3 |})
       (code ← [CodeResolved "0x"; CodeRejected; CodeResolved "0x"; CodeResolved "0x"];
        [Fire; CodeSettle code]))
  = 3%nat.
Proof.
  exact (proj1 (processBytecode_retries (dc := example_decoder) (of_Z 5000)
                  {| chainId := "1"; running := true; getBlockPause := of_Z 10000;
                     initialGetBytecodeTries := 3 |}
                  {| creationData := "0x60"; address := "0xabc"; retriesLeft := 3 |}
                  _ eq_refl example_empty_codes)).
Defined.

End MoreMonitorExamples.

Section RecognitionExamples.
Import Validation Text.
#[local] Existing Instance hardhat_rt.

Lemma twice_parse :
  JSON_parse (stringify_escaped (JStr (stringify_escaped hardhat_manifest)))
  = Some (JStr (stringify_escaped hardhat_manifest)).
Proof. vm_compute. reflexivity. Qed.

Lemma once_parse :
  JSON_parse (stringify_escaped hardhat_manifest) = Some hardhat_manifest.
Proof. vm_compute. reflexivity. Qed.

Lemma hardhat_manifest_isMetadata : isMetadata (Some hardhat_manifest) = true.
Proof. vm_compute. reflexivity. Qed.

Lemma extractMetadataFromString_double_witness :
  extractMetadataFromString
    (stringify_escaped (JStr (stringify_escaped hardhat_manifest)))
  = Some hardhat_manifest.
Proof.
  exact (proj1 (proj2 (extractMetadataFromString_double _ _ twice_parse))
               hardhat_manifest once_parse
               (proj1 (isMetadata_Recognizable hardhat_manifest)
                      hardhat_manifest_isMetadata)).
Defined.

End RecognitionExamples.

Section PathExamples.
Import Validation Text.
#[local] Existing Instance example_rt.
#[local] Existing Instance example_fs.

Lemma example_contracts_nested : Nested 1 "contracts".
Proof.
  apply Nested_directory. intros nestedName Hn. apply Nested_leaf.
  apply elem_of_cons in Hn as [->|Hn]; [right; discriminate|].
  apply list_elem_of_singleton in Hn as ->. by left.
Qed.

Lemma traversePathRecursively_visits_witness :
  exists outcome,
    traversePathRecursively 2 false "contracts" = Some outcome
    /\ match outcome with
       | inl nonexistent => existsSync nonexistent = false
       | inr _ => True
       end.
Proof.
  destruct (traversePathRecursively_visits 1 false "contracts" example_contracts_nested)
    as (outcome & Hfuel & Ho).
  exists outcome. split; [apply Hfuel; lia|].
  destruct outcome as [nonexistent|visits]; [exact (proj2 Ho)|exact I].
Defined.

Lemma example_paths_nested (path : string) :
  path ∈ ["metadata.json"; "missing"; "contracts/A.sol"] -> Nested 0 path.
Proof.
  intros Hp. apply Nested_leaf.
  apply elem_of_cons in Hp as [->|Hp]; [right; discriminate|].
  apply elem_of_cons in Hp as [->|Hp]; [by left|].
  apply list_elem_of_singleton in Hp as ->. right. discriminate.
Qed.

Lemma checkPaths_reads_witness :
  exists outcome ignoring',
    checkPaths 1 ["metadata.json"; "missing"; "contracts/A.sol"] (Some [])
    = Some (outcome, ignoring').
Proof.
  destruct (checkPaths_reads 0 ["metadata.json"; "missing"; "contracts/A.sol"] (Some [])
              example_paths_nested) as (outcome & ignoring' & Hc & _).
  exists outcome, ignoring'. exact Hc.
Defined.

(** The paths of the example: the path that does not exist is reported,
    and the manifest is checked against the source read from its file. *)
Example checkPaths_example :
  checkPaths 1 ["metadata.json"; "missing"; "contracts/A.sol"] (Some [])
  = Some (inr (Ok [example_contract]), Some ["missing"])
  /\ checkPaths 2 ["missing"; "contracts"; "metadata.json"] (Some [])
     = Some (inl "contracts/dangling", Some ["missing"]).
Proof. split; vm_compute; reflexivity. Qed.

End PathExamples.
